(** * primevue-mcp: extraction, merge and query of component metadata

    A shallow embedding of the extraction scripts ([extract_logic.ts], the
    token extractor), of the merger ([mergeDatasets]), of the HTTP query API
    and of the tool server, with the properties stated about them.

    Conventions of the model.
    - A JavaScript string is a [string]: a sequence of code units below 256.
    - A value read from a JSON document is a [JS.value]; a property that is
      missing ([undefined]) is [None].
    - A JavaScript object is the list of its own properties in enumeration
      order. Its prototype is [Object.prototype]: a property that is read
      under a name the program does not fix finds the own property first
      and the property of [Object.prototype] next ([JS.obj_read]), and an
      assignment to [__proto__] creates no own property ([JS.obj_set]).
    - The other built-in prototypes (of arrays, strings, numbers, booleans
      and functions) are the runtime's: a result that depends on one of
      them is marked as such ([JS.InBuiltin], [JS.RuntimeDependent]) and
      nothing is stated about it.
    - A thrown exception is [None] in the result of a computation and
      [JS.Throws] in the completion of a script. *)

From Stdlib Require Import String Ascii List ZArith Lia Bool Arith.
From Stdlib Require Import Floats.SpecFloat DecimalString.
From stdpp Require Import gmap strings.
Import ListNotations.
Open Scope string_scope.
Set Warnings "-register-all".
Arguments String.append !s1 s2 : simpl nomatch.

(** ** The JavaScript runtime *)

Module JS.

(** *** Strings *)

Definition code (c : ascii) : nat := nat_of_ascii c.

Definition in_range (lo hi : nat) (c : ascii) : bool :=
  (lo <=? code c)%nat && (code c <=? hi)%nat.

(** [String.prototype.toLowerCase] on code units below 256: the letters
    [A-Z] and the Latin-1 capitals U+00C0..U+00DE (U+00D7 is the
    multiplication sign) move up by 32. *)
Definition lower_ascii (c : ascii) : ascii :=
  if in_range 65 90 c || (in_range 192 222 c && negb (code c =? 215)%nat)
  then ascii_of_nat (code c + 32)
  else c.

Fixpoint toLowerCase (s : string) : string :=
  match s with
  | EmptyString => EmptyString
  | String c s' => String (lower_ascii c) (toLowerCase s')
  end.

(** [s.includes(t)] *)
Fixpoint includes (s t : string) : bool :=
  if String.prefix t s then true
  else match s with
       | EmptyString => false
       | String _ s' => includes s' t
       end.

(** White space and line terminators below 256: what [\s] matches and what
    [trim] removes. *)
Definition is_space (c : ascii) : bool :=
  in_range 9 13 c || (code c =? 32)%nat || (code c =? 160)%nat.

Fixpoint trimStart (s : string) : string :=
  match s with
  | String c s' => if is_space c then trimStart s' else s
  | EmptyString => EmptyString
  end.

Fixpoint trimEnd (s : string) : string :=
  match s with
  | EmptyString => EmptyString
  | String c s' =>
      match trimEnd s' with
      | EmptyString => if is_space c then EmptyString else String c EmptyString
      | t => String c t
      end
  end.

Definition trim (s : string) : string := trimEnd (trimStart s).

(** [s.split(sep)[0]] for a one-character separator *)
Fixpoint split_head (sep : ascii) (s : string) : string :=
  match s with
  | EmptyString => EmptyString
  | String c s' => if Ascii.eqb c sep then EmptyString else String c (split_head sep s')
  end.

(** [String(n)] for an array index *)
Definition string_of_nat (n : nat) : string :=
  NilEmpty.string_of_uint (Nat.to_uint n).

(** *** Values *)

Inductive value : Type :=
| VNull
| VBool (b : bool)
| VNum (x : spec_float)
| VStr (s : string)
| VArr (xs : list value)
| VObj (fields : list (string * value))
| VNative (name : string).

(** [VNative name] is no value of a JSON document: it is the property
    [name] of [Object.prototype], met when a property is read through the
    prototype chain of an object. It is a built-in function, and for
    [__proto__] it is [Object.prototype] itself. *)
Definition Object_prototype : list string :=
  ["constructor"; "__defineGetter__"; "__defineSetter__"; "hasOwnProperty";
   "__lookupGetter__"; "__lookupSetter__"; "isPrototypeOf"; "propertyIsEnumerable";
   "toString"; "valueOf"; "__proto__"; "toLocaleString"].

Definition inherited (k : string) : bool := existsb (String.eqb k) Object_prototype.

(** *** Objects: own properties in enumeration order *)

Section Objects.
Context {V : Type}.

Fixpoint obj_get (k : string) (o : list (string * V)) : option V :=
  match o with
  | [] => None
  | (k', v) :: o' => if String.eqb k' k then Some v else obj_get k o'
  end.

Definition obj_has (k : string) (o : list (string * V)) : bool :=
  match obj_get k o with Some _ => true | None => false end.

Definition Object_keys (o : list (string * V)) : list string := map fst o.

Fixpoint obj_replace (k : string) (v : V) (o : list (string * V)) : list (string * V) :=
  match o with
  | [] => []
  | (k', v') :: o' =>
      if String.eqb k' k then (k, v) :: o' else (k', v') :: obj_replace k v o'
  end.
End Objects.

Definition is_digit (c : ascii) : bool := in_range 48 57 c.

Fixpoint all_digits (s : string) : bool :=
  match s with
  | EmptyString => true
  | String c s' => is_digit c && all_digits s'
  end.

Fixpoint digits_value (s : string) (acc : N) : N :=
  match s with
  | EmptyString => acc
  | String c s' => digits_value s' (10 * acc + N.of_nat (code c - 48))%N
  end.

(** A property key is an array index when it is the canonical decimal
    form of an integer below 2^32 - 1; such keys are enumerated first, in
    ascending order, whatever the order of their creation. *)
Definition array_index (k : string) : option N :=
  match k with
  | EmptyString => None
  | String c rest =>
      if all_digits k && (negb (Ascii.eqb c "0") || String.eqb rest "")
      then let n := digits_value k 0 in
           if (n <? 4294967295)%N then Some n else None
      else None
  end.

Section ObjectUpdate.
Context {V : Type}.

Fixpoint obj_insert_index (i : N) (k : string) (v : V) (o : list (string * V))
  : list (string * V) :=
  match o with
  | [] => [(k, v)]
  | (k', v') :: o' =>
      match array_index k' with
      | Some j => if (j <? i)%N then (k', v') :: obj_insert_index i k v o'
                  else (k, v) :: o
      | None => (k, v) :: o
      end
  end.

(** The own property [k] is created, or replaced where it stands: what an
    object literal and the spread syntax do with each property. *)
Definition obj_define (k : string) (v : V) (o : list (string * V)) : list (string * V) :=
  if obj_has k o then obj_replace k v o
  else match array_index k with
       | Some i => obj_insert_index i k v o
       | None => o ++ [(k, v)]
       end.

(** [o[k] = v], for an object [o] that the program has built from an empty
    object literal. The name [__proto__] is the accessor of
    [Object.prototype]: an assignment to it sets the prototype, or does
    nothing when the value is no object, and creates no own property. *)
Definition obj_set (k : string) (v : V) (o : list (string * V)) : list (string * V) :=
  if String.eqb k "__proto__" then o else obj_define k v o.

(** [{...target, ...source}] *)
Definition Object_spread (target source : list (string * V)) : list (string * V) :=
  fold_left (fun o kv => obj_define (fst kv) (snd kv) o) source target.

(** [Object.assign(target, source)]: each property is assigned. *)
Definition Object_assign (target source : list (string * V)) : list (string * V) :=
  fold_left (fun o kv => obj_set (fst kv) (snd kv) o) source target.
End ObjectUpdate.

(** [o[k]] for an object [o] that [JSON.parse] or an object literal has
    made: the own property, else the property of [Object.prototype]. *)
Definition obj_read (k : string) (o : list (string * value)) : option value :=
  match obj_get k o with
  | Some v => Some v
  | None => if inherited k then Some (VNative k) else None
  end.

(** *** Truthiness, property reads, own enumerable properties *)

Definition truthy (v : value) : bool :=
  match v with
  | VNull => false
  | VBool b => b
  | VNum (S754_zero _) | VNum S754_nan => false
  | VNum _ => true
  | VStr s => negb (String.eqb s "")
  | VArr _ | VObj _ | VNative _ => true
  end.

Definition truthy_opt (v : option value) : bool :=
  match v with Some x => truthy x | None => false end.

Definition num_of_nat (n : nat) : spec_float :=
  match n with
  | O => S754_zero false
  | S _ => S754_finite false (Pos.of_nat n) 0
  end.

Fixpoint chars (s : string) : list value :=
  match s with
  | EmptyString => []
  | String c s' => VStr (String c EmptyString) :: chars s'
  end.

Definition indexed (xs : list value) : list (string * value) :=
  combine (map string_of_nat (seq 0 (List.length xs))) xs.

(** The own enumerable properties of a value, as [Object.entries] and the
    spread syntax see them. *)
Definition entries (v : value) : list (string * value) :=
  match v with
  | VObj fields => fields
  | VArr xs => indexed xs
  | VStr s => indexed (chars s)
  | VNull | VBool _ | VNum _ | VNative _ => []
  end.

Definition element (xs : list value) (k : string) : option value :=
  if String.eqb k "length" then Some (VNum (num_of_nat (List.length xs)))
  else match array_index k with
       | Some i => nth_error xs (N.to_nat i)
       | None => None
       end.

(** The number of parameters of the functions of [Object.prototype] *)
Definition native_length (name : string) : option value :=
  if String.eqb name "__proto__" then None
  else if String.eqb name "__defineGetter__" || String.eqb name "__defineSetter__"
  then Some (VNum (num_of_nat 2))
  else if String.eqb name "toString" || String.eqb name "valueOf" ||
          String.eqb name "toLocaleString"
  then Some (VNum (num_of_nat 0))
  else Some (VNum (num_of_nat 1)).

(** [v[k]] for a value [v] that is not [null], where [k] is an own property
    of [v] or one of the names that the program fixes ([title],
    [description], [props], [examples], [length]), which no built-in
    prototype defines but [length], an own property of arrays, strings and
    functions. *)
Definition get_prop (v : value) (k : string) : option value :=
  match v with
  | VObj fields => obj_get k fields
  | VArr xs => element xs k
  | VStr s => element (chars s) k
  | VNative name => if String.eqb k "length" then native_length name else None
  | VNull | VBool _ | VNum _ => None
  end.

(** What a read [v[k]] finds when the program does not fix [k]. *)
Inductive lookup : Type :=
| Found (x : value)
| Undefined
| TypeError
| InBuiltin.

(** [v[k]] through the prototype chain. For an object the chain is
    [Object.prototype]; a property that is no own property of an array, a
    string, a number, a boolean or a built-in function is looked for in a
    built-in prototype of the runtime. Reading a property of [null] throws. *)
Definition get_member (v : value) (k : string) : lookup :=
  match v with
  | VObj fields => match obj_read k fields with Some x => Found x | None => Undefined end
  | VArr xs => match element xs k with Some x => Found x | None => InBuiltin end
  | VStr s => match element (chars s) k with Some x => Found x | None => InBuiltin end
  | VBool _ | VNum _ | VNative _ => InBuiltin
  | VNull => TypeError
  end.

(** [v?.k]: [undefined] when [v] is [undefined] or [null] *)
Definition get_opt (v : option value) (k : string) : option value :=
  match v with
  | None | Some VNull => None
  | Some x => get_prop x k
  end.

(** [typeof v === "object" && v !== null] *)
Definition is_object (v : option value) : bool :=
  match v with
  | Some (VObj _) | Some (VArr _) => true
  | Some (VNative name) => String.eqb name "__proto__"
  | _ => false
  end.

(** [v || {}] *)
Definition or_empty (v : option value) : value :=
  match v with
  | Some x => if truthy x then x else VObj []
  | None => VObj []
  end.

(** How a part of a script ends: it returns, it throws, or what it does
    depends on a built-in prototype of the runtime other than
    [Object.prototype]. *)
Inductive completion (A : Type) : Type :=
| Returns (a : A)
| Throws
| RuntimeDependent.
Arguments Returns {A} a.
Arguments Throws {A}.
Arguments RuntimeDependent {A}.

(** *** [Set]: insertion order, no repetition *)

Definition Set_add (x : string) (s : list string) : list string :=
  if existsb (String.eqb x) s then s else s ++ [x].

(** [Array.from(new Set(xs))] *)
Definition new_Set (xs : list string) : list string :=
  fold_left (fun s x => Set_add x s) xs [].

End JS.

(** ** Regular expressions

    The fragment of the JavaScript regular expressions that the extraction
    scripts use, with the backtracking semantics of the language: the
    alternatives of [|] are tried from left to right, [*] and [+] take as
    much as they can and give back one character at a time, [+?] takes as
    little as it can. Quantifiers apply to character classes only, and a
    pattern has at most one capture group. *)

Module RegExp.
Import JS.

(** The classes [\w], [[A-Z]], [[...]] and [[^...]] *)
Definition is_word (c : ascii) : bool :=
  in_range 65 90 c || in_range 97 122 c || is_digit c || (code c =? 95)%nat.

(** [.] matches every character but a line break; below 256 the line
    breaks are the line feed and the carriage return. *)
Definition is_dot (c : ascii) : bool :=
  negb ((code c =? 10)%nat || (code c =? 13)%nat).

Definition is_upper (c : ascii) : bool := in_range 65 90 c.

Fixpoint any_of (l : string) (c : ascii) : bool :=
  match l with
  | EmptyString => false
  | String a l' => Ascii.eqb c a || any_of l' c
  end.

Definition none_of (l : string) (c : ascii) : bool := negb (any_of l c).

Inductive regex : Type :=
| Lit (l : string)
| Class (p : ascii -> bool)
| Cat (r1 r2 : regex)
| Alt (r1 r2 : regex)
| Star (p : ascii -> bool)
| Plus (p : ascii -> bool)
| PlusLazy (p : ascii -> bool)
| WordBoundary
| Group (r : regex).

(** The text between two positions of the subject, given what is left of
    the subject at each. *)
Definition consumed (s s' : string) : string :=
  String.substring 0 (String.length s - String.length s') s.

Definition first_char (s : string) : option ascii :=
  match s with String c _ => Some c | EmptyString => None end.

Definition word_at (c : option ascii) : bool :=
  match c with Some a => is_word a | None => false end.

(** The result of a match: the subject left after it and capture group 1. *)
Definition result : Type := string * option string.

Fixpoint lit (l : string) (prev : option ascii) (s : string) : option (option ascii * string) :=
  match l with
  | EmptyString => Some (prev, s)
  | String c l' =>
      match s with
      | String a s' => if Ascii.eqb a c then lit l' (Some a) s' else None
      | EmptyString => None
      end
  end.

Fixpoint greedy (p : ascii -> bool) (prev : option ascii) (s : string)
    (k : option ascii -> string -> option result) : option result :=
  match s with
  | String a s' =>
      if p a then
        match greedy p (Some a) s' k with
        | Some r => Some r
        | None => k prev s
        end
      else k prev s
  | EmptyString => k prev s
  end.

Fixpoint reluctant (p : ascii -> bool) (prev : option ascii) (s : string)
    (k : option ascii -> string -> option result) : option result :=
  match k prev s with
  | Some r => Some r
  | None =>
      match s with
      | String a s' => if p a then reluctant p (Some a) s' k else None
      | EmptyString => None
      end
  end.

(** [exec r prev s g k]: match [r] at the head of [s], the character before
    it being [prev] and the capture so far [g], then continue with [k]. *)
Fixpoint exec (r : regex) (prev : option ascii) (s : string) (g : option string)
    (k : option ascii -> string -> option string -> option result) : option result :=
  match r with
  | Lit l =>
      match lit l prev s with
      | Some (prev', s') => k prev' s' g
      | None => None
      end
  | Class p =>
      match s with
      | String a s' => if p a then k (Some a) s' g else None
      | EmptyString => None
      end
  | Cat r1 r2 => exec r1 prev s g (fun prev' s' g' => exec r2 prev' s' g' k)
  | Alt r1 r2 =>
      match exec r1 prev s g k with
      | Some x => Some x
      | None => exec r2 prev s g k
      end
  | Star p => greedy p prev s (fun prev' s' => k prev' s' g)
  | Plus p =>
      match s with
      | String a s' =>
          if p a then greedy p (Some a) s' (fun prev' s' => k prev' s' g) else None
      | EmptyString => None
      end
  | PlusLazy p =>
      match s with
      | String a s' =>
          if p a then reluctant p (Some a) s' (fun prev' s' => k prev' s' g) else None
      | EmptyString => None
      end
  | WordBoundary =>
      if xorb (word_at prev) (word_at (first_char s)) then k prev s g else None
  | Group r1 => exec r1 prev s g (fun prev' s' _ => k prev' s' (Some (consumed s s')))
  end.

(** A match of [r] that starts at the head of [s]: the matched text and
    the capture. *)
Definition match_at (r : regex) (prev : option ascii) (s : string)
    : option (string * option string) :=
  match exec r prev s None (fun _ s' g => Some (s', g)) with
  | Some (s', g) => Some (consumed s s', g)
  | None => None
  end.

(** [s.match(r)] without the [g] flag: the leftmost match. *)
Fixpoint search (r : regex) (prev : option ascii) (s : string)
    : option (string * option string) :=
  match match_at r prev s with
  | Some m => Some m
  | None =>
      match s with
      | String c s' => search r (Some c) s'
      | EmptyString => None
      end
  end.

Definition String_match (r : regex) (s : string) : option (string * option string) :=
  search r None s.

(** [s.match(r)] with the [g] flag: all the matches from left to right, the
    search resuming where the previous match ended ([skip] counts the
    characters of that match still to pass; after an empty match the search
    moves on by one). The empty list stands for [null]. *)
Fixpoint scan (r : regex) (prev : option ascii) (s : string) (skip : nat) : list string :=
  match s with
  | EmptyString =>
      match skip with
      | O => match match_at r prev s with Some (m, _) => [m] | None => [] end
      | S _ => []
      end
  | String c s' =>
      match skip with
      | S n => scan r (Some c) s' n
      | O =>
          match match_at r prev s with
          | Some (m, _) => m :: scan r (Some c) s' (String.length m - 1)
          | None => scan r (Some c) s' 0
          end
      end
  end.

Definition String_match_g (r : regex) (s : string) : list string := scan r None s 0.

(** [r1 r2 ... rn] and [r1|r2|...|rn] *)
Fixpoint sequence (rs : list regex) : regex :=
  match rs with
  | [] => Lit ""
  | [r] => r
  | r :: rs' => Cat r (sequence rs')
  end.

Fixpoint choice (rs : list regex) : regex :=
  match rs with
  | [] => Class (fun _ => false)
  | [r] => r
  | r :: rs' => Alt r (choice rs')
  end.

End RegExp.

(** ** The logic signal extractor ([scripts/extract_logic.ts]) *)

Module ExtractLogic.
Import JS RegExp.

(** [/use[A-Z]\w+/g] *)
Definition re_composable : regex :=
  sequence [Lit "use"; Class is_upper; Plus is_word].

(** [/\b(ref|reactive|computed|watch|onMounted|onUnmounted)\b/g] *)
Definition re_vueImport : regex :=
  sequence [WordBoundary;
            Group (choice [Lit "ref"; Lit "reactive"; Lit "computed"; Lit "watch";
                           Lit "onMounted"; Lit "onUnmounted"]);
            WordBoundary].

(** [/\b(\w+)\s*\([^)]*\)\s*{[^}]*}/g] *)
Definition re_method : regex :=
  sequence [WordBoundary; Group (Plus is_word); Star is_space;
            Lit "("; Star (none_of ")"); Lit ")"; Star is_space;
            Lit "{"; Star (none_of "}"); Lit "}"].

(** The class [Q] of the three quote characters: single, double, backtick. *)
Definition quotes : string :=
  String "'"%char (String "034"%char (String "`"%char EmptyString)).

(** [/emit\(Q(.+?)Q\)/g] *)
Definition re_emit : regex :=
  sequence [Lit "emit("; Class (any_of quotes); Group (PlusLazy is_dot);
            Class (any_of quotes); Lit ")"].

(** [/Q(.+?)Q/] *)
Definition re_quoted : regex :=
  sequence [Class (any_of quotes); Group (PlusLazy is_dot); Class (any_of quotes)].

(** The object [extractLogicFromFile] returns: a category is present when
    its pattern matched at least once. An entry of [emits] is [None] when
    it is [undefined]. *)
Record logic : Type := {
  composables : option (list string);
  vueImports : option (list string);
  methods : option (list string);
  emits : option (list (option string))
}.

Definition reserved_methods : list string := ["setup"; "render"].

Definition extractLogicFromFile (content : string) : logic :=
  {| composables :=
       match String_match_g re_composable content with
       | [] => None
       | useMatches => Some (new_Set useMatches)
       end;
     vueImports :=
       match String_match_g re_vueImport content with
       | [] => None
       | vueImports => Some (new_Set vueImports)
       end;
     methods :=
       match String_match_g re_method content with
       | [] => None
       | methodMatches =>
           let filtered :=
             List.filter (fun m => negb (existsb (String.eqb m) reserved_methods))
               (map (fun m => trim (split_head "(" m)) methodMatches) in
           Some (new_Set filtered)
       end;
     emits :=
       match String_match_g re_emit content with
       | [] => None
       | emitMatches =>
           Some (map (fun e => match String_match re_quoted e with
                               | Some (_, g) => g
                               | None => None
                               end) emitMatches)
       end |}.





End ExtractLogic.

(** ** The token extractor *)

Module ExtractTokens.
Import JS RegExp.

(** [/dt\(Q([^Q]+)Q\)/g], and the same pattern without the flag; [[^Q]] is
    any character that is not a quote. *)
Definition re_dt : regex :=
  sequence [Lit "dt("; Class (any_of ExtractLogic.quotes);
            Group (Plus (none_of ExtractLogic.quotes));
            Class (any_of ExtractLogic.quotes); Lit ")"].

(** [tokenPath.replace(/\./g, '-')] *)
Fixpoint dots_to_hyphens (s : string) : string :=
  match s with
  | EmptyString => EmptyString
  | String c s' => String (if Ascii.eqb c "." then "-"%char else c) (dots_to_hyphens s')
  end.

Definition tokenKey (tokenPath : string) : string := "--p-" ++ dots_to_hyphens tokenPath.

Definition placeholder (tokenPath : string) : string := "dt('" ++ tokenPath ++ "')".

(** The capture group of [re_dt] takes part in every match, so the last
    branch is never taken. *)
Definition extractTokensFromFile (content : string) : list (string * string) :=
  fold_left
    (fun tokens m =>
       match String_match re_dt m with
       | Some (_, Some tokenPath) => obj_set (tokenKey tokenPath) (placeholder tokenPath) tokens
       | _ => tokens
       end)
    (String_match_g re_dt content) [].

(** A directory tree: a file has a name and, when it can be read, a text. *)
Inductive entry : Type :=
| File (name : string) (content : option string)
| Dir (name : string) (children : list entry).

Fixpoint ends_with (s suffix : string) : bool :=
  String.eqb s suffix ||
  match s with
  | EmptyString => false
  | String _ s' => ends_with s' suffix
  end.

(** [/\.(mjs|js)$/i.test(file)] *)
Definition is_script (file : string) : bool :=
  ends_with (toLowerCase file) ".mjs" || ends_with (toLowerCase file) ".js".

(** [walk]: the script files below an entry, in the order of the visit,
    each with what [readFileSafe] returns for it. *)
Fixpoint walk (e : entry) : list (option string) :=
  match e with
  | File file content =>
      if is_script file && negb (includes file ".map") then [content] else []
  | Dir _ children => flat_map walk children
  end.

(** [findTokenFiles(baseDir)]; a base directory that does not exist is [None]. *)
Definition findTokenFiles (baseDir : option (list entry)) : list (option string) :=
  match baseDir with
  | Some children => flat_map walk children
  | None => []
  end.

(** The loop of [main] over the files of one base directory *)
Definition collect (tokens : list (string * string)) (tokenFiles : list (option string))
    : list (string * string) :=
  fold_left
    (fun tokens file =>
       match file with
       | None | Some EmptyString => tokens
       | Some content => Object_assign tokens (extractTokensFromFile content)
       end)
    tokenFiles tokens.

(** [main]: the token map written to [data/tokens.json] *)
Definition main (PRIMEVUE_DIRS : list (option (list entry))) : list (string * string) :=
  fold_left (fun tokens baseDir => collect tokens (findTokenFiles baseDir)) PRIMEVUE_DIRS [].

End ExtractTokens.

(** ** The merger *)

Module Merge.
Import JS.

Definition DATASETS_api : string := "data/api.json".
Definition DATASETS_docs : string := "data/docs.json".
Definition DATASETS_logic : string := "data/logic.json".
Definition DATASETS_tokens : string := "data/tokens.json".
Definition OUTPUT_PATH : string := "data/combined.json".

(** [{ ...a, ...b, ...c }] *)
Definition spread (parts : list value) : list (string * value) :=
  fold_left (fun o part => Object_spread o (entries part)) parts [].

(** The record that the loop of [mergeDatasets] builds for [key], the three
    documents being objects. A key that a document does not hold is read
    from [Object.prototype]: what is found there has no property to
    spread, and under [logic] it is truthy. *)
Definition merged_record (api docs logic : list (string * value)) (key : string) : value :=
  VObj (spread [or_empty (obj_read key docs);
                or_empty (obj_read key api);
                match obj_read key logic with
                | Some l => if truthy l then VObj [("logic", l)] else VObj []
                | None => VObj []
                end]).

(** The loop and the assignment of the tokens, for three documents that
    are objects and a token document that is not [null] *)
Definition merge_objects (api docs logic : list (string * value)) (tokens : value)
    : list (string * value) :=
  let allKeys := new_Set (Object_keys api ++ Object_keys docs ++ Object_keys logic) in
  let merged :=
    fold_left (fun merged key => obj_set key (merged_record api docs logic key) merged)
      allKeys [] in
  if (0 <? List.length (Object_keys (entries tokens)))%nat
  then obj_set "_tokens" tokens merged
  else merged.

(** The body of [mergeDatasets], after the four documents have been read:
    [api], [docs], [logic] and [tokens] are what [readJsonSafe] returned.
    [Object.keys(null)] throws. A document that is an array, a string, a
    number or a boolean is read, under the keys of the others, through its
    own built-in prototype. *)
Definition mergeDatasets (api docs logic tokens : value)
    : completion (list (string * value)) :=
  match api, docs, logic, tokens with
  | VNull, _, _, _ | _, VNull, _, _ | _, _, VNull, _ | _, _, _, VNull => Throws
  | VObj api', VObj docs', VObj logic', _ => Returns (merge_objects api' docs' logic' tokens)
  | _, _, _, _ => RuntimeDependent
  end.

(** The files: a path has a text or does not exist. [JSON.parse] and
    [JSON.stringify] are the runtime's; a text that is not a JSON document
    has no parse. *)
Section Files.
Variable JSON_parse : string -> option value.
Variable JSON_stringify : list (string * value) -> string.

(** The files of the directory [data], which exists. *)
Definition files : Type := string -> option string.

(** Whatever [JSON.parse] returns for the text of the file; the empty
    object when the file does not exist or its text has no parse. *)
Definition readJsonSafe (fs : files) (filePath : string) : value :=
  match fs filePath with
  | None => VObj []
  | Some data =>
      match JSON_parse data with
      | Some document => document
      | None => VObj []
      end
  end.

Definition writeFileSync (filePath data : string) (fs : files) : files :=
  fun p => if String.eqb p filePath then Some data else fs p.

Definition mergeDatasets_read (fs : files) : completion (list (string * value)) :=
  mergeDatasets (readJsonSafe fs DATASETS_api) (readJsonSafe fs DATASETS_docs)
                (readJsonSafe fs DATASETS_logic) (readJsonSafe fs DATASETS_tokens).

(** [main]: the files it leaves; nothing is written when [mergeDatasets]
    throws. *)
Definition main (fs : files) : completion files :=
  match mergeDatasets_read fs with
  | Returns mergedData => Returns (writeFileSync OUTPUT_PATH (JSON_stringify mergedData) fs)
  | Throws => Throws
  | RuntimeDependent => RuntimeDependent
  end.
End Files.

End Merge.

(** ** What the two servers share: filters and summaries over the dataset *)

Module Dataset.
Import JS.

(** [a || b] *)
Definition js_or (a b : option value) : option value :=
  if truthy_opt a then a else b.

(** [v?.toLowerCase().includes(term)]: [undefined] (not truthy) when [v] is
    [undefined] or [null], a [TypeError] when [v] is not a string. *)
Definition lower_includes (v : option value) (term : string) : option bool :=
  match v with
  | None | Some VNull => Some false
  | Some (VStr s) => Some (includes (toLowerCase s) term)
  | Some _ => None
  end.

(** [keys.filter(f)] for a callback that may throw *)
Fixpoint filter_throwing {A : Type} (f : A -> option bool) (l : list A) : option (list A) :=
  match l with
  | [] => Some []
  | x :: l' =>
      match f x with
      | None => None
      | Some b =>
          match filter_throwing f l' with
          | None => None
          | Some r => Some (if b then x :: r else r)
          end
      end
  end.

Definition is_component_key (key : string) : bool := negb (String.eqb key "_tokens").

(** The filter callback of the component lists: the identifier, then the
    title, then the description, stopping at the first that contains
    [term]. *)
Definition key_matches (data : list (string * value)) (term key : string) : option bool :=
  let component := obj_get key data in
  if includes (toLowerCase key) term then Some true
  else match lower_includes (get_opt component "title") term with
       | None => None
       | Some true => Some true
       | Some false => lower_includes (get_opt component "description") term
       end.

(** The test of the token filters *)
Definition token_matches (term : string) (kv : string * value) : bool :=
  includes (toLowerCase (fst kv)) term ||
  match snd kv with
  | VStr s => includes (toLowerCase s) term
  | _ => false
  end.

(** [!!component?.props] and [!!component?.examples?.length] *)
Definition has_props (component : option value) : bool :=
  truthy_opt (get_opt component "props").

Definition has_examples (component : option value) : bool :=
  truthy_opt (get_opt (get_opt component "examples") "length").

End Dataset.

(** ** The query API *)

Module QueryAPI.
Import JS Dataset.

Record summary : Type := {
  name : string;
  title : option value;
  description : option value;
  hasProps : bool;
  hasExamples : bool;
  sections : list string
}.

Record tokens_result : Type := { count : nat; tokens : value }.

Inductive hit : Type :=
| ComponentHit (name : string) (title description : option value) (matches : list string)
| TokenHit (name : string) (value : JS.value).

Record search_result : Type := {
  query : string;
  search_count : nat;
  results : list hit
}.

(** *** The compute functions of the three memoized endpoints *)

Definition standardSections : list string := ["title"; "description"; "props"; "examples"].

Definition summarize (data : list (string * value)) (key : string) : summary :=
  let component := obj_get key data in
  let sections :=
    List.filter
      (fun k => negb (existsb (String.eqb k) standardSections)
                && is_object (get_opt component k))
      (Object_keys (entries (or_empty component))) in
  {| name := key;
     title := get_opt component "title";
     description := get_opt component "description";
     hasProps := has_props component;
     hasExamples := has_examples component;
     sections := sections |}.

(** A query parameter [q] that is absent is [None]; [q && typeof q ===
    "string"] holds for a [q] that is present and not empty. *)
Definition given (q : option string) : option string :=
  match q with
  | Some EmptyString | None => None
  | Some term => Some term
  end.

Definition compute_components (data : list (string * value)) (q : option string)
    : option (list summary) :=
  let keys := List.filter is_component_key (Object_keys data) in
  match
    match given q with
    | Some q' => filter_throwing (key_matches data (toLowerCase q')) keys
    | None => Some keys
    end
  with
  | Some keys' => Some (map (summarize data) keys')
  | None => None
  end.

Definition compute_tokens (data : list (string * value)) (q : option string)
    : option tokens_result :=
  let tokens := or_empty (obj_get "_tokens" data) in
  let tokens :=
    match given q with
    | Some q' =>
        VObj (fold_left
                (fun filteredTokens kv =>
                   if token_matches (toLowerCase q') kv
                   then obj_set (fst kv) (snd kv) filteredTokens
                   else filteredTokens)
                (entries tokens) [])
    | None => tokens
    end in
  Some {| count := List.length (Object_keys (entries tokens)); tokens := tokens |}.

(** The [matches] of one component; the title and the description are
    always examined. *)
Definition component_matches (term key : string) (component : value) : option (list string) :=
  match lower_includes (get_opt (Some component) "title") term,
        lower_includes (get_opt (Some component) "description") term with
  | Some in_title, Some in_description =>
      Some ((if includes (toLowerCase key) term then ["name"] else []) ++
            (if in_title then ["title"] else []) ++
            (if in_description then ["description"] else []) ++
            match get_opt (Some component) "props" with
            | Some props =>
                if truthy props
                then map (fun prop => ("prop:" ++ prop)%string)
                       (List.filter (fun prop => includes (toLowerCase prop) term)
                          (Object_keys (entries props)))
                else []
            | None => []
            end)%list
  | _, _ => None
  end.

Fixpoint component_hits (term : string) (es : list (string * value)) : option (list hit) :=
  match es with
  | [] => Some []
  | (key, component) :: es' =>
      if String.eqb key "_tokens" then component_hits term es'
      else
        match component_matches term key component with
        | None => None
        | Some matches =>
            match component_hits term es' with
            | None => None
            | Some hits =>
                Some (match matches with
                      | [] => hits
                      | _ => ComponentHit key
                               (get_opt (Some component) "title")
                               (get_opt (Some component) "description") matches :: hits
                      end)
            end
        end
  end.

Definition token_hits (data : list (string * value)) (term : string) : list hit :=
  if truthy_opt (obj_get "_tokens" data)
  then map (fun kv => TokenHit (fst kv) (snd kv))
         (List.filter (token_matches term) (entries (or_empty (obj_get "_tokens" data))))
  else [].

Definition compute_search (data : list (string * value)) (q : string) : option search_result :=
  let term := toLowerCase q in
  match component_hits term data with
  | Some hits =>
      let results := (hits ++ token_hits data term)%list in
      Some {| query := q; search_count := List.length results; results := results |}
  | None => None
  end.

(** *** The memoization *)

Record cache : Type := {
  components : gmap string (list summary);
  tokens_cache : gmap string tokens_result;
  search : gmap string search_result;
  timestamps : gmap string Z
}.

Definition empty_cache : cache :=
  {| components := ∅; tokens_cache := ∅; search := ∅; timestamps := ∅ |}.

(** Five minutes, in milliseconds *)
Definition ttl : Z := 5 * 60 * 1000.

(** [now] is what [Date.now()] returns. *)
Definition isCacheValid (timestamps : gmap string Z) (now : Z) (key : string) : bool :=
  match timestamps !! key with
  | None => false
  | Some timestamp => if (timestamp =? 0)%Z then false else (now - timestamp <? ttl)%Z
  end.

(** [getCachedOrCompute(cacheMap, key, computeFn)] returns the result with
    the map and the time stamps as it leaves them; when [computeFn] throws
    it returns nothing and leaves both as they were. *)
Definition getCachedOrCompute {T : Type} (cacheMap : gmap string T)
    (timestamps : gmap string Z) (now : Z) (key : string) (computeFn : option T)
    : option (T * gmap string T * gmap string Z) :=
  match cacheMap !! key with
  | Some cached =>
      if isCacheValid timestamps now key then Some (cached, cacheMap, timestamps)
      else match computeFn with
           | Some result => Some (result, <[key := result]> cacheMap, <[key := now]> timestamps)
           | None => None
           end
  | None =>
      match computeFn with
      | Some result => Some (result, <[key := result]> cacheMap, <[key := now]> timestamps)
      | None => None
      end
  end.

(** *** The handlers

    A request carries the parameters that passed the validation of its
    route. *)

Inductive request : Type :=
| GET_components (q : option string)
| GET_component (name : string) (section : option string)
| GET_tokens (q : option string)
| GET_search (q : string)
| POST_cache_clear.

(** [FromBuiltin] is an answer that the handler makes from a property it
    has looked for in a built-in prototype other than [Object.prototype]:
    the runtime decides whether the property is there. *)
Inductive response : Type :=
| Components (result : list summary)
| Value (v : value)
| Tokens (result : tokens_result)
| Search (result : search_result)
| Cleared
| NotFound (error : string) (available : list string)
| InternalError
| FromBuiltin.

(** The status of a response; none is stated for [FromBuiltin]. *)
Definition status (r : response) : nat :=
  match r with
  | NotFound _ _ => 404
  | InternalError => 500
  | FromBuiltin => 0
  | _ => 200
  end.

Definition components_key (q : option string) : string :=
  match given q with
  | Some q' => "components:" ++ q'
  | None => "components:all"
  end.

Definition tokens_key (q : option string) : string :=
  match given q with
  | Some q' => "tokens:" ++ q'
  | None => "tokens:all"
  end.

Definition search_key (q : string) : string := "search:" ++ q.

Definition get_components (data : list (string * value)) (now : Z) (c : cache)
    (q : option string) : cache * response :=
  match getCachedOrCompute (components c) (timestamps c) now (components_key q)
          (compute_components data q) with
  | Some (result, m, ts) =>
      ({| components := m; tokens_cache := tokens_cache c; search := search c;
          timestamps := ts |}, Components result)
  | None => (c, InternalError)
  end.

Definition get_tokens (data : list (string * value)) (now : Z) (c : cache)
    (q : option string) : cache * response :=
  match getCachedOrCompute (tokens_cache c) (timestamps c) now (tokens_key q)
          (compute_tokens data q) with
  | Some (result, m, ts) =>
      ({| components := components c; tokens_cache := m; search := search c;
          timestamps := ts |}, Tokens result)
  | None => (c, InternalError)
  end.

Definition get_search (data : list (string * value)) (now : Z) (c : cache)
    (q : string) : cache * response :=
  match getCachedOrCompute (search c) (timestamps c) now (search_key q)
          (compute_search data q) with
  | Some (result, m, ts) =>
      ({| components := components c; tokens_cache := tokens_cache c; search := m;
          timestamps := ts |}, Search result)
  | None => (c, InternalError)
  end.

Definition component_not_found (data : list (string * value)) (name : string) : response :=
  NotFound ("Component '" ++ name ++ "' not found")
    (List.filter is_component_key (Object_keys data)).

Definition section_not_found (comp : value) (section name : string) : response :=
  NotFound ("Section '" ++ section ++ "' not found in '" ++ name ++ "'")
    (List.filter (fun key => is_object (get_prop comp key)) (Object_keys (entries comp))).

(** [GET /mcp/component/:name]. The dataset is read under the name of the
    request and the component under the section of the request: both reads
    go through the prototype chain. *)
Definition get_component (data : list (string * value)) (name : string)
    (section : option string) : response :=
  match js_or (obj_read (toLowerCase name) data) (obj_read name data) with
  | Some comp =>
      if truthy comp then
        match given section with
        | Some section' =>
            match get_member comp (toLowerCase section') with
            | Found part =>
                if truthy part then Value part else section_not_found comp section' name
            | Undefined => section_not_found comp section' name
            | TypeError => InternalError
            | InBuiltin => FromBuiltin
            end
        | None => Value comp
        end
      else component_not_found data name
  | None => component_not_found data name
  end.

Definition cache_clear : cache := empty_cache.

(** The [totalEntries] that [GET /cache/stats] reports *)
Definition totalEntries (c : cache) : nat :=
  size (components c) + size (tokens_cache c) + size (search c).

(** One request, served at time [now] over the loaded dataset [data] *)
Definition handle (data : list (string * value)) (now : Z) (c : cache) (r : request)
    : cache * response :=
  match r with
  | GET_components q => get_components data now c q
  | GET_component name section => (c, get_component data name section)
  | GET_tokens q => get_tokens data now c q
  | GET_search q => get_search data now c q
  | POST_cache_clear => (cache_clear, Cleared)
  end.

(** The requests of a process, each with the time at which it is served *)
Fixpoint serve (data : list (string * value)) (c : cache) (rs : list (Z * request))
    : cache * list response :=
  match rs with
  | [] => (c, [])
  | (now, r) :: rs' =>
      let (c', out) := handle data now c r in
      let (c'', outs) := serve data c' rs' in
      (c'', out :: outs)
  end.

End QueryAPI.

(** ** The tool server ([src/mcp-server.ts]) *)

Module ToolServer.
Import JS Dataset.

Record Component : Type := {
  name : string;
  title : option value;
  description : option value;
  hasProps : bool;
  hasExamples : bool
}.

Definition searchComponents (data : list (string * value)) (query : string)
    : option (list Component) :=
  let components := List.filter is_component_key (Object_keys data) in
  let lowerQuery := toLowerCase query in
  match filter_throwing (key_matches data lowerQuery) components with
  | Some keys =>
      Some (map (fun key =>
                   {| name := key;
                      title := get_opt (obj_get key data) "title";
                      description := get_opt (obj_get key data) "description";
                      hasProps := has_props (obj_get key data);
                      hasExamples := has_examples (obj_get key data) |}) keys)
  | None => None
  end.

Fixpoint join (sep : string) (l : list string) : string :=
  match l with
  | [] => ""
  | [x] => x
  | x :: l' => x ++ sep ++ join sep l'
  end.

(** What a call returns, or the message of the [Error] it throws *)
Inductive outcome : Type :=
| Returned (v : value)
| Thrown (message : string).

Definition getComponent (data : list (string * value)) (name : string) : outcome :=
  match js_or (obj_read (toLowerCase name) data) (obj_read name data) with
  | Some comp =>
      if truthy comp then Returned comp
      else Thrown ("Component '" ++ name ++ "' not found. Available: " ++
                   join ", " (firstn 10 (List.filter is_component_key (Object_keys data))))
  | None =>
      Thrown ("Component '" ++ name ++ "' not found. Available: " ++
              join ", " (firstn 10 (List.filter is_component_key (Object_keys data))))
  end.

Record listing : Type := {
  stats_components : nat;
  stats_tokens : nat;
  stats_total : nat;
  listed : list (string * option value * option value)
}.

Definition listComponents (data : list (string * value)) : listing :=
  let components := List.filter is_component_key (Object_keys data) in
  let tokenCount :=
    match obj_get "_tokens" data with
    | Some t => if truthy t then List.length (Object_keys (entries t)) else 0
    | None => 0
    end in
  {| stats_components := List.length components;
     stats_tokens := tokenCount;
     stats_total := List.length components + tokenCount;
     listed := map (fun name => (name, get_opt (obj_get name data) "title",
                                 get_opt (obj_get name data) "description")) components |}.

(** The tool [search_components]: a call without a query searches for the
    empty string. *)
Definition search_components (data : list (string * value)) (query : option string)
    : option (list Component) :=
  searchComponents data (match query with Some q => q | None => "" end).

(** [searchTokens(data, query)] *)
Record token_search : Type := {
  ts_query : string;
  ts_count : nat;
  ts_tokens : list (string * value)
}.

Definition searchTokens (data : list (string * value)) (query : string) : token_search :=
  let tokens := or_empty (obj_get "_tokens" data) in
  let lowerQuery := toLowerCase query in
  let filtered :=
    fold_left
      (fun filtered kv =>
         if token_matches lowerQuery kv then obj_set (fst kv) (snd kv) filtered
         else filtered)
      (entries tokens) [] in
  {| ts_query := query;
     ts_count := List.length (Object_keys filtered);
     ts_tokens := filtered |}.

(** *** Resources *)

(** [s.replace(pattern, "")] for a pattern that is a string: the first
    occurrence is removed. *)
Fixpoint drop (n : nat) (s : string) : string :=
  match n, s with
  | S n', String _ s' => drop n' s'
  | _, _ => s
  end.

Fixpoint remove_first (pattern s : string) : string :=
  if String.prefix pattern s then drop (String.length pattern) s
  else match s with
       | EmptyString => EmptyString
       | String c s' => String c (remove_first pattern s')
       end.

Definition component_uri : string := "primevue://component/".
Definition tokens_uri : string := "primevue://tokens".

Record resource : Type := {
  uri : string;
  resource_name : string;
  resource_description : value;
  mimeType : string
}.

Section Resources.
(** [String(x)] for a number is the runtime's. *)
Variable Number_toString : spec_float -> string.

(** The conversion of a value to a string that a template literal applies *)
Fixpoint ToString (v : value) : string :=
  match v with
  | VNull => "null"
  | VBool b => if b then "true" else "false"
  | VNum x => Number_toString x
  | VStr s => s
  | VArr xs =>
      join "," (map (fun x => match x with VNull => "" | _ => ToString x end) xs)
  | VObj _ => "[object Object]"
  | VNative name =>
      if String.eqb name "__proto__" then "[object Object]"
      else "function " ++ (if String.eqb name "constructor" then "Object" else name) ++
           "() { [native code] }"
  end.

(** The handler of [ListResourcesRequestSchema] *)
Definition ListResources (data : list (string * value)) : list resource :=
  let components := List.filter is_component_key (Object_keys data) in
  (map (fun name =>
          {| uri := component_uri ++ name;
             resource_name :=
               "PrimeVue " ++
               ToString (match js_or (get_opt (obj_get name data) "title") (Some (VStr name)) with
                         | Some t => t
                         | None => VStr name
                         end);
             resource_description :=
               match js_or (get_opt (obj_get name data) "description")
                       (Some (VStr ("PrimeVue " ++ name ++ " component"))) with
               | Some d => d
               | None => VStr ("PrimeVue " ++ name ++ " component")
               end;
             mimeType := "application/json" |}) components
   ++ [{| uri := tokens_uri;
          resource_name := "PrimeVue Design Tokens";
          resource_description := VStr "Global design tokens for PrimeVue components";
          mimeType := "application/json" |}])%list.
End Resources.

(** The handler of [ReadResourceRequestSchema]: the value whose JSON text
    is the content of the resource, or the error thrown. *)
Definition ReadResource (data : list (string * value)) (uri : string) : outcome :=
  if String.eqb uri tokens_uri then Returned (or_empty (obj_get "_tokens" data))
  else if String.prefix component_uri uri then
    let name := remove_first component_uri uri in
    match js_or (obj_read (toLowerCase name) data) (obj_read name data) with
    | Some comp =>
        if truthy comp then Returned comp
        else Thrown ("Component '" ++ name ++ "' not found")
    | None => Thrown ("Component '" ++ name ++ "' not found")
    end
  else Thrown ("Unknown resource: " ++ uri).

End ToolServer.

(** ** The script that adds the interpreter line to the built server *)

Module Shebang.

Definition file : string := "dist/src/mcp-server.js".
Definition shebang : string := "#!/usr/bin/env node" ++ String "010" "".

(** The files: their texts and their permission bits *)
Record disk : Type := {
  content : string -> option string;
  mode : string -> option N
}.

Definition add_shebang (d : disk) : disk :=
  match content d file with
  | Some text =>
      if String.prefix shebang text then d
      else {| content := fun p => if String.eqb p file then Some (shebang ++ text)
                                  else content d p;
              mode := fun p => if String.eqb p file then Some 493%N else mode d p |}
  | None => d
  end.

End Shebang.

(** * Properties *)

(** ** Objects *)

Module ObjectFacts.
Import JS.

Lemma NoDup_snoc {A : Type} (x : A) (l : list A) :
  ~ In x l -> List.NoDup l -> List.NoDup (l ++ [x]).
Proof.
  intros Hx Hl. induction Hl as [|z l Hz Hl IH]; simpl.
  - constructor; [tauto | constructor].
  - constructor.
    + rewrite in_app_iff. simpl in *. intuition.
    + apply IH. simpl in Hx. tauto.
Qed.

Section Lookup.
Context {V : Type}.
Implicit Types (o : list (string * V)) (k : string) (v : V).

Lemma obj_get_In_keys k o v : obj_get k o = Some v -> In k (Object_keys o).
Proof.
  induction o as [|[k' v'] o IH]; simpl; [discriminate|].
  destruct (String.eqb_spec k' k); [auto | intros H; right; auto].
Qed.

Lemma obj_get_None k o : ~ In k (Object_keys o) -> obj_get k o = None.
Proof.
  induction o as [|[k' v'] o IH]; simpl; [reflexivity|].
  intros H. destruct (String.eqb_spec k' k); [tauto | apply IH; tauto].
Qed.

Lemma In_keys_obj_get k o : In k (Object_keys o) -> exists v, obj_get k o = Some v.
Proof.
  induction o as [|[k' v'] o IH]; simpl; [tauto|].
  intros [->|H].
  - rewrite String.eqb_refl. eauto.
  - destruct (String.eqb k' k); eauto.
Qed.

Lemma obj_get_replace k k' v o :
  obj_get k' (obj_replace k v o) =
  if String.eqb k' k then (if obj_has k o then Some v else None) else obj_get k' o.
Proof.
  unfold obj_has. induction o as [|[k0 v0] o IH]; simpl.
  - destruct (String.eqb k' k); reflexivity.
  - destruct (String.eqb_spec k0 k) as [->|Hne]; simpl.
    + rewrite (String.eqb_sym k k'). destruct (String.eqb k' k); reflexivity.
    + rewrite IH. destruct (String.eqb_spec k' k) as [->|Hne'].
      * destruct (String.eqb_spec k0 k); [contradiction | reflexivity].
      * reflexivity.
Qed.

Lemma obj_get_insert_index i k k' v o :
  obj_get k o = None ->
  obj_get k' (obj_insert_index i k v o) = if String.eqb k' k then Some v else obj_get k' o.
Proof.
  induction o as [|[k0 v0] o IH]; simpl; intros Hk.
  - rewrite (String.eqb_sym k k'). destruct (String.eqb k' k); reflexivity.
  - destruct (String.eqb_spec k0 k) as [->|Hne]; [discriminate|].
    destruct (array_index k0) as [j|]; [destruct (j <? i)%N|]; simpl;
      rewrite ?(String.eqb_sym k k'); try reflexivity.
    rewrite IH by assumption.
    destruct (String.eqb_spec k0 k') as [->|Hne'];
      [destruct (String.eqb_spec k' k); [contradiction | reflexivity] | reflexivity].
Qed.

Lemma obj_get_app k o1 o2 :
  obj_get k (o1 ++ o2) = match obj_get k o1 with Some v => Some v | None => obj_get k o2 end.
Proof.
  induction o1 as [|[k0 v0] o1 IH]; simpl; [reflexivity|].
  destruct (String.eqb k0 k); auto.
Qed.

(** Reading after [o[k] = v] *)
Lemma obj_get_set k k' v o :
  obj_get k' (obj_define k v o) = if String.eqb k' k then Some v else obj_get k' o.
Proof.
  unfold obj_define. destruct (obj_has k o) eqn:Hhas.
  - rewrite obj_get_replace, Hhas. reflexivity.
  - assert (Hk : obj_get k o = None).
    { unfold obj_has in Hhas. destruct (obj_get k o); [discriminate | reflexivity]. }
    destruct (array_index k).
    + apply obj_get_insert_index; assumption.
    + rewrite obj_get_app. simpl. rewrite (String.eqb_sym k k').
      destruct (String.eqb_spec k' k) as [->|Hne].
      * rewrite Hk. reflexivity.
      * destruct (obj_get k' o); reflexivity.
Qed.

Lemma keys_replace k v o : Object_keys (obj_replace k v o) = Object_keys o.
Proof.
  induction o as [|[k0 v0] o IH]; simpl; [reflexivity|].
  destruct (String.eqb_spec k0 k) as [->|_]; simpl; [reflexivity | rewrite IH; reflexivity].
Qed.

Lemma In_keys_insert_index x i k v o :
  In x (Object_keys (obj_insert_index i k v o)) <-> x = k \/ In x (Object_keys o).
Proof.
  induction o as [|[k0 v0] o IH]; simpl; [intuition|].
  destruct (array_index k0) as [j|]; [destruct (j <? i)%N|]; simpl; rewrite ?IH; intuition.
Qed.

Lemma NoDup_keys_insert_index i k v o :
  ~ In k (Object_keys o) ->
  List.NoDup (Object_keys o) -> List.NoDup (Object_keys (obj_insert_index i k v o)).
Proof.
  induction o as [|[k0 v0] o IH]; simpl; intros Hk Hnd.
  - constructor; [tauto | constructor].
  - inversion Hnd as [|? ? Hk0 Hnd']; subst.
    destruct (array_index k0) as [j|]; [destruct (j <? i)%N|]; simpl.
    + constructor; [rewrite In_keys_insert_index; intuition | apply IH; tauto].
    + constructor; [simpl; tauto | assumption].
    + constructor; [simpl; tauto | assumption].
Qed.

(** An assignment keeps the property names distinct. *)
Lemma NoDup_keys_set k v o :
  List.NoDup (Object_keys o) -> List.NoDup (Object_keys (obj_define k v o)).
Proof.
  intros Hnd. unfold obj_define, obj_has. destruct (obj_get k o) eqn:E.
  - rewrite keys_replace. assumption.
  - assert (Hk : ~ In k (Object_keys o)).
    { intros H. apply In_keys_obj_get in H. destruct H as [x Hx]. congruence. }
    destruct (array_index k).
    + apply NoDup_keys_insert_index; assumption.
    + unfold Object_keys. rewrite map_app. simpl.
      apply NoDup_snoc; assumption.
Qed.

Lemma NoDup_keys_assign (target source : list (string * V)) :
  List.NoDup (Object_keys target) -> List.NoDup (Object_keys (Object_spread target source)).
Proof.
  unfold Object_spread. revert target.
  induction source as [|[k0 v0] source IH]; simpl; intros target H; [assumption|].
  apply IH, NoDup_keys_set, H.
Qed.

Lemma obj_get_set_eq k v o : obj_get k (obj_define k v o) = Some v.
Proof. rewrite obj_get_set, String.eqb_refl. reflexivity. Qed.

Lemma obj_get_set_ne k k' v o : k' <> k -> obj_get k' (obj_define k v o) = obj_get k' o.
Proof.
  intros H. rewrite obj_get_set. destruct (String.eqb_spec k' k); [contradiction | reflexivity].
Qed.

(** Reading after [Object.assign]: the source wins. *)
Lemma obj_get_assign k (target source : list (string * V)) :
  List.NoDup (Object_keys source) ->
  obj_get k (Object_spread target source) =
  match obj_get k source with Some v => Some v | None => obj_get k target end.
Proof.
  unfold Object_spread. revert target.
  induction source as [|[k0 v0] source IH]; simpl; intros target Hnd; [reflexivity|].
  inversion Hnd as [|? ? Hnotin Hnd']; subst.
  rewrite IH by assumption. rewrite obj_get_set.
  destruct (String.eqb_spec k0 k) as [->|Hne].
  - rewrite (obj_get_None k source Hnotin), String.eqb_refl. reflexivity.
  - destruct (String.eqb_spec k k0); [congruence | reflexivity].
Qed.

(** A loop [for (const key of keys) merged[key] = f(key)] *)
Lemma obj_get_fold_set (f : string -> V) k keys o :
  obj_get k (fold_left (fun merged key => obj_define key (f key) merged) keys o) =
  if existsb (String.eqb k) keys then Some (f k) else obj_get k o.
Proof.
  revert o. induction keys as [|k0 keys IH]; simpl; intros o; [reflexivity|].
  rewrite IH, obj_get_set.
  destruct (String.eqb_spec k k0) as [->|Hne]; simpl.
  - destruct (existsb (String.eqb k0) keys); reflexivity.
  - reflexivity.
Qed.
End Lookup.

Lemma existsb_eqb_In (x : string) (l : list string) :
  existsb (String.eqb x) l = true <-> In x l.
Proof.
  rewrite existsb_exists. split.
  - intros [y [Hy Heq]]. apply String.eqb_eq in Heq. subst. assumption.
  - intros H. exists x. split; [assumption | apply String.eqb_refl].
Qed.

(** *** [Set] *)

Lemma In_Set_add x y s : In x (Set_add y s) <-> x = y \/ In x s.
Proof.
  unfold Set_add. destruct (existsb (String.eqb y) s) eqn:E.
  - apply existsb_eqb_In in E. split; [auto | intros [->|H]; assumption].
  - rewrite in_app_iff. simpl. intuition.
Qed.

Lemma NoDup_Set_add y s : List.NoDup s -> List.NoDup (Set_add y s).
Proof.
  intros Hs. unfold Set_add. destruct (existsb (String.eqb y) s) eqn:E; [assumption|].
  apply NoDup_snoc; [|assumption].
  intros H. apply existsb_eqb_In in H. congruence.
Qed.

Lemma fold_Set_add_spec xs s :
  List.NoDup s ->
  List.NoDup (fold_left (fun s x => Set_add x s) xs s) /\
  forall x, In x (fold_left (fun s x => Set_add x s) xs s) <-> In x s \/ In x xs.
Proof.
  revert s. induction xs as [|y xs IH]; simpl; intros s Hs.
  - split; [assumption | intuition].
  - destruct (IH (Set_add y s) (NoDup_Set_add y s Hs)) as [Hnd Hin].
    split; [assumption|]. intros x. rewrite Hin, In_Set_add. intuition.
Qed.

(** The elements of a list in the order of their first occurrence *)
Fixpoint first_occurrences (xs : list string) : list string :=
  match xs with
  | [] => []
  | x :: xs' => x :: List.filter (fun y => negb (String.eqb y x)) (first_occurrences xs')
  end.

Lemma filter_filter_absorb (x : string) (s l : list string) :
  existsb (String.eqb x) s = true ->
  List.filter (fun y => negb (existsb (String.eqb y) s))
    (List.filter (fun y => negb (String.eqb y x)) l)
  = List.filter (fun y => negb (existsb (String.eqb y) s)) l.
Proof.
  intros Hx. induction l as [|y l IH]; simpl; [reflexivity|].
  destruct (String.eqb_spec y x) as [->|Hne]; simpl.
  - rewrite Hx. simpl. apply IH.
  - rewrite IH. reflexivity.
Qed.

Lemma filter_snoc_absent (x : string) (s l : list string) :
  List.filter (fun y => negb (existsb (String.eqb y) (s ++ [x]))) l
  = List.filter (fun y => negb (existsb (String.eqb y) s))
      (List.filter (fun y => negb (String.eqb y x)) l).
Proof.
  induction l as [|y l IH]; simpl; [reflexivity|].
  rewrite existsb_app. simpl. rewrite orb_false_r.
  destruct (String.eqb y x); simpl.
  - rewrite orb_true_r. simpl. apply IH.
  - rewrite orb_false_r. destruct (existsb (String.eqb y) s); simpl; rewrite IH; reflexivity.
Qed.

Lemma fold_Set_add_order xs : forall s,
  fold_left (fun s x => Set_add x s) xs s
  = (s ++ List.filter (fun y => negb (existsb (String.eqb y) s)) (first_occurrences xs))%list.
Proof.
  induction xs as [|x xs IH]; intros s; simpl.
  - rewrite app_nil_r. reflexivity.
  - rewrite IH. unfold Set_add. destruct (existsb (String.eqb x) s) eqn:E; simpl.
    + rewrite filter_filter_absorb by assumption. reflexivity.
    + rewrite <- app_assoc. simpl. rewrite filter_snoc_absent. reflexivity.
Qed.

(** A [Set] lists its elements in the order of their first occurrence. *)
Lemma new_Set_first_occurrences xs : new_Set xs = first_occurrences xs.
Proof.
  unfold new_Set. rewrite fold_Set_add_order. simpl.
  induction (first_occurrences xs) as [|y l IH]; simpl; [reflexivity|].
  rewrite IH. reflexivity.
Qed.

Lemma NoDup_new_Set xs : List.NoDup (new_Set xs).
Proof. apply (fold_Set_add_spec xs []). constructor. Qed.

Lemma In_new_Set x xs : In x (new_Set xs) <-> In x xs.
Proof.
  unfold new_Set. destruct (fold_Set_add_spec xs [] (List.NoDup_nil _)) as [_ H].
  rewrite H. simpl. tauto.
Qed.


(** *** Assignment and the prototype *)

Section Assignment.
Context {V : Type}.
Implicit Types (o : list (string * V)) (k : string) (v : V).

Lemma obj_set_define k v o : k <> "__proto__" -> obj_set k v o = obj_define k v o.
Proof.
  intros H. unfold obj_set. destruct (String.eqb_spec k "__proto__"); [contradiction | reflexivity].
Qed.

(** Reading after [o[k] = v] *)
Lemma obj_get_obj_set k k' v o :
  obj_get k' (obj_set k v o) =
  if String.eqb k "__proto__" then obj_get k' o
  else if String.eqb k' k then Some v else obj_get k' o.
Proof. unfold obj_set. destruct (String.eqb k "__proto__"); [reflexivity | apply obj_get_set]. Qed.

Lemma obj_get_obj_set_eq k v o : k <> "__proto__" -> obj_get k (obj_set k v o) = Some v.
Proof. intros H. rewrite obj_set_define by assumption. apply obj_get_set_eq. Qed.

Lemma obj_get_obj_set_ne k k' v o : k' <> k -> obj_get k' (obj_set k v o) = obj_get k' o.
Proof.
  intros H. rewrite obj_get_obj_set. destruct (String.eqb k "__proto__"); [reflexivity|].
  destruct (String.eqb_spec k' k); [contradiction | reflexivity].
Qed.

(** No assignment gives an object the own property [__proto__]. *)
Lemma obj_get_obj_set_proto k v o :
  obj_get "__proto__" (obj_set k v o) = obj_get "__proto__" o.
Proof.
  rewrite obj_get_obj_set. destruct (String.eqb_spec k "__proto__") as [->|Hne]; [reflexivity|].
  destruct (String.eqb_spec "__proto__" k); [congruence | reflexivity].
Qed.

Lemma NoDup_keys_obj_set k v o :
  List.NoDup (Object_keys o) -> List.NoDup (Object_keys (obj_set k v o)).
Proof.
  intros H. unfold obj_set. destruct (String.eqb k "__proto__"); [assumption|].
  apply NoDup_keys_set, H.
Qed.

(** [Object.assign] is the spread of a source without [__proto__]. *)
Lemma Object_assign_spread (target source : list (string * V)) :
  ~ In "__proto__" (Object_keys source) ->
  Object_assign target source = Object_spread target source.
Proof.
  unfold Object_assign, Object_spread. revert target.
  induction source as [|[k v] source IH]; simpl; intros target H; [reflexivity|].
  rewrite obj_set_define by tauto. apply IH. tauto.
Qed.

Lemma obj_define_fresh k v o :
  ~ In k (Object_keys o) -> array_index k = None -> obj_define k v o = (o ++ [(k, v)])%list.
Proof.
  intros Hnew Hidx. unfold obj_define, obj_has. rewrite (obj_get_None k o Hnew), Hidx. reflexivity.
Qed.

(** The keys of a loop of assignments over distinct names that are no
    array indices: the names are appended in the order of the loop. *)
Lemma keys_fold_obj_set (f : string -> V) keys : forall o,
  List.NoDup keys ->
  (forall k, In k keys ->
             array_index k = None /\ k <> "__proto__" /\ ~ In k (Object_keys o)) ->
  Object_keys (fold_left (fun merged key => obj_set key (f key) merged) keys o)
  = (Object_keys o ++ keys)%list.
Proof.
  induction keys as [|k keys IH]; intros o Hnd Hk; simpl.
  - rewrite app_nil_r. reflexivity.
  - inversion Hnd as [|? ? Hfresh Hnd']; subst.
    destruct (Hk k (or_introl eq_refl)) as [Hidx [Hproto Hnew]].
    rewrite (obj_set_define k (f k) o Hproto), (obj_define_fresh k (f k) o Hnew Hidx).
    rewrite IH; [| assumption |].
    + unfold Object_keys. rewrite map_app, <- app_assoc. reflexivity.
    + intros k' Hk'. destruct (Hk k' (or_intror Hk')) as [H1 [H2 H3]].
      split; [assumption|]. split; [assumption|].
      unfold Object_keys. rewrite map_app, in_app_iff. simpl.
      intros [H|[H|[]]]; [apply H3, H | subst; contradiction].
Qed.

(** A loop [for (const key of keys) merged[key] = f(key)] *)
Lemma obj_get_fold_obj_set (f : string -> V) k keys o :
  obj_get k (fold_left (fun merged key => obj_set key (f key) merged) keys o) =
  if existsb (String.eqb k) keys && negb (String.eqb k "__proto__")
  then Some (f k) else obj_get k o.
Proof.
  revert o. induction keys as [|k0 keys IH]; simpl; intros o; [reflexivity|].
  rewrite IH, obj_get_obj_set.
  destruct (String.eqb_spec k k0) as [->|Hne]; simpl.
  - destruct (String.eqb k0 "__proto__"); simpl.
    + rewrite andb_false_r. reflexivity.
    + rewrite andb_true_r. destruct (existsb (String.eqb k0) keys); reflexivity.
  - destruct (String.eqb k0 "__proto__"); reflexivity.
Qed.
End Assignment.

Lemma inherited_false k : ~ In k Object_prototype -> inherited k = false.
Proof.
  intros H. unfold inherited. destruct (existsb _ _) eqn:E; [|reflexivity].
  exfalso. apply H. apply existsb_exists in E. destruct E as [x [Hx Heq]].
  apply String.eqb_eq in Heq. subst. assumption.
Qed.

Lemma inherited_true k : In k Object_prototype -> inherited k = true.
Proof.
  intros H. unfold inherited. apply existsb_exists. exists k. split; [assumption|].
  apply String.eqb_refl.
Qed.

(** A name that [Object.prototype] does not define is read from the own
    properties alone. *)
Lemma obj_read_own k (o : list (string * value)) :
  inherited k = false -> obj_read k o = obj_get k o.
Proof. intros H. unfold obj_read. rewrite H. destruct (obj_get k o); reflexivity. Qed.

Lemma obj_read_get k (o : list (string * value)) v :
  obj_get k o = Some v -> obj_read k o = Some v.
Proof. intros H. unfold obj_read. rewrite H. reflexivity. Qed.

Lemma obj_read_inherited k (o : list (string * value)) :
  ~ In k (Object_keys o) -> inherited k = true -> obj_read k o = Some (VNative k).
Proof. intros Hk Hi. unfold obj_read. rewrite (obj_get_None k o Hk), Hi. reflexivity. Qed.


End ObjectFacts.

(** ** The merger *)

Module MergeFacts.
Import JS Merge ObjectFacts.

(** A record is a JSON object, its field names distinct; a source document
    maps component keys to records. *)
Definition record (v : value) : Prop :=
  exists fields, v = VObj fields /\ List.NoDup (Object_keys fields).

Definition document (d : list (string * value)) : Prop :=
  forall k v, obj_get k d = Some v -> record v.

(** The field [f] of the record, if any, that a source has for a key *)
Definition field (r : option value) (f : string) : option value :=
  match r with
  | Some v => obj_get f (entries v)
  | None => None
  end.

(** What the output is to hold at [key]: the fields of the [docs] record
    overridden by those of the [api] record, and the [logic] record, when
    there is one, as the field [logic]. *)
Definition merged_at (api docs logic merged : list (string * value)) (key : string) : Prop :=
  exists fields,
    obj_get key merged = Some (VObj fields) /\
    forall f,
      obj_get f fields =
      match (if String.eqb f "logic" then obj_get key logic else None) with
      | Some l => Some l
      | None =>
          match field (obj_get key api) f with
          | Some v => Some v
          | None => field (obj_get key docs) f
          end
      end.

(** What [readJsonSafe] is to return for a path: the parse of the text of
    the file, and the empty object for a file that is missing or whose
    text has no parse. *)
Definition holds (JSON_parse : string -> option value) (fs : files) (path : string)
    (document : value) : Prop :=
  match fs path with
  | Some text =>
      match JSON_parse text with
      | Some parsed => document = parsed
      | None => document = VObj []
      end
  | None => document = VObj []
  end.

(** What a run has written to the output path *)
Definition written (run : completion files) : completion (option string) :=
  match run with
  | Returns fs => Returns (fs OUTPUT_PATH)
  | Throws => Throws
  | RuntimeDependent => RuntimeDependent
  end.

Lemma record_truthy v : record v -> truthy v = true.
Proof. intros [fields [-> _]]. reflexivity. Qed.

Lemma or_empty_document d key :
  document d -> inherited key = false ->
  List.NoDup (Object_keys (entries (or_empty (obj_read key d)))) /\
  forall f, obj_get f (entries (or_empty (obj_read key d))) = field (obj_get key d) f.
Proof.
  intros Hd Hkey. rewrite (obj_read_own key d Hkey).
  unfold or_empty, field. destruct (obj_get key d) as [v|] eqn:E.
  - destruct (Hd _ _ E) as [fields [-> Hnd]]. simpl. auto.
  - simpl. split; [constructor | reflexivity].
Qed.

Lemma merged_loop_lookup api docs logic key keys :
  obj_get key
    (fold_left (fun merged key => obj_set key (merged_record api docs logic key) merged)
       keys []) =
  if existsb (String.eqb key) keys && negb (String.eqb key "__proto__")
  then Some (merged_record api docs logic key)
  else None.
Proof. apply (obj_get_fold_obj_set (merged_record api docs logic)). Qed.

Lemma document_single k fields :
  List.NoDup (Object_keys fields) -> document [(k, VObj fields)].
Proof.
  intros Hnd k' v. cbn [obj_get]. destruct (String.eqb k k'); [|discriminate].
  intros H. injection H as <-. exists fields. auto.
Qed.

Lemma mergeDatasets_objects api docs logic tokens :
  mergeDatasets (VObj api) (VObj docs) (VObj logic) (VObj tokens)
  = Returns (merge_objects api docs logic (VObj tokens)).
Proof. reflexivity. Qed.

End MergeFacts.

Import JS.

Definition reserved_key_tokens : list (string * value) := [("--p-a", VStr "dt('a')")].


Lemma merged_at_key (api docs logic tokens : list (string * value)) (key : string) :
  MergeFacts.document api -> MergeFacts.document docs -> MergeFacts.document logic ->
  In key (Object_keys api ++ Object_keys docs ++ Object_keys logic) ->
  inherited key = false ->
  key <> "_tokens" \/ tokens = [] ->
  MergeFacts.merged_at api docs logic (Merge.merge_objects api docs logic (VObj tokens)) key.
Proof.
  intros Hapi Hdocs Hlogic Hin Hkey Hres.
  assert (Hproto : String.eqb key "__proto__" = false).
  { destruct (String.eqb_spec key "__proto__") as [->|]; [discriminate Hkey | reflexivity]. }
  unfold MergeFacts.merged_at, Merge.merge_objects. cbv zeta.
  assert (Hex : existsb (String.eqb key)
                  (new_Set (Object_keys api ++ Object_keys docs ++ Object_keys logic)) = true).
  { apply ObjectFacts.existsb_eqb_In, ObjectFacts.In_new_Set, Hin. }
  eexists. split.
  { destruct Hres as [Hne | ->];
      [destruct (0 <? List.length (Object_keys (entries (VObj tokens))))%nat;
       [rewrite ObjectFacts.obj_get_obj_set_ne by assumption|] | simpl];
      rewrite MergeFacts.merged_loop_lookup, Hex, Hproto; reflexivity. }
  intros f. unfold Merge.spread. simpl.
  destruct (MergeFacts.or_empty_document docs key Hdocs Hkey) as [Hnd_d Hf_d].
  destruct (MergeFacts.or_empty_document api key Hapi Hkey) as [Hnd_a Hf_a].
  rewrite (ObjectFacts.obj_read_own key logic Hkey).
  assert (Hl : List.NoDup (Object_keys (entries
                 match obj_get key logic with
                 | Some l => if truthy l then VObj [("logic", l)] else VObj []
                 | None => VObj []
                 end)) /\
               obj_get f (entries
                 match obj_get key logic with
                 | Some l => if truthy l then VObj [("logic", l)] else VObj []
                 | None => VObj []
                 end) = if String.eqb f "logic" then obj_get key logic else None).
  { destruct (obj_get key logic) as [l|] eqn:El.
    - rewrite (MergeFacts.record_truthy l (Hlogic _ _ El)). cbn [entries obj_get].
      split; [repeat constructor; simpl; tauto|].
      rewrite (String.eqb_sym "logic" f). destruct (String.eqb f "logic"); reflexivity.
    - simpl. split; [constructor | destruct (String.eqb f "logic"); reflexivity]. }
  destruct Hl as [Hnd_l Hf_l].
  rewrite !ObjectFacts.obj_get_assign by assumption.
  rewrite Hf_l, Hf_a, Hf_d. simpl.
  destruct (if String.eqb f "logic" then obj_get key logic else None); [reflexivity|].
  destruct (MergeFacts.field (obj_get key api) f); [reflexivity|].
  destruct (MergeFacts.field (obj_get key docs) f); reflexivity.
Qed.

Lemma In_keys_iff {V : Type} (k : string) (o : list (string * V)) :
  In k (Object_keys o) <-> obj_get k o <> None.
Proof.
  split.
  - intros H. apply ObjectFacts.In_keys_obj_get in H. destruct H as [v ->]. discriminate.
  - intros H. destruct (obj_get k o) as [v|] eqn:E; [|congruence].
    eapply ObjectFacts.obj_get_In_keys, E.
Qed.

Lemma mergeDatasets_keys (api docs logic tokens : list (string * value)) (key : string) :
  In key (Object_keys (Merge.merge_objects api docs logic (VObj tokens))) <->
  (In key (Object_keys api ++ Object_keys docs ++ Object_keys logic) /\ key <> "__proto__") \/
  (key = "_tokens" /\ tokens <> []).
Proof.
  rewrite In_keys_iff. unfold Merge.merge_objects. cbv zeta.
  rewrite <- (ObjectFacts.In_new_Set key), <- ObjectFacts.existsb_eqb_In.
  destruct tokens as [|t tokens]; cbn [entries Object_keys map List.length Nat.ltb Nat.leb].
  - rewrite MergeFacts.merged_loop_lookup.
    destruct (existsb _ _); destruct (String.eqb_spec key "__proto__"); simpl;
      split; intros H; try congruence; try tauto;
      destruct H as [[H1 H2]|[_ H]]; congruence.
  - rewrite ObjectFacts.obj_get_obj_set, MergeFacts.merged_loop_lookup. simpl.
    destruct (String.eqb_spec key "_tokens") as [->|Hne].
    + split; [intros _; right; split; [reflexivity | discriminate] | discriminate].
    + destruct (existsb _ _); destruct (String.eqb_spec key "__proto__"); simpl;
        split; intros H; try congruence; try tauto;
        destruct H as [[H1 H2]|[H _]]; congruence.
Qed.


Definition button_api : list (string * value) :=
  [("button", VObj [("props", VObj [("label", VStr "string")]); ("title", VStr "api")])].
Definition button_docs : list (string * value) :=
  [("button", VObj [("title", VStr "Button"); ("description", VStr "A button")])].
Definition button_logic : list (string * value) :=
  [("button", VObj [("emits", VArr [VStr "click"])])].

Lemma button_documents :
  MergeFacts.document button_api /\ MergeFacts.document button_docs /\
  MergeFacts.document button_logic.
Proof.
  repeat split; apply MergeFacts.document_single;
    repeat constructor; simpl; intuition discriminate.
Qed.


(** The four source documents are read from files that [main] does not
    write. *)
Lemma main_keeps_sources JSON_parse JSON_stringify (fs out : Merge.files) (p : string) :
  Merge.main JSON_parse JSON_stringify fs = Returns out ->
  In p [Merge.DATASETS_api; Merge.DATASETS_docs; Merge.DATASETS_logic; Merge.DATASETS_tokens] ->
  out p = fs p.
Proof.
  unfold Merge.main. destruct (Merge.mergeDatasets_read JSON_parse fs); try discriminate.
  intros H Hp. injection H as <-. unfold Merge.writeFileSync.
  destruct (String.eqb_spec p Merge.OUTPUT_PATH) as [->|_]; [|reflexivity].
  simpl in Hp. intuition discriminate.
Qed.

Lemma mergeDatasets_read_ext JSON_parse (fs fs' : Merge.files) :
  (forall p, In p [Merge.DATASETS_api; Merge.DATASETS_docs; Merge.DATASETS_logic;
                   Merge.DATASETS_tokens] -> fs p = fs' p) ->
  Merge.mergeDatasets_read JSON_parse fs = Merge.mergeDatasets_read JSON_parse fs'.
Proof.
  intros H. unfold Merge.mergeDatasets_read, Merge.readJsonSafe.
  rewrite <- !H by (simpl; auto). reflexivity.
Qed.

Lemma readJsonSafe_holds JSON_parse (fs : Merge.files) (path : string) (document : value) :
  MergeFacts.holds JSON_parse fs path document ->
  Merge.readJsonSafe JSON_parse fs path = document.
Proof.
  unfold MergeFacts.holds, Merge.readJsonSafe.
  destruct (fs path) as [text|]; [destruct (JSON_parse text)|]; intros ->; reflexivity.
Qed.

Lemma written_main JSON_parse JSON_stringify (fs : Merge.files) :
  MergeFacts.written (Merge.main JSON_parse JSON_stringify fs) =
  match Merge.mergeDatasets_read JSON_parse fs with
  | Returns merged => Returns (Some (JSON_stringify merged))
  | Throws => Throws
  | RuntimeDependent => RuntimeDependent
  end.
Proof.
  unfold Merge.main. destruct (Merge.mergeDatasets_read JSON_parse fs); reflexivity.
Qed.

(** The keys of the merged object, in their order *)
Lemma merge_objects_key_order (api docs logic tokens : list (string * value)) :
  (forall k, In k (Object_keys api ++ Object_keys docs ++ Object_keys logic) ->
             array_index k = None /\ k <> "_tokens" /\ k <> "__proto__") ->
  Object_keys (Merge.merge_objects api docs logic (VObj tokens))
  = (ObjectFacts.first_occurrences (Object_keys api ++ Object_keys docs ++ Object_keys logic)
     ++ match tokens with [] => [] | _ => ["_tokens"] end)%list.
Proof.
  intros Hkeys. unfold Merge.merge_objects. cbv zeta.
  assert (Hloop : Object_keys
                    (fold_left
                       (fun merged key =>
                          obj_set key (Merge.merged_record api docs logic key) merged)
                       (new_Set (Object_keys api ++ Object_keys docs ++ Object_keys logic))
                       [])
                  = ObjectFacts.first_occurrences
                      (Object_keys api ++ Object_keys docs ++ Object_keys logic)).
  { rewrite ObjectFacts.keys_fold_obj_set.
    - apply ObjectFacts.new_Set_first_occurrences.
    - apply ObjectFacts.NoDup_new_Set.
    - intros k Hk. apply (proj1 (ObjectFacts.In_new_Set _ _)) in Hk.
      destruct (Hkeys k Hk) as [H1 [_ H3]]. simpl. tauto. }
  destruct tokens as [|t tokens].
  - change (0 <? List.length (Object_keys (entries (VObj (@nil (string * value))))))%nat
      with false.
    cbv iota. rewrite Hloop, app_nil_r. reflexivity.
  - change (0 <? List.length (Object_keys (entries (VObj (t :: tokens)))))%nat with true.
    cbv iota.
    rewrite ObjectFacts.obj_set_define by discriminate.
    rewrite ObjectFacts.obj_define_fresh; [| |reflexivity].
    2:{ rewrite Hloop. rewrite <- ObjectFacts.new_Set_first_occurrences, ObjectFacts.In_new_Set.
        intros H. apply Hkeys in H. tauto. }
    unfold Object_keys at 1. rewrite map_app.
    change (map fst ?o) with (Object_keys o). rewrite Hloop. reflexivity.
Qed.

(** C9: the combined output is a function of the four source documents
    alone. Two runs of the merger over files that hold the same four
    documents end alike and write the same text, key order included, to
    [data/combined.json]; so does a second run after a first. The text is
    that of the merge of what the four files parse to, a missing or
    unparsable file counting as the empty object: when the four documents
    are objects of records, the keys of the output are those of [api],
    [docs] and [logic] at their first occurrence, in this order, then
    [_tokens] when there are tokens, and each record is the merge of the
    records of its key. A document [null] makes the run throw and write
    nothing. *)
Theorem main_deterministic JSON_parse JSON_stringify (fs fs' : Merge.files) :
  (forall p, In p [Merge.DATASETS_api; Merge.DATASETS_docs; Merge.DATASETS_logic;
                   Merge.DATASETS_tokens] -> fs p = fs' p) ->
  MergeFacts.written (Merge.main JSON_parse JSON_stringify fs)
  = MergeFacts.written (Merge.main JSON_parse JSON_stringify fs') /\
  (forall out,
     Merge.main JSON_parse JSON_stringify fs = Returns out ->
     MergeFacts.written (Merge.main JSON_parse JSON_stringify out)
     = MergeFacts.written (Merge.main JSON_parse JSON_stringify fs)) /\
  (forall api docs logic tokens,
     MergeFacts.holds JSON_parse fs Merge.DATASETS_api (VObj api) ->
     MergeFacts.holds JSON_parse fs Merge.DATASETS_docs (VObj docs) ->
     MergeFacts.holds JSON_parse fs Merge.DATASETS_logic (VObj logic) ->
     MergeFacts.holds JSON_parse fs Merge.DATASETS_tokens (VObj tokens) ->
     MergeFacts.document api -> MergeFacts.document docs -> MergeFacts.document logic ->
     (forall k, In k (Object_keys api ++ Object_keys docs ++ Object_keys logic) ->
                array_index k = None /\ k <> "_tokens" /\ ~ In k Object_prototype) ->
     exists merged,
       MergeFacts.written (Merge.main JSON_parse JSON_stringify fs)
       = Returns (Some (JSON_stringify merged)) /\
       Object_keys merged
       = (ObjectFacts.first_occurrences
            (Object_keys api ++ Object_keys docs ++ Object_keys logic)
          ++ match tokens with [] => [] | _ => ["_tokens"] end)%list /\
       (forall key,
          In key (Object_keys api ++ Object_keys docs ++ Object_keys logic) ->
          MergeFacts.merged_at api docs logic merged key) /\
       (tokens <> [] -> obj_get "_tokens" merged = Some (VObj tokens))) /\
  (forall p,
     In p [Merge.DATASETS_api; Merge.DATASETS_docs; Merge.DATASETS_logic;
           Merge.DATASETS_tokens] ->
     MergeFacts.holds JSON_parse fs p VNull ->
     Merge.main JSON_parse JSON_stringify fs = Throws).
Proof.
  intros Hsame. split; [|split; [|split]].
  - rewrite !written_main. rewrite (mergeDatasets_read_ext JSON_parse fs fs' Hsame). reflexivity.
  - intros out Hout. rewrite !written_main.
    rewrite (mergeDatasets_read_ext JSON_parse out fs); [reflexivity|].
    intros p Hp. eapply main_keeps_sources; eassumption.
  - intros api docs logic tokens Ha Hd Hl Ht Hapi Hdocs Hlogic Hkeys.
    exists (Merge.merge_objects api docs logic (VObj tokens)).
    rewrite written_main. unfold Merge.mergeDatasets_read.
    rewrite (readJsonSafe_holds _ _ _ _ Ha), (readJsonSafe_holds _ _ _ _ Hd),
      (readJsonSafe_holds _ _ _ _ Hl), (readJsonSafe_holds _ _ _ _ Ht).
    split; [reflexivity|]. split; [|split].
    + apply merge_objects_key_order. intros k Hk. destruct (Hkeys k Hk) as [H1 [H2 H3]].
      split; [assumption|]. split; [assumption|]. intros ->. apply H3. simpl. tauto.
    + intros key Hk. destruct (Hkeys key Hk) as [_ [H2 H3]].
      apply merged_at_key; auto. apply ObjectFacts.inherited_false, H3.
    + intros Hne. unfold Merge.merge_objects. cbv zeta.
      destruct tokens as [|t tokens]; [congruence|].
      cbn [entries Object_keys map List.length Nat.ltb Nat.leb].
      apply ObjectFacts.obj_get_obj_set_eq. discriminate.
  - intros p Hp Hnull. apply readJsonSafe_holds in Hnull.
    unfold Merge.main, Merge.mergeDatasets_read.
    destruct Hp as [<-|[<-|[<-|[<-|[]]]]]; rewrite Hnull;
      repeat match goal with
             | |- context [Merge.readJsonSafe ?a ?b ?c] =>
                 destruct (Merge.readJsonSafe a b c)
             end; reflexivity.
Qed.

(** A small parser and a small printer: the parser knows three texts, the
    printer writes the keys of a document. *)
Definition parse_sample (text : string) : option value :=
  if String.eqb text "API" then Some (VObj button_api)
  else if String.eqb text "DOCS" then Some (VObj button_docs)
  else if String.eqb text "LOGIC" then Some (VObj [("card", VObj []); ("button", VObj [])])
  else None.
Definition print_keys (document : list (string * value)) : string :=
  String.concat "," (Object_keys document).
Definition sources_only : Merge.files :=
  fun p => if String.eqb p Merge.DATASETS_api then Some "API"
           else if String.eqb p Merge.DATASETS_docs then Some "DOCS"
           else if String.eqb p Merge.DATASETS_logic then Some "LOGIC"
           else if String.eqb p Merge.DATASETS_tokens then Some "not a document"
           else None.
Definition sources_and_output : Merge.files :=
  fun p => if String.eqb p Merge.OUTPUT_PATH then Some "stale" else sources_only p.

Lemma main_deterministic_witness :
  MergeFacts.written (Merge.main parse_sample print_keys sources_only)
  = MergeFacts.written (Merge.main parse_sample print_keys sources_and_output) /\
  MergeFacts.written (Merge.main parse_sample print_keys sources_only)
  = Returns (Some "button,card").
Proof.
  assert (Hsame : forall p, In p [Merge.DATASETS_api; Merge.DATASETS_docs; Merge.DATASETS_logic;
                                  Merge.DATASETS_tokens] ->
                            sources_only p = sources_and_output p).
  { intros p [<-|[<-|[<-|[<-|[]]]]]; reflexivity. }
  destruct (main_deterministic parse_sample print_keys sources_only sources_and_output Hsame)
    as [Hagree [_ [Hpin _]]].
  split; [exact Hagree|].
  destruct (Hpin button_api button_docs [("card", VObj []); ("button", VObj [])] [])
    as [merged [Hw [Hk _]]];
    [reflexivity | reflexivity | reflexivity | reflexivity | | | | |
     rewrite Hw; unfold print_keys; rewrite Hk; reflexivity].
  - apply button_documents.
  - apply button_documents.
  - intros k v. cbn [obj_get].
    destruct (String.eqb "card" k); [intros H; injection H as <-; exists []; split;
                                     [reflexivity | constructor]|].
    destruct (String.eqb "button" k); [|discriminate].
    intros H; injection H as <-; exists []; split; [reflexivity | constructor].
  - intros k [<-|[<-|[<-|[<-|[]]]]]; repeat split; try discriminate;
      simpl; intuition discriminate.
Defined.

(** ** The query API and the tool server *)

Module QueryFacts.
Import JS Dataset QueryAPI ObjectFacts.

(** The components that a response enumerates *)
Definition hit_component (h : hit) : list string :=
  match h with
  | ComponentHit n _ _ _ => [n]
  | TokenHit _ _ => []
  end.

Definition component_names (out : response) : list string :=
  match out with
  | Components result => map name result
  | Search result => flat_map hit_component (results result)
  | _ => []
  end.

(** The results of a tool call; a call that throws has none. *)
Definition found {A : Type} (r : option (list A)) : list A :=
  match r with
  | Some l => l
  | None => []
  end.

(** The data model of a component record: an object whose [props], when
    present, is an object and whose [examples], when present, is an
    array. *)
Definition ComponentRecord (v : value) : Prop :=
  exists fields,
    v = VObj fields /\
    (forall p, obj_get "props" fields = Some p -> exists m, p = VObj m) /\
    (forall e, obj_get "examples" fields = Some e -> exists l, e = VArr l).

Definition conforms (data : list (string * value)) : Prop :=
  forall k v, k <> "_tokens" -> obj_get k data = Some v -> ComponentRecord v.

(** A summary flag pair that reflects the record of its component *)
Definition flags_reflect (data : list (string * value)) (key : string) (props examples : bool)
    : Prop :=
  exists component,
    obj_get key data = Some component /\
    (props = true <-> get_prop component "props" <> None) /\
    (examples = true <->
     exists l, get_prop component "examples" = Some (VArr l) /\ l <> []).

Lemma filter_throwing_incl {A : Type} (f : A -> option bool) (l r : list A) :
  filter_throwing f l = Some r -> incl r l.
Proof.
  revert r. induction l as [|x l IH]; simpl; intros r H.
  - injection H as <-. apply incl_refl.
  - destruct (f x) as [b|]; [|discriminate].
    destruct (filter_throwing f l) as [r'|]; [|discriminate].
    injection H as <-. specialize (IH r' eq_refl).
    destruct b; [apply incl_cons; [left; reflexivity | apply incl_tl, IH] | apply incl_tl, IH].
Qed.

Lemma is_component_key_spec key : is_component_key key = true <-> key <> "_tokens".
Proof.
  unfold is_component_key. destruct (String.eqb_spec key "_tokens"); simpl; split; congruence.
Qed.

Lemma In_component_keys key (data : list (string * value)) :
  In key (List.filter is_component_key (Object_keys data)) <->
  In key (Object_keys data) /\ key <> "_tokens".
Proof. rewrite filter_In, is_component_key_spec. reflexivity. Qed.

(** The keys that [compute_components] summarizes *)
Lemma compute_components_keys data q result :
  compute_components data q = Some result ->
  exists keys,
    result = map (summarize data) keys /\
    incl keys (List.filter is_component_key (Object_keys data)).
Proof.
  unfold compute_components. intros H.
  destruct (given q) as [q'|].
  - destruct (filter_throwing _ _) as [keys|] eqn:E; [|discriminate].
    injection H as <-. exists keys. split; [reflexivity|].
    eapply filter_throwing_incl, E.
  - injection H as <-. eexists. split; [reflexivity | apply incl_refl].
Qed.

Lemma searchComponents_keys data query result :
  ToolServer.searchComponents data query = Some result ->
  exists keys,
    map ToolServer.name result = keys /\
    incl keys (List.filter is_component_key (Object_keys data)) /\
    forall c, In c result ->
      ToolServer.hasProps c = has_props (obj_get (ToolServer.name c) data) /\
      ToolServer.hasExamples c = has_examples (obj_get (ToolServer.name c) data).
Proof.
  unfold ToolServer.searchComponents. intros H.
  destruct (filter_throwing _ _) as [keys|] eqn:E; [|discriminate].
  injection H as <-. exists keys. split; [|split].
  - rewrite map_map. simpl. apply map_id.
  - eapply filter_throwing_incl, E.
  - intros c Hc. apply in_map_iff in Hc. destruct Hc as [key [<- _]]. simpl. auto.
Qed.

Lemma component_hits_names term es hits :
  component_hits term es = Some hits ->
  Forall (fun n => n <> "_tokens") (flat_map hit_component hits).
Proof.
  revert hits. induction es as [|[key component] es IH]; simpl; intros hits H.
  - injection H as <-. constructor.
  - destruct (String.eqb_spec key "_tokens") as [->|Hne]; [auto|].
    destruct (component_matches term key component) as [matches|]; [|discriminate].
    destruct (component_hits term es) as [hits'|]; [|discriminate].
    injection H as <-. specialize (IH hits' eq_refl).
    destruct matches; [assumption|]. simpl. constructor; assumption.
Qed.

Lemma token_hits_names data term : flat_map hit_component (token_hits data term) = [].
Proof.
  unfold token_hits. destruct (truthy_opt _); [|reflexivity].
  induction (List.filter _ _) as [|kv l IH]; simpl; [reflexivity | assumption].
Qed.

Lemma compute_search_names data q result :
  compute_search data q = Some result ->
  Forall (fun n => n <> "_tokens") (flat_map hit_component (results result)).
Proof.
  unfold compute_search. intros H.
  destruct (component_hits _ data) as [hits|] eqn:E; [|discriminate].
  injection H as <-. simpl.
  rewrite flat_map_app, token_hits_names, app_nil_r.
  eapply component_hits_names, E.
Qed.

(** *** What the memoization keeps: every cached entry and every result
    returned has a property that every computed result has. *)

Lemma getCachedOrCompute_keeps {T : Type} (P : T -> Prop)
    (cacheMap : gmap string T) (ts : gmap string Z) now key computeFn r m' ts' :
  map_Forall (fun _ => P) cacheMap ->
  (forall x, computeFn = Some x -> P x) ->
  getCachedOrCompute cacheMap ts now key computeFn = Some (r, m', ts') ->
  P r /\ map_Forall (fun _ => P) m'.
Proof.
  intros Hm Hf. unfold getCachedOrCompute.
  destruct (cacheMap !! key) as [cached|] eqn:E.
  - destruct (isCacheValid ts now key).
    + intros H. injection H as <- <- <-. split; [|assumption].
      eapply (map_Forall_lookup_1 _ _ _ _ Hm), E.
    + destruct computeFn as [x|]; [|discriminate].
      intros H. injection H as <- <- <-. split; [auto|].
      apply map_Forall_insert_2; auto.
  - destruct computeFn as [x|]; [|discriminate].
    intros H. injection H as <- <- <-. split; [auto|].
    apply map_Forall_insert_2; auto.
Qed.

Section Invariant.
Variable data : list (string * value).
Variable P : list summary -> Prop.
Variable S : search_result -> Prop.
Hypothesis computed_P : forall q r, compute_components data q = Some r -> P r.
Hypothesis computed_S : forall q r, compute_search data q = Some r -> S r.

Definition kept (c : cache) : Prop :=
  map_Forall (fun _ => P) (components c) /\ map_Forall (fun _ => S) (search c).

Definition answers (out : response) : Prop :=
  match out with
  | Components r => P r
  | Search r => S r
  | _ => True
  end.

Lemma kept_empty : kept empty_cache.
Proof. split; apply map_Forall_empty. Qed.

Lemma get_component_answers name section : answers (get_component data name section).
Proof.
  unfold get_component, component_not_found, section_not_found.
  destruct (js_or _ _) as [comp|]; [|exact I].
  destruct (truthy comp); [|exact I].
  destruct (given section); [|exact I].
  destruct (get_member _ _) as [part| | |]; [destruct (truthy part)| | |]; exact I.
Qed.

Lemma handle_keeps now c r :
  kept c -> kept (fst (handle data now c r)) /\ answers (snd (handle data now c r)).
Proof.
  intros [Hc Hs]. destruct r as [q|name section|q|q|]; simpl.
  - unfold get_components.
    destruct (getCachedOrCompute _ _ _ _ _) as [[[r m] ts]|] eqn:E; simpl.
    + destruct (getCachedOrCompute_keeps P _ _ _ _ _ _ _ _ Hc (computed_P q) E).
      repeat split; assumption.
    + repeat split; assumption.
  - split; [split; assumption | apply get_component_answers].
  - unfold get_tokens.
    destruct (getCachedOrCompute _ _ _ _ _) as [[[r m] ts]|]; simpl; repeat split; assumption.
  - unfold get_search.
    destruct (getCachedOrCompute _ _ _ _ _) as [[[r m] ts]|] eqn:E; simpl.
    + destruct (getCachedOrCompute_keeps S _ _ _ _ _ _ _ _ Hs (computed_S q) E).
      repeat split; assumption.
    + repeat split; assumption.
  - split; [apply kept_empty | exact I].
Qed.

Lemma serve_keeps rs : forall c,
  kept c -> kept (fst (serve data c rs)) /\ Forall answers (snd (serve data c rs)).
Proof.
  induction rs as [|[now r] rs IH]; intros c Hc; simpl.
  - split; [assumption | constructor].
  - destruct (handle_keeps now c r Hc) as [Hc' Hout].
    destruct (handle data now c r) as [c' out]. simpl in *.
    destruct (IH c' Hc') as [Hc'' Houts].
    destruct (serve data c' rs) as [c'' outs]. simpl in *.
    split; [assumption | constructor; assumption].
Qed.
End Invariant.

End QueryFacts.

Import Dataset.

(** C2: the reserved key [_tokens] is no component of any enumeration.
    Whatever requests the query API has served, and at whatever times, no
    response to [GET /mcp/components] or [GET /mcp/search] names it as a
    component, be the response computed or taken from the cache; the tools
    [search_components] and [list_components] do not list it either. *)
Theorem reserved_key_never_enumerated (data : list (string * value)) :
  (forall rs,
     Forall (fun out => Forall (fun n => n <> "_tokens") (QueryFacts.component_names out))
       (snd (QueryAPI.serve data QueryAPI.empty_cache rs))) /\
  (forall query,
     Forall (fun c => ToolServer.name c <> "_tokens")
       (QueryFacts.found (ToolServer.search_components data query))) /\
  Forall (fun e => fst (fst e) <> "_tokens")
    (ToolServer.listed (ToolServer.listComponents data)).
Proof.
  split; [|split].
  - intros rs.
    destruct (QueryFacts.serve_keeps data
                (fun r => Forall (fun n => n <> "_tokens") (map QueryAPI.name r))
                (fun r => Forall (fun n => n <> "_tokens")
                            (flat_map QueryFacts.hit_component (QueryAPI.results r))))
      with (rs := rs) (c := QueryAPI.empty_cache) as [_ H].
    + intros q r Hr. destruct (QueryFacts.compute_components_keys data q r Hr) as [keys [-> Hk]].
      rewrite map_map. simpl. rewrite map_id. apply List.Forall_forall. intros key Hin.
      apply Hk, QueryFacts.In_component_keys in Hin. tauto.
    + intros q r Hr. eapply QueryFacts.compute_search_names, Hr.
    + apply QueryFacts.kept_empty.
    + eapply List.Forall_impl; [|exact H]. intros out Hout. destruct out; simpl; auto.
  - intros query. unfold ToolServer.search_components.
    destruct (ToolServer.searchComponents data _) as [result|] eqn:E; simpl; [|constructor].
    destruct (QueryFacts.searchComponents_keys data _ result E) as [keys [Hn [Hk _]]].
    apply List.Forall_forall. intros c Hc.
    assert (Hin : In (ToolServer.name c) keys) by (rewrite <- Hn; apply in_map; assumption).
    apply Hk, QueryFacts.In_component_keys in Hin. tauto.
  - unfold ToolServer.listComponents. simpl. apply List.Forall_forall. intros e He.
    apply in_map_iff in He. destruct He as [key [<- Hin]]. simpl.
    apply QueryFacts.In_component_keys in Hin. tauto.
Qed.

Definition case_dataset : list (string * value) :=
  [("Button", VObj [("title", VStr "exact")]); ("button", VObj [("title", VStr "lowercased")])].

(** C3, as stated, fails: with the keys [Button] and [button] both in the
    dataset, a request for [Button] is answered with the record of
    [button]. *)
Lemma get_component_prefers_lowercased :
  obj_get "Button" case_dataset = Some (VObj [("title", VStr "exact")]) /\
  QueryAPI.get_component case_dataset "Button" None
  = QueryAPI.Value (VObj [("title", VStr "lowercased")]) /\
  ToolServer.getComponent case_dataset "Button"
  = ToolServer.Returned (VObj [("title", VStr "lowercased")]).
Proof. repeat split. Qed.

(** C3 (amended): [GET /mcp/component/:name] and [get_component] look the
    component up under the lowercased name first and only then under the
    name as given. A record under the lowercased name is the one returned,
    even when another key equals the name as given; the record under the
    name as given is returned when the read under the lowercased name
    finds nothing truthy, neither a key of the dataset nor a property that
    the dataset inherits from [Object.prototype]. *)
Theorem get_component_lookup_order (data : list (string * value)) (name : string)
    (comp : value) :
  truthy comp = true ->
  (obj_get (toLowerCase name) data = Some comp ->
   QueryAPI.get_component data name None = QueryAPI.Value comp /\
   ToolServer.getComponent data name = ToolServer.Returned comp) /\
  (truthy_opt (obj_get (toLowerCase name) data) = false ->
   ~ In (toLowerCase name) Object_prototype ->
   obj_get name data = Some comp ->
   QueryAPI.get_component data name None = QueryAPI.Value comp /\
   ToolServer.getComponent data name = ToolServer.Returned comp).
Proof.
  intros Ht. unfold QueryAPI.get_component, ToolServer.getComponent, js_or. split.
  - intros H. rewrite (ObjectFacts.obj_read_get _ _ _ H). simpl. rewrite Ht. simpl.
    rewrite Ht. auto.
  - intros Hlow Hproto H.
    rewrite (ObjectFacts.obj_read_own _ data (ObjectFacts.inherited_false _ Hproto)), Hlow.
    rewrite (ObjectFacts.obj_read_get _ _ _ H), Ht. auto.
Qed.

Definition capital_dataset : list (string * value) :=
  [("Button", VObj [("title", VStr "exact")])].

Lemma get_component_lookup_order_witness :
  (QueryAPI.get_component case_dataset "Button" None
   = QueryAPI.Value (VObj [("title", VStr "lowercased")]) /\
   ToolServer.getComponent case_dataset "Button"
   = ToolServer.Returned (VObj [("title", VStr "lowercased")])) /\
  (QueryAPI.get_component capital_dataset "Button" None
   = QueryAPI.Value (VObj [("title", VStr "exact")]) /\
   ToolServer.getComponent capital_dataset "Button"
   = ToolServer.Returned (VObj [("title", VStr "exact")])).
Proof.
  split.
  - exact (proj1 (get_component_lookup_order case_dataset "Button"
                    (VObj [("title", VStr "lowercased")]) eq_refl) eq_refl).
  - apply (proj2 (get_component_lookup_order capital_dataset "Button"
                    (VObj [("title", VStr "exact")]) eq_refl)).
    + reflexivity.
    + simpl. intuition discriminate.
    + reflexivity.
Defined.

(** C6 fails on the code for the names that every object inherits. The
    handler reads the dataset under the name of the request without asking
    whether the dataset has a key of that name: a name that is no key of
    the dataset, neither as given nor lowercased, but that is, as given or
    lowercased, a property name of [Object.prototype] ([constructor],
    [toString], [__proto__], ...) is answered with status 200 and that
    property, and the tool [get_component] returns it. Every other name
    that is no key is answered with status 404 and the list of all the
    keys of the dataset except [_tokens], whatever the section asked
    for. *)
Theorem unknown_name_found_in_prototype (data : list (string * value)) (name : string) :
  ~ In name (Object_keys data) ->
  ~ In (toLowerCase name) (Object_keys data) ->
  (In name Object_prototype \/ In (toLowerCase name) Object_prototype ->
   exists property,
     In property Object_prototype /\
     QueryAPI.get_component data name None = QueryAPI.Value (VNative property) /\
     QueryAPI.status (QueryAPI.get_component data name None) = 200 /\
     ToolServer.getComponent data name = ToolServer.Returned (VNative property)) /\
  (~ In name Object_prototype -> ~ In (toLowerCase name) Object_prototype ->
   forall section,
   exists error available,
     QueryAPI.get_component data name section = QueryAPI.NotFound error available /\
     QueryAPI.status (QueryAPI.get_component data name section) = 404 /\
     available = List.filter is_component_key (Object_keys data) /\
     forall key, In key available <-> In key (Object_keys data) /\ key <> "_tokens").
Proof.
  intros Hname Hlower. unfold QueryAPI.get_component, ToolServer.getComponent, js_or. split.
  - intros Hproto.
    destruct (inherited (toLowerCase name)) eqn:El.
    + exists (toLowerCase name). rewrite (ObjectFacts.obj_read_inherited _ _ Hlower El).
      split; [|auto]. unfold inherited in El. apply existsb_exists in El.
      destruct El as [x [Hx Heq]]. apply String.eqb_eq in Heq. subst. assumption.
    + assert (Hn : In name Object_prototype).
      { destruct Hproto as [H|H]; [assumption|].
        apply ObjectFacts.inherited_true in H. congruence. }
      exists name. rewrite (ObjectFacts.obj_read_own _ data El).
      rewrite (ObjectFacts.obj_get_None _ _ Hlower).
      rewrite (ObjectFacts.obj_read_inherited _ _ Hname (ObjectFacts.inherited_true _ Hn)).
      auto.
  - intros Hn Hl section.
    rewrite (ObjectFacts.obj_read_own _ data (ObjectFacts.inherited_false _ Hl)).
    rewrite (ObjectFacts.obj_read_own _ data (ObjectFacts.inherited_false _ Hn)).
    rewrite (ObjectFacts.obj_get_None _ _ Hname), (ObjectFacts.obj_get_None _ _ Hlower).
    simpl. unfold QueryAPI.component_not_found.
    eexists. eexists. split; [reflexivity|]. split; [reflexivity|]. split; [reflexivity|].
    intros key. apply QueryFacts.In_component_keys.
Qed.

Definition small_dataset : list (string * value) :=
  [("button", VObj [("title", VStr "Button");
                    ("props", VObj [("label", VStr "string")]);
                    ("examples", VArr [VStr "<Button />"])]);
   ("card", VObj [("examples", VArr [])]);
   ("_tokens", VObj [("--p-a", VStr "dt('a')")])].

Lemma unknown_name_found_in_prototype_witness :
  (exists property,
     QueryAPI.get_component small_dataset "constructor" None
     = QueryAPI.Value (VNative property) /\
     QueryAPI.status (QueryAPI.get_component small_dataset "constructor" None) = 200) /\
  exists error available,
    QueryAPI.get_component small_dataset "Tabs" None = QueryAPI.NotFound error available /\
    available = List.filter is_component_key (Object_keys small_dataset).
Proof.
  assert (Hc : ~ In "constructor" (Object_keys small_dataset))
    by (simpl; intuition discriminate).
  assert (Ht : ~ In "Tabs" (Object_keys small_dataset)) by (simpl; intuition discriminate).
  assert (Hl : ~ In "tabs" (Object_keys small_dataset)) by (simpl; intuition discriminate).
  assert (Hp : ~ In "Tabs" Object_prototype) by (simpl; intuition discriminate).
  assert (Hq : ~ In "tabs" Object_prototype) by (simpl; intuition discriminate).
  split.
  - destruct (proj1 (unknown_name_found_in_prototype small_dataset "constructor" Hc Hc))
      as [property [_ [H [Hs _]]]].
    + left. simpl. tauto.
    + exists property. split; assumption.
  - destruct (proj2 (unknown_name_found_in_prototype small_dataset "Tabs" Ht Hl) Hp Hq None)
      as [error [available [H [_ [Ha _]]]]].
    exists error, available. split; assumption.
Defined.

Lemma flags_of_record (data : list (string * value)) (key : string) :
  QueryFacts.conforms data ->
  In key (List.filter is_component_key (Object_keys data)) ->
  QueryFacts.flags_reflect data key
    (has_props (obj_get key data)) (has_examples (obj_get key data)).
Proof.
  intros Hdata Hkey. apply QueryFacts.In_component_keys in Hkey. destruct Hkey as [Hin Hne].
  destruct (ObjectFacts.In_keys_obj_get key data Hin) as [component Hc].
  destruct (Hdata key component Hne Hc) as [fields [-> [Hprops Hexamples]]].
  exists (VObj fields). rewrite Hc. split; [reflexivity|].
  unfold has_props, has_examples. cbn [get_opt get_prop]. split.
  - destruct (obj_get "props" fields) as [p|] eqn:Ep.
    + destruct (Hprops p eq_refl) as [m ->]. cbn. split; [discriminate | reflexivity].
    + cbn. split; [discriminate | congruence].
  - destruct (obj_get "examples" fields) as [e|] eqn:Ee.
    + destruct (Hexamples e eq_refl) as [l ->]. cbn. destruct l as [|x l]; cbn.
      * split; [discriminate | intros [l' [H Hl']]; congruence].
      * split; [intros _; exists (x :: l); split; [reflexivity | discriminate] | reflexivity].
    + cbn. split; [discriminate | intros [l [H _]]; discriminate].
Qed.

(** C8: over a dataset whose component records follow the data model,
    every summary in a response to [GET /mcp/components], computed or
    cached, has [hasProps] true exactly when the record of its component
    has a [props] field and [hasExamples] true exactly when the record has
    an [examples] field that is not empty; so has every summary that the
    tool [search_components] returns. *)
Theorem summary_flags_reflect_record (data : list (string * value)) :
  QueryFacts.conforms data ->
  (forall rs,
     Forall (fun out =>
               match out with
               | QueryAPI.Components result =>
                   forall s, In s result ->
                     QueryFacts.flags_reflect data (QueryAPI.name s)
                       (QueryAPI.hasProps s) (QueryAPI.hasExamples s)
               | _ => True
               end)
       (snd (QueryAPI.serve data QueryAPI.empty_cache rs))) /\
  (forall query c,
     In c (QueryFacts.found (ToolServer.searchComponents data query)) ->
     QueryFacts.flags_reflect data (ToolServer.name c)
       (ToolServer.hasProps c) (ToolServer.hasExamples c)).
Proof.
  intros Hdata. split.
  - intros rs.
    destruct (QueryFacts.serve_keeps data
                (fun r => forall s, In s r ->
                            QueryFacts.flags_reflect data (QueryAPI.name s)
                              (QueryAPI.hasProps s) (QueryAPI.hasExamples s))
                (fun _ => True))
      with (rs := rs) (c := QueryAPI.empty_cache) as [_ H].
    + intros q r Hr s Hs.
      destruct (QueryFacts.compute_components_keys data q r Hr) as [keys [-> Hk]].
      apply in_map_iff in Hs. destruct Hs as [key [<- Hkey]]. simpl.
      apply flags_of_record; auto.
    + auto.
    + apply QueryFacts.kept_empty.
    + eapply List.Forall_impl; [|exact H]. intros out Hout. destruct out; simpl; auto.
  - intros query c Hc.
    destruct (ToolServer.searchComponents data query) as [result|] eqn:E; [|contradiction].
    destruct (QueryFacts.searchComponents_keys data query result E) as [keys [Hn [Hk Hflags]]].
    simpl in Hc. destruct (Hflags c Hc) as [-> ->].
    apply flags_of_record; [assumption|]. apply Hk. rewrite <- Hn. apply in_map. assumption.
Qed.

Lemma small_dataset_conforms : QueryFacts.conforms small_dataset.
Proof.
  intros k v Hk. unfold small_dataset. cbn [obj_get].
  destruct (String.eqb "button" k); [|destruct (String.eqb "card" k);
                                      [|destruct (String.eqb_spec "_tokens" k);
                                        [congruence | discriminate]]];
    intros H; injection H as <-; eexists; (split; [reflexivity|]);
    split; intros x Hx; vm_compute in Hx; try discriminate;
    injection Hx as <-; eexists; reflexivity.
Qed.

Lemma summary_flags_reflect_record_witness :
  Forall (fun out =>
            match out with
            | QueryAPI.Components result =>
                forall s, In s result ->
                  QueryFacts.flags_reflect small_dataset (QueryAPI.name s)
                    (QueryAPI.hasProps s) (QueryAPI.hasExamples s)
            | _ => True
            end)
    (snd (QueryAPI.serve small_dataset QueryAPI.empty_cache
            [(1000%Z, QueryAPI.GET_components None);
             (2000%Z, QueryAPI.GET_components (Some "card"))])).
Proof.
  apply (proj1 (summary_flags_reflect_record small_dataset small_dataset_conforms)).
Defined.

(** ** The memoization of the search endpoint

    The key of the search cache determines the query, and the endpoint
    answers every request with the value of its compute function. *)

Module CacheFacts.
Import JS QueryAPI.

Lemma search_key_inj q q' : search_key q = search_key q' -> q = q'.
Proof. unfold search_key. simpl. intros H. injection H. auto. Qed.

Definition search_sound (data : list (string * value)) (c : cache) : Prop :=
  forall q r, search c !! search_key q = Some r -> compute_search data q = Some r.

Definition search_answer (data : list (string * value)) (q : string) : response :=
  match compute_search data q with
  | Some r => Search r
  | None => InternalError
  end.

Lemma search_sound_insert data c q r ts :
  search_sound data c -> compute_search data q = Some r ->
  search_sound data
    {| components := components c; tokens_cache := tokens_cache c;
       search := <[search_key q := r]> (search c); timestamps := ts |}.
Proof.
  intros Hc Hr q0 r0. simpl.
  destruct (decide (search_key q = search_key q0)) as [Heq|Hne].
  - rewrite Heq, lookup_insert_eq. apply search_key_inj in Heq. subst q0.
    intros H. injection H as <-. assumption.
  - rewrite lookup_insert_ne by assumption. apply Hc.
Qed.

Lemma get_search_transparent data now c q :
  search_sound data c ->
  snd (get_search data now c q) = search_answer data q /\
  search_sound data (fst (get_search data now c q)).
Proof.
  intros Hc. unfold get_search, getCachedOrCompute, search_answer.
  destruct (search c !! search_key q) as [cached|] eqn:E.
  - rewrite (Hc q cached E).
    destruct (isCacheValid (timestamps c) now (search_key q)); simpl.
    + split; [reflexivity|]. intros q0 r0. simpl. apply Hc.
    + split; [reflexivity|]. apply search_sound_insert; auto.
  - destruct (compute_search data q) as [r|] eqn:Er; simpl.
    + split; [reflexivity|]. apply search_sound_insert; auto.
    + split; [reflexivity | assumption].
Qed.

Lemma handle_search_sound data now c req :
  search_sound data c -> search_sound data (fst (handle data now c req)).
Proof.
  intros Hc. destruct req as [q|name section|q|q|]; simpl.
  - unfold get_components.
    destruct (getCachedOrCompute _ _ _ _ _) as [[[r m] ts]|]; simpl; [|assumption].
    intros q0 r0. simpl. apply Hc.
  - assumption.
  - unfold get_tokens.
    destruct (getCachedOrCompute _ _ _ _ _) as [[[r m] ts]|]; simpl; [|assumption].
    intros q0 r0. simpl. apply Hc.
  - apply get_search_transparent, Hc.
  - intros q0 r0. simpl. rewrite lookup_empty. discriminate.
Qed.

(** Whatever was served before, a search is answered with the value of
    [compute_search] for its query. *)
Lemma serve_search_transparent data rs : forall c,
  search_sound data c ->
  Forall2 (fun req out => forall q, snd req = GET_search q -> out = search_answer data q)
    rs (snd (serve data c rs)).
Proof.
  induction rs as [|[now req] rs IH]; intros c Hc; simpl.
  - constructor.
  - assert (Hc' := handle_search_sound data now c req Hc).
    assert (Hout : forall q, req = GET_search q ->
                             snd (handle data now c req) = search_answer data q).
    { intros q ->. simpl. apply get_search_transparent, Hc. }
    destruct (handle data now c req) as [c' out]. simpl in *.
    specialize (IH c' Hc'). destruct (serve data c' rs) as [c'' outs]. simpl in *.
    constructor; assumption.
Qed.

Lemma search_sound_empty data : search_sound data empty_cache.
Proof. intros q r. simpl. rewrite lookup_empty. discriminate. Qed.

End CacheFacts.

Definition one_button : list (string * value) :=
  [("button", VObj [("title", VStr "Button")])].

Definition button_summary : QueryAPI.summary :=
  {| QueryAPI.name := "button";
     QueryAPI.title := Some (VStr "Button");
     QueryAPI.description := None;
     QueryAPI.hasProps := false;
     QueryAPI.hasExamples := false;
     QueryAPI.sections := [] |}.

(** C10 fails on the code. The list without a filter and the list for the
    filter [all] share the cache key [components:all]: after a request
    without [q], a request with [q=all] within the five minutes is answered
    with the whole list, whereas the filter computes the empty list. The
    keys [tokens:all] of [GET /mcp/tokens] collide in the same way; the keys
    of [GET /mcp/search] do not ([CacheFacts.serve_search_transparent]). *)
Theorem components_cache_key_collision :
  snd (QueryAPI.serve one_button QueryAPI.empty_cache
         [(1000%Z, QueryAPI.GET_components None);
          (2000%Z, QueryAPI.GET_components (Some "all"))])
  = [QueryAPI.Components [button_summary]; QueryAPI.Components [button_summary]] /\
  QueryAPI.compute_components one_button (Some "all") = Some [] /\
  QueryAPI.components_key None = QueryAPI.components_key (Some "all") /\
  QueryAPI.tokens_key None = QueryAPI.tokens_key (Some "all").
Proof. vm_compute. repeat split. Qed.

(** ** Strings and regular expressions *)

Module StringFacts.
Import JS.

Lemma app_assoc (a b c : string) : (a ++ b) ++ c = a ++ (b ++ c).
Proof. induction a as [|x a IH]; simpl; [reflexivity | rewrite IH; reflexivity]. Qed.

Lemma app_nil_r (a : string) : a ++ "" = a.
Proof. induction a as [|x a IH]; simpl; [reflexivity | rewrite IH; reflexivity]. Qed.

Lemma length_app (a b : string) :
  String.length (a ++ b) = (String.length a + String.length b)%nat.
Proof. induction a as [|x a IH]; simpl; [reflexivity | rewrite IH; reflexivity]. Qed.

Lemma substring_app (a b : string) : String.substring 0 (String.length a) (a ++ b) = a.
Proof.
  induction a as [|x a IH]; simpl.
  - destruct b; reflexivity.
  - rewrite IH. reflexivity.
Qed.

Lemma substring_skip (a s : string) (m : nat) :
  String.substring (String.length a) m (a ++ s) = String.substring 0 m s.
Proof. induction a as [|x a IH]; simpl; [reflexivity | apply IH]. Qed.

(** Every character of a string satisfies a test. *)
Fixpoint every (p : ascii -> bool) (s : string) : bool :=
  match s with
  | EmptyString => true
  | String c s' => p c && every p s'
  end.

Lemma every_app p a b : every p (a ++ b) = every p a && every p b.
Proof.
  induction a as [|x a IH]; simpl; [reflexivity|].
  rewrite IH. apply andb_assoc.
Qed.

Lemma consumed_app (a b : string) : RegExp.consumed (a ++ b) b = a.
Proof.
  unfold RegExp.consumed. rewrite length_app.
  replace (String.length a + String.length b - String.length b)%nat
    with (String.length a) by lia.
  apply substring_app.
Qed.

End StringFacts.

Module RegExpFacts.
Import JS RegExp StringFacts.

(** The character before the position that follows a literal *)
Fixpoint last_char (l : string) (prev : option ascii) : option ascii :=
  match l with
  | EmptyString => prev
  | String c l' => last_char l' (Some c)
  end.

Lemma lit_app l prev s : lit l prev (l ++ s) = Some (last_char l prev, s).
Proof.
  revert prev. induction l as [|c l IH]; simpl; intros prev; [reflexivity|].
  rewrite Ascii.eqb_refl. apply IH.
Qed.

Lemma lit_inv l prev s p' s' : lit l prev s = Some (p', s') -> s = l ++ s'.
Proof.
  revert prev s. induction l as [|c l IH]; simpl; intros prev s H.
  - injection H as _ <-. reflexivity.
  - destruct s as [|a s]; [discriminate|].
    destruct (Ascii.eqb_spec a c) as [->|]; [|discriminate].
    rewrite (IH _ _ H). reflexivity.
Qed.

Lemma greedy_sound p prev s k r :
  greedy p prev s k = Some r ->
  exists a b prev', s = a ++ b /\ every p a = true /\ k prev' b = Some r.
Proof.
  revert prev. induction s as [|c s IH]; simpl; intros prev H.
  - exists "", "", prev. auto.
  - destruct (p c) eqn:Hc.
    + destruct (greedy p (Some c) s k) as [r'|] eqn:E.
      * injection H as <-. destruct (IH _ E) as [a [b [prev' [-> [Ha Hk]]]]].
        exists (String c a), b, prev'. simpl. rewrite Hc, Ha. auto.
      * exists "", (String c s), prev. auto.
    + exists "", (String c s), prev. auto.
Qed.

(** A greedy loop over a maximal run, when the continuation fails inside
    the run, stops at the end of the run. *)
Lemma greedy_run p prev a b k :
  every p a = true ->
  match first_char b with Some c => p c = false | None => True end ->
  (forall a1 a2 prev', a = a1 ++ a2 -> a2 <> "" -> k prev' (a2 ++ b) = None) ->
  greedy p prev (a ++ b) k = k (last_char a prev) b.
Proof.
  revert prev. induction a as [|c a IH]; simpl; intros prev Ha Hb Hk.
  - destruct b as [|c b]; simpl in *; [reflexivity | rewrite Hb; reflexivity].
  - apply andb_prop in Ha. destruct Ha as [Hc Ha]. rewrite Hc.
    rewrite IH; [|assumption|assumption|].
    + assert (Hn : k prev (String c (a ++ b)) = None)
        by (apply (Hk "" (String c a) prev); [reflexivity | discriminate]).
      rewrite Hn. destruct (k (last_char a (Some c)) b); reflexivity.
    + intros a1 a2 prev' -> Hne. apply (Hk (String c a1) a2 prev'); [reflexivity | assumption].
Qed.

Lemma reluctant_sound p prev s k r :
  reluctant p prev s k = Some r ->
  exists a b prev', s = a ++ b /\ every p a = true /\ k prev' b = Some r.
Proof.
  revert prev. induction s as [|c s IH]; simpl; intros prev H.
  - destruct (k prev "") eqn:E; [|discriminate].
    injection H as <-. exists "", "", prev. auto.
  - destruct (k prev (String c s)) eqn:E.
    + injection H as <-. exists "", (String c s), prev. auto.
    + destruct (p c) eqn:Hc; [|discriminate].
      destruct (IH _ H) as [a [b [prev' [-> [Ha Hk]]]]].
      exists (String c a), b, prev'. simpl. rewrite Hc, Ha. auto.
Qed.

(** A reluctant loop stops at the first position where the continuation
    succeeds. *)
Lemma reluctant_first p prev a b k r :
  every p a = true ->
  (forall a1 a2 prev', a = a1 ++ a2 -> a2 <> "" -> k prev' (a2 ++ b) = None) ->
  k (last_char a prev) b = Some r ->
  reluctant p prev (a ++ b) k = Some r.
Proof.
  revert prev. induction a as [|c a IH]; intros prev Ha Hk Hr.
  - simpl in *. destruct b; simpl; rewrite Hr; reflexivity.
  - simpl in Ha. apply andb_prop in Ha. destruct Ha as [Hc Ha].
    change (String c a ++ b) with (String c (a ++ b)). cbn [reluctant].
    change (String c (a ++ b)) with (String c a ++ b).
    rewrite (Hk "" (String c a) prev eq_refl) by discriminate.
    rewrite Hc. apply IH; [assumption| |assumption].
    intros a1 a2 prev' -> Hne. apply (Hk (String c a1) a2 prev'); [reflexivity | assumption].
Qed.

(** Every match of a global search is a match at some position. *)
Lemma scan_matches r m : forall s prev skip,
  In m (scan r prev s skip) -> exists prev' s' g, match_at r prev' s' = Some (m, g).
Proof.
  induction s as [|c s IH]; simpl; intros prev skip H.
  - destruct skip; [|contradiction].
    destruct (match_at r prev "") as [[m' g]|] eqn:E; [|contradiction].
    destruct H as [<-|[]]. eauto.
  - destruct skip as [|n]; [|eauto].
    destruct (match_at r prev (String c s)) as [[m' g]|] eqn:E; [|eauto].
    destruct H as [<-|H]; eauto.
Qed.

(** A match at the head of the subject is the leftmost match. *)
Lemma search_head r prev s m : match_at r prev s = Some m -> search r prev s = Some m.
Proof. intros H. destruct s; cbn [search]; rewrite H; reflexivity. Qed.

End RegExpFacts.

(** ** The token extractor *)

Module TokenFacts.
Import JS RegExp StringFacts RegExpFacts ExtractTokens ObjectFacts.

#[local] Arguments tokenKey : simpl never.
#[local] Arguments placeholder : simpl never.

Definition is_quote : ascii -> bool := any_of ExtractLogic.quotes.
Definition not_quote : ascii -> bool := none_of ExtractLogic.quotes.

(** The text of a call of [dt] on a quoted path *)
Definition call (q1 : ascii) (path : string) (q2 : ascii) : string :=
  "dt(" ++ String q1 (path ++ String q2 ")").

Definition dt_call (m path : string) : Prop :=
  exists q1 q2,
    is_quote q1 = true /\ is_quote q2 = true /\
    path <> "" /\ every not_quote path = true /\
    m = call q1 path q2.

(** The path of a call: the text between the opening [dt(] and quote and
    the closing quote and parenthesis. *)
Definition call_path (m : string) : string :=
  String.substring 4 (String.length m - 6) m.

Lemma call_path_call q1 path q2 : call_path (call q1 path q2) = path.
Proof.
  unfold call_path, call. simpl. rewrite length_app. simpl.
  replace (String.length path + 2 - 2)%nat with (String.length path) by lia.
  apply substring_app.
Qed.

Lemma dt_call_path m path : dt_call m path -> call_path m = path.
Proof. intros [q1 [q2 [_ [_ [_ [_ ->]]]]]]. apply call_path_call. Qed.

Lemma call_app q1 path q2 rest :
  call q1 path q2 ++ rest = "dt(" ++ String q1 (path ++ String q2 (")" ++ rest)).
Proof. unfold call. simpl. rewrite app_assoc. reflexivity. Qed.

Lemma quote_exclusive c : is_quote c = true -> not_quote c = false.
Proof. unfold not_quote, none_of, is_quote. intros ->. reflexivity. Qed.

Lemma not_quote_exclusive c : not_quote c = true -> is_quote c = false.
Proof. unfold not_quote, none_of, is_quote. destruct (any_of _ c); [discriminate | reflexivity]. Qed.

(** A call of [dt] at the head of the subject is matched, and its path
    captured. *)
Lemma match_at_call prev q1 path q2 rest :
  is_quote q1 = true -> is_quote q2 = true ->
  path <> "" -> every not_quote path = true ->
  match_at re_dt prev (call q1 path q2 ++ rest) = Some (call q1 path q2, Some path).
Proof.
  intros Hq1 Hq2 Hne Hpath.
  unfold match_at, re_dt. cbn [sequence exec].
  rewrite call_app at 1. rewrite lit_app.
  fold is_quote not_quote. rewrite Hq1.
  destruct path as [|b path]; [congruence|].
  simpl in Hpath. apply andb_prop in Hpath. destruct Hpath as [Hb Hpath].
  change (String b path ++ String q2 (")" ++ rest))
    with (String b (path ++ String q2 (")" ++ rest))).
  cbv iota. rewrite Hb.
  rewrite greedy_run.
  - rewrite Hq2. change (String ")" rest) with (")" ++ rest). rewrite lit_app.
    change (String b (path ++ String q2 (")" ++ rest)))
      with (String b path ++ String q2 (")" ++ rest)).
    rewrite !consumed_app. reflexivity.
  - assumption.
  - simpl. apply quote_exclusive. assumption.
  - intros a1 a2 prev' -> Hne2. destruct a2 as [|c a2]; [congruence|].
    rewrite every_app in Hpath. apply andb_prop in Hpath. destruct Hpath as [_ Hc].
    simpl in Hc. apply andb_prop in Hc. destruct Hc as [Hc _].
    simpl. rewrite (not_quote_exclusive c Hc). reflexivity.
Qed.

(** Every match of the pattern is a call of [dt], with its path captured. *)
Lemma match_at_dt prev s m g :
  match_at re_dt prev s = Some (m, g) -> exists path, dt_call m path /\ g = Some path.
Proof.
  unfold match_at, re_dt. cbn [sequence exec]. fold is_quote not_quote.
  destruct (lit "dt(" prev s) as [[p1 s1]|] eqn:E; [|discriminate].
  apply lit_inv in E. subst s.
  destruct s1 as [|q1 s2]; [discriminate|].
  destruct (is_quote q1) eqn:Hq1; [|discriminate].
  destruct s2 as [|b s3]; [discriminate|].
  destruct (not_quote b) eqn:Hb; [|discriminate].
  destruct (greedy _ _ _ _) as [[s5 g']|] eqn:G; [|discriminate].
  intros H. injection H as <- <-.
  apply greedy_sound in G. destruct G as [a [tail [prev' [-> [Ha G]]]]].
  destruct tail as [|q2 s4]; [discriminate|].
  destruct (is_quote q2) eqn:Hq2; [|discriminate].
  destruct (lit ")" (Some q2) s4) as [[p5 s5']|] eqn:E; [|discriminate].
  apply lit_inv in E. subst s4. injection G as <- <-.
  exists (String b a). split.
  - exists q1, q2. repeat split; try assumption; try discriminate.
    + simpl. rewrite Hb, Ha. reflexivity.
    + transitivity (consumed (call q1 (String b a) q2 ++ s5') s5');
        [rewrite call_app; reflexivity | apply consumed_app].
  - change (String b (a ++ String q2 (String ")" s5')))
      with (String b a ++ String q2 (String ")" s5')).
    rewrite consumed_app. reflexivity.
Qed.

Lemma String_match_call m path : dt_call m path -> String_match re_dt m = Some (m, Some path).
Proof.
  intros [q1 [q2 [Hq1 [Hq2 [Hne [Hpath ->]]]]]].
  unfold String_match.
  assert (H := match_at_call None q1 path q2 "" Hq1 Hq2 Hne Hpath).
  rewrite app_nil_r in H. apply search_head, H.
Qed.

(** *** From the matches to the token map *)

Definition pair_of (path : string) : string * string := (tokenKey path, placeholder path).

(** The matches of one file are calls of [dt]. *)
Lemma matches_are_calls content m :
  In m (String_match_g re_dt content) -> exists path, dt_call m path.
Proof.
  intros H. apply scan_matches in H. destruct H as [prev [s [g H]]].
  apply match_at_dt in H. destruct H as [path [H _]]. eauto.
Qed.

(** A token key is never [__proto__]: the assignments of the extractor
    all create or replace an own property. *)
Lemma tokenKey_own path : tokenKey path <> "__proto__".
Proof. unfold tokenKey. simpl. discriminate. Qed.

Lemma extractTokensFromFile_paths content :
  extractTokensFromFile content =
  Object_spread [] (map pair_of (map call_path (String_match_g re_dt content))).
Proof.
  unfold extractTokensFromFile, Object_spread.
  assert (H := matches_are_calls content).
  generalize dependent (String_match_g re_dt content).
  generalize (@nil (string * string)).
  intros t ms. revert t. induction ms as [|m ms IH]; simpl; intros t H; [reflexivity|].
  destruct (H m (or_introl eq_refl)) as [path Hm].
  rewrite (String_match_call m path Hm), (dt_call_path m path Hm).
  rewrite (obj_set_define _ _ _ (tokenKey_own path)).
  apply IH. intros m' Hm'. apply H. right. assumption.
Qed.

(** The path of the last call that yields the key [k] *)
Definition last_path (k : string) (paths : list string) : option string :=
  find (fun p => String.eqb (tokenKey p) k) (rev paths).

Lemma find_app {A : Type} (f : A -> bool) (l1 l2 : list A) :
  find f (l1 ++ l2) = match find f l1 with Some x => Some x | None => find f l2 end.
Proof.
  induction l1 as [|x l1 IH]; simpl; [reflexivity|]. destruct (f x); [reflexivity | apply IH].
Qed.

Lemma last_path_app k ps1 ps2 :
  last_path k (ps1 ++ ps2) =
  match last_path k ps2 with Some p => Some p | None => last_path k ps1 end.
Proof. unfold last_path. rewrite rev_app_distr. apply find_app. Qed.

Lemma obj_get_pairs k (ps : list string) :
  obj_get k (map pair_of ps) =
  option_map placeholder (find (fun p => String.eqb (tokenKey p) k) ps).
Proof.
  induction ps as [|p ps IH]; [reflexivity|].
  cbn [map pair_of obj_get find].
  destruct (String.eqb (tokenKey p) k); [reflexivity | apply IH].
Qed.

Lemma obj_get_assign_last {V : Type} k (target source : list (string * V)) :
  obj_get k (Object_spread target source) =
  match obj_get k (rev source) with Some v => Some v | None => obj_get k target end.
Proof.
  unfold Object_spread. revert target.
  induction source as [|[k0 v0] source IH]; simpl; intros target; [reflexivity|].
  rewrite IH, obj_get_app, obj_get_set. simpl. rewrite (String.eqb_sym k0 k).
  destruct (obj_get k (rev source)); [reflexivity|].
  destruct (String.eqb k k0); reflexivity.
Qed.

Lemma obj_get_extractTokensFromFile k content :
  obj_get k (extractTokensFromFile content) =
  option_map placeholder (last_path k (map call_path (String_match_g re_dt content))).
Proof.
  rewrite extractTokensFromFile_paths, obj_get_assign_last, <- map_rev, obj_get_pairs.
  unfold last_path. simpl. destruct (find _ _); reflexivity.
Qed.

Lemma NoDup_keys_extractTokensFromFile content :
  List.NoDup (Object_keys (extractTokensFromFile content)).
Proof.
  rewrite extractTokensFromFile_paths. apply NoDup_keys_assign. constructor.
Qed.

Lemma keys_extractTokensFromFile content :
  ~ In "__proto__" (Object_keys (extractTokensFromFile content)).
Proof.
  intros H. apply In_keys_obj_get in H. destruct H as [v Hv].
  rewrite obj_get_extractTokensFromFile in Hv. unfold last_path in Hv.
  destruct (find _ _) as [p|] eqn:E; [|discriminate].
  apply find_some in E. destruct E as [_ E]. apply String.eqb_eq in E.
  exact (tokenKey_own p E).
Qed.

(** The calls of [dt] in the files, in the order in which the files are
    visited and in the order of the text within a file *)
Definition calls (tokenFiles : list (option string)) : list string :=
  flat_map (fun file => match file with
                        | Some content => String_match_g re_dt content
                        | None => []
                        end) tokenFiles.

(** The files that [main] visits, in the order of the visit *)
Definition visited (PRIMEVUE_DIRS : list (option (list entry))) : list (option string) :=
  flat_map findTokenFiles PRIMEVUE_DIRS.

Lemma obj_get_collect k tokenFiles : forall tokens,
  obj_get k (collect tokens tokenFiles) =
  match last_path k (map call_path (calls tokenFiles)) with
  | Some p => Some (placeholder p)
  | None => obj_get k tokens
  end.
Proof.
  unfold collect. induction tokenFiles as [|file files IH]; simpl; intros tokens; [reflexivity|].
  rewrite IH, map_app, last_path_app.
  destruct (last_path k (map call_path (calls files))); [reflexivity|].
  destruct file as [[|c content]|]; try reflexivity.
  rewrite Object_assign_spread by apply keys_extractTokensFromFile.
  rewrite obj_get_assign by apply NoDup_keys_extractTokensFromFile.
  rewrite obj_get_extractTokensFromFile.
  destruct (last_path k _); reflexivity.
Qed.

Lemma main_collect dirs : main dirs = collect [] (visited dirs).
Proof.
  unfold main, visited. generalize (@nil (string * string)).
  induction dirs as [|d dirs IH]; simpl; intros t; [reflexivity|].
  rewrite IH. unfold collect. rewrite fold_left_app. reflexivity.
Qed.

(** The token map holds, under each key, the placeholder of the last call
    that yields the key. *)
Lemma obj_get_main k dirs :
  obj_get k (main dirs) =
  option_map placeholder (last_path k (map call_path (calls (visited dirs)))).
Proof.
  rewrite main_collect, obj_get_collect. destruct (last_path k _); reflexivity.
Qed.

Lemma calls_are_calls tokenFiles m : In m (calls tokenFiles) -> exists path, dt_call m path.
Proof.
  unfold calls. rewrite in_flat_map. intros [[content|] [_ H]]; [|contradiction].
  eapply matches_are_calls, H.
Qed.

(** *** The key of a path *)

(** [k] is [path] with every dot replaced by a hyphen and every other
    character kept. *)
Definition hyphenated (path k : string) : Prop :=
  String.length k = String.length path /\
  forall i, String.get i k =
            option_map (fun c => if Ascii.eqb c "." then "-"%char else c) (String.get i path).

Lemma hyphenated_iff path k : hyphenated path k <-> k = dots_to_hyphens path.
Proof.
  unfold hyphenated. split.
  - revert k. induction path as [|c path IH]; intros k [Hlen Hget].
    + destruct k; [reflexivity | discriminate].
    + destruct k as [|d k]; [discriminate|]. simpl.
      assert (H0 := Hget 0%nat). simpl in H0. injection H0 as ->.
      rewrite (IH k); [reflexivity|]. split; [simpl in Hlen; lia|].
      intros i. exact (Hget (S i)).
  - intros ->. induction path as [|c path [IHlen IHget]]; simpl.
    + split; [reflexivity|]. intros i. destruct i; reflexivity.
    + split; [rewrite IHlen; reflexivity|]. intros [|i]; [reflexivity | apply IHget].
Qed.

End TokenFacts.

(** C7, as stated, fails on the value: a call written with double quotes
    is stored under its key with a placeholder in single quotes, which is
    not the text of the call. *)
Lemma placeholder_changes_quotes :
  RegExp.String_match_g ExtractTokens.re_dt (TokenFacts.call "034" "a.b" "034")
  = [TokenFacts.call "034" "a.b" "034"] /\
  ExtractTokens.extractTokensFromFile (TokenFacts.call "034" "a.b" "034")
  = [("--p-a-b", "dt('a.b')")] /\
  "dt('a.b')" <> TokenFacts.call "034" "a.b" "034".
Proof. split; [reflexivity|]. split; [reflexivity | discriminate]. Qed.

(** C7 (amended): every match of the pattern in a scanned text is a call
    [dt(Q path Q)] on a path without quotes, [Q] any of the three quote
    characters. In the token map that [main] writes, a key is [--p-]
    followed by the path of such a call with every dot replaced by a
    hyphen and every other character kept, and its value is the
    placeholder [dt('path')], in single quotes whatever the quotes of the
    call, of the last match, in the order of the visit of the files and of
    the text within a file, that yields the key. *)
Theorem tokens_last_write_wins (PRIMEVUE_DIRS : list (option (list ExtractTokens.entry))) :
  let ms := TokenFacts.calls (TokenFacts.visited PRIMEVUE_DIRS) in
  (forall m, In m ms -> exists path, TokenFacts.dt_call m path) /\
  (forall before m after path k,
     ms = (before ++ m :: after)%list ->
     TokenFacts.dt_call m path ->
     TokenFacts.hyphenated path k ->
     (forall m' path' k', In m' after -> TokenFacts.dt_call m' path' ->
                          TokenFacts.hyphenated path' k' -> k' <> k) ->
     obj_get ("--p-" ++ k) (ExtractTokens.main PRIMEVUE_DIRS)
     = Some ("dt('" ++ path ++ "')")) /\
  (forall key v,
     obj_get key (ExtractTokens.main PRIMEVUE_DIRS) = Some v ->
     exists m path k,
       In m ms /\ TokenFacts.dt_call m path /\ TokenFacts.hyphenated path k /\
       key = "--p-" ++ k /\ v = "dt('" ++ path ++ "')").
Proof.
  intros ms. split; [|split].
  - intros m Hm. eapply TokenFacts.calls_are_calls, Hm.
  - intros before m after path k Hms Hm Hk Hafter.
    apply TokenFacts.hyphenated_iff in Hk. subst k.
    change ("--p-" ++ ExtractTokens.dots_to_hyphens path) with (ExtractTokens.tokenKey path).
    rewrite TokenFacts.obj_get_main. fold ms. rewrite Hms.
    rewrite map_app. cbn [map]. rewrite (TokenFacts.dt_call_path m path Hm).
    change (path :: map TokenFacts.call_path after)
      with ([path] ++ map TokenFacts.call_path after)%list.
    rewrite !TokenFacts.last_path_app.
    assert (Hnone : TokenFacts.last_path (ExtractTokens.tokenKey path)
                      (map TokenFacts.call_path after) = None).
    { unfold TokenFacts.last_path.
      destruct (find _ _) as [p|] eqn:E; [|reflexivity].
      apply find_some in E. destruct E as [Hin Heq].
      apply in_rev, in_map_iff in Hin. destruct Hin as [m' [<- Hm']].
      assert (Hc : In m' ms) by (rewrite Hms; apply in_or_app; right; right; assumption).
      destruct (TokenFacts.calls_are_calls _ m' Hc) as [path' Hpath'].
      rewrite (TokenFacts.dt_call_path m' path' Hpath') in Heq.
      apply String.eqb_eq in Heq. exfalso.
      apply (Hafter m' path' (ExtractTokens.dots_to_hyphens path') Hm' Hpath').
      - apply TokenFacts.hyphenated_iff. reflexivity.
      - unfold ExtractTokens.tokenKey in Heq. injection Heq as Heq. assumption. }
    rewrite Hnone. unfold TokenFacts.last_path at 1. cbn [rev app find].
    rewrite String.eqb_refl. reflexivity.
  - intros key v Hv. rewrite TokenFacts.obj_get_main in Hv. fold ms in Hv.
    unfold TokenFacts.last_path in Hv.
    destruct (find _ _) as [p|] eqn:E; [|discriminate].
    simpl in Hv. injection Hv as <-.
    apply find_some in E. destruct E as [Hin Heq].
    apply in_rev, in_map_iff in Hin. destruct Hin as [m [<- Hm]].
    destruct (TokenFacts.calls_are_calls _ m Hm) as [path Hpath].
    rewrite (TokenFacts.dt_call_path m path Hpath) in *.
    apply String.eqb_eq in Heq. exists m, path, (ExtractTokens.dots_to_hyphens path).
    split; [assumption|]. split; [assumption|].
    split; [apply TokenFacts.hyphenated_iff; reflexivity|]. auto.
Qed.

Definition themes : list (option (list ExtractTokens.entry)) :=
  [Some [ExtractTokens.File "index.mjs" (Some "a = dt('a.b'); b = dt('c-d');");
         ExtractTokens.Dir "button"
           [ExtractTokens.File "index.js" (Some "x = dt(`c.d`)");
            ExtractTokens.File "index.js.map" (Some "dt('zz')")]];
   None].

Lemma tokens_last_write_wins_witness :
  obj_get "--p-c-d" (ExtractTokens.main themes) = Some "dt('c.d')".
Proof.
  apply (proj1 (proj2 (tokens_last_write_wins themes))
           ["dt('a.b')"; "dt('c-d')"] "dt(`c.d`)" [] "c.d" "c-d").
  - reflexivity.
  - exists "`"%char, "`"%char. repeat split. discriminate.
  - split; [reflexivity|]. intros [|[|[|[|]]]]; reflexivity.
  - intros m' path' k' [].
Defined.

(** ** The logic signal extractor *)

Module LogicFacts.
Import JS RegExp StringFacts RegExpFacts ExtractLogic.

Definition is_quote : ascii -> bool := any_of quotes.

(** A character of the content of a literal: no quote, no line break *)
Definition plain (c : ascii) : bool := is_dot c && negb (is_quote c).

(** The text of a call of [emit] on one quoted argument *)
Definition emit_call (q1 : ascii) (body : string) (q2 : ascii) : string :=
  "emit(" ++ String q1 (body ++ String q2 ")").

(** A text that ends where a line starts: it is empty or ends with a line
    break. *)
Definition line_start (before : string) : Prop :=
  before = "" \/ exists pre nl, before = pre ++ String nl "" /\ is_dot nl = false.

Lemma quote_is_dot c : is_quote c = true -> is_dot c = true.
Proof.
  unfold is_quote, quotes. cbn [any_of]. rewrite !orb_true_iff.
  intros [H|[H|[H|H]]]; try discriminate; apply Ascii.eqb_eq in H; subst; reflexivity.
Qed.

Lemma every_plain body :
  every plain body = true -> every is_dot body = true /\ every (fun c => negb (is_quote c)) body = true.
Proof.
  induction body as [|c body IH]; simpl; [auto|].
  unfold plain at 1. rewrite !andb_true_iff. intros [[H1 H2] H3].
  destruct (IH H3). auto.
Qed.

Lemma emit_call_app q1 body q2 rest :
  emit_call q1 body q2 ++ rest = "emit(" ++ String q1 (body ++ String q2 (")" ++ rest)).
Proof. unfold emit_call. simpl. rewrite app_assoc. reflexivity. Qed.

(** A call of [emit] on one plain literal, at the head of the subject, is
    matched as it stands. *)
Lemma match_at_emit_call prev q1 body q2 rest :
  is_quote q1 = true -> is_quote q2 = true ->
  body <> "" -> every plain body = true ->
  exists g, match_at re_emit prev (emit_call q1 body q2 ++ rest)
            = Some (emit_call q1 body q2, g).
Proof.
  intros Hq1 Hq2 Hne Hbody.
  destruct body as [|b body]; [congruence|].
  simpl in Hbody. apply andb_prop in Hbody. destruct Hbody as [Hb Hbody].
  assert (Hbd : is_dot b = true) by (unfold plain in Hb; apply andb_prop in Hb; tauto).
  eexists. unfold match_at, re_emit. cbn [sequence exec].
  rewrite emit_call_app at 1. rewrite lit_app.
  fold is_quote. rewrite Hq1.
  change (String b body ++ String q2 (")" ++ rest))
    with (String b (body ++ String q2 (")" ++ rest))).
  cbv iota. rewrite Hbd.
  erewrite reluctant_first; cycle 1.
  - apply every_plain in Hbody. tauto.
  - intros a1 a2 prev' -> Hne2. destruct a2 as [|c a2]; [congruence|].
    rewrite every_app in Hbody. apply andb_prop in Hbody. destruct Hbody as [_ Hc].
    simpl in Hc. apply andb_prop in Hc. destruct Hc as [Hc _].
    unfold plain in Hc. apply andb_prop in Hc. destruct Hc as [_ Hc].
    simpl. destruct (is_quote c); [discriminate | reflexivity].
  - cbv beta. rewrite Hq2. change (String ")" rest) with (")" ++ rest).
    rewrite lit_app. reflexivity.
  - cbv iota. rewrite consumed_app. reflexivity.
Qed.

(** A match of the pattern is a prefix of the subject that starts with
    [emit(] and has no line break. *)
Lemma match_at_emit prev s m g :
  match_at re_emit prev s = Some (m, g) ->
  exists m' rest, m = "emit(" ++ m' /\ s = m ++ rest /\ every is_dot m = true.
Proof.
  unfold match_at, re_emit. cbn [sequence exec]. fold is_quote.
  destruct (lit "emit(" prev s) as [[p1 s1]|] eqn:E; [|discriminate].
  apply lit_inv in E. subst s.
  destruct s1 as [|q1 s2]; [discriminate|].
  destruct (is_quote q1) eqn:Hq1; [|discriminate].
  destruct s2 as [|b s3]; [discriminate|].
  destruct (is_dot b) eqn:Hb; [|discriminate].
  destruct (reluctant _ _ _ _) as [[s5 g']|] eqn:G; [|discriminate].
  intros H. injection H as <- <-.
  apply reluctant_sound in G. destruct G as [a [tail [prev' [-> [Ha G]]]]].
  destruct tail as [|q2 s4]; [discriminate|].
  destruct (is_quote q2) eqn:Hq2; [|discriminate].
  destruct (lit ")" (Some q2) s4) as [[p5 s5']|] eqn:E; [|discriminate].
  apply lit_inv in E. subst s4. injection G as <- _.
  set (m := consumed _ s5').
  assert (Hm : m = emit_call q1 (String b a) q2).
  { subst m. transitivity (consumed (emit_call q1 (String b a) q2 ++ s5') s5');
      [rewrite emit_call_app; reflexivity | apply consumed_app]. }
  rewrite Hm. clear m Hm.
  exists (String q1 (String b a ++ String q2 ")")), s5'.
  split; [reflexivity|]. split; [rewrite emit_call_app; reflexivity|].
  unfold emit_call. simpl. rewrite every_app. simpl.
  rewrite (quote_is_dot q1 Hq1), Hb, Ha, (quote_is_dot q2 Hq2). reflexivity.
Qed.

(** *** The second pattern, applied to a match of the first *)

Lemma match_at_quoted_none prev c s :
  is_quote c = false -> match_at re_quoted prev (String c s) = None.
Proof.
  intros H. unfold match_at, re_quoted. cbn [sequence exec]. fold is_quote.
  rewrite H. reflexivity.
Qed.

Lemma match_at_quoted prev q1 body q2 rest :
  is_quote q1 = true -> is_quote q2 = true ->
  body <> "" -> every plain body = true ->
  match_at re_quoted prev (String q1 (body ++ String q2 rest))
  = Some (String q1 (body ++ String q2 ""), Some body).
Proof.
  intros Hq1 Hq2 Hne Hbody.
  destruct body as [|b body]; [congruence|].
  simpl in Hbody. apply andb_prop in Hbody. destruct Hbody as [Hb Hbody].
  assert (Hbd : is_dot b = true) by (unfold plain in Hb; apply andb_prop in Hb; tauto).
  unfold match_at, re_quoted. cbn [sequence exec]. fold is_quote. rewrite Hq1.
  change (String b body ++ String q2 rest) with (String b (body ++ String q2 rest)).
  cbv iota. rewrite Hbd.
  erewrite reluctant_first; cycle 1.
  - apply every_plain in Hbody. tauto.
  - intros a1 a2 prev' -> Hne2. destruct a2 as [|c a2]; [congruence|].
    rewrite every_app in Hbody. apply andb_prop in Hbody. destruct Hbody as [_ Hc].
    simpl in Hc. apply andb_prop in Hc. destruct Hc as [Hc _].
    unfold plain in Hc. apply andb_prop in Hc. destruct Hc as [_ Hc].
    simpl. destruct (is_quote c); [discriminate | reflexivity].
  - cbv beta. rewrite Hq2. reflexivity.
  - cbv iota.
    change (String b (body ++ String q2 rest)) with (String b body ++ String q2 rest).
    rewrite consumed_app.
    replace (String q1 (String b body ++ String q2 rest))
      with ((String q1 (String b body ++ String q2 "")) ++ rest)
      by (simpl; rewrite app_assoc; reflexivity).
    rewrite consumed_app. reflexivity.
Qed.

Lemma search_skip r prev c s :
  match_at r prev (String c s) = None -> search r prev (String c s) = search r (Some c) s.
Proof. intros H. cbn [search]. rewrite H. reflexivity. Qed.

(** The capture of the second pattern on a call is the content of its
    literal. *)
Lemma String_match_emit_call q1 body q2 :
  is_quote q1 = true -> is_quote q2 = true ->
  body <> "" -> every plain body = true ->
  String_match re_quoted (emit_call q1 body q2)
  = Some (String q1 (body ++ String q2 ""), Some body).
Proof.
  intros Hq1 Hq2 Hne Hbody. unfold String_match, emit_call. simpl append.
  do 5 (rewrite search_skip by (apply match_at_quoted_none; reflexivity)).
  apply search_head, match_at_quoted; assumption.
Qed.

(** *** The global search *)

Lemma scan_no_match r line rest : forall prev,
  (forall a1 a2 prev', line = a1 ++ a2 -> a2 <> "" -> match_at r prev' (a2 ++ rest) = None) ->
  scan r prev (line ++ rest) 0 = scan r (last_char line prev) rest 0.
Proof.
  induction line as [|c line IH]; intros prev H; [reflexivity|].
  change (String c line ++ rest) with (String c (line ++ rest)). cbn [scan].
  change (String c (line ++ rest)) with (String c line ++ rest).
  rewrite (H "" (String c line) prev eq_refl) by discriminate.
  simpl. apply IH. intros a1 a2 prev' -> Hne.
  apply (H (String c a1) a2 prev'); [reflexivity | assumption].
Qed.

Lemma scan_head r prev s m g : match_at r prev s = Some (m, g) -> In m (scan r prev s 0).
Proof. intros H. destruct s; cbn [scan]; rewrite H; left; reflexivity. Qed.

(** The first [n] characters are no line breaks. *)
Fixpoint dots (n : nat) (s : string) : bool :=
  match n, s with
  | S n', String c s' => is_dot c && dots n' s'
  | _, _ => true
  end.

Lemma dots_every m rest : every is_dot m = true -> dots (String.length m) (m ++ rest) = true.
Proof.
  induction m as [|c m IH]; simpl; [reflexivity|].
  intros H. apply andb_prop in H. destruct H as [-> H]. apply IH, H.
Qed.

(** A match does not go past a line break: the search is at the start of
    each line with nothing left to pass. *)
Lemma scan_reaches_line nl rest : is_dot nl = false ->
  forall pre prev skip,
    dots skip (pre ++ String nl rest) = true ->
    exists ms, scan re_emit prev (pre ++ String nl rest) skip
               = (ms ++ scan re_emit (Some nl) rest 0)%list.
Proof.
  intros Hnl. induction pre as [|c pre IH]; intros prev skip Hskip.
  - simpl append in *. destruct skip as [|n]; [|simpl in Hskip; rewrite Hnl in Hskip; discriminate].
    cbn [scan]. destruct (match_at re_emit prev (String nl rest)) as [[m g]|] eqn:E.
    + apply match_at_emit in E. destruct E as [m' [rest' [-> [E _]]]].
      simpl in E. injection E as -> _. discriminate.
    + exists []. reflexivity.
  - change (String c pre ++ String nl rest) with (String c (pre ++ String nl rest)) in *.
    destruct skip as [|n].
    + cbn [scan]. destruct (match_at re_emit prev _) as [[m g]|] eqn:E.
      * apply match_at_emit in E. destruct E as [m' [rest' [-> [E Hm]]]].
        simpl in E. injection E as _ E. simpl in Hm.
        destruct (IH (Some c) (String.length ("emit(" ++ m') - 1)%nat) as [ms Hms].
        { rewrite E. simpl.
          change (String "m" (String "i" (String "t" (String "(" (m' ++ rest')))))
            with (("mit(" ++ m') ++ rest').
          apply (dots_every ("mit(" ++ m')). apply Hm. }
        rewrite Hms. eexists (_ :: ms). reflexivity.
      * apply (IH (Some c) 0%nat). reflexivity.
    + cbn [scan]. apply IH. simpl in Hskip. apply andb_prop in Hskip. tauto.
Qed.

(** *** No match starts in a text without [emit(] *)

Lemma includes_suffix a1 a2 t : includes (a1 ++ a2) t = false -> includes a2 t = false.
Proof.
  induction a1 as [|c a1 IH]; [auto|].
  change (String c a1 ++ a2) with (String c (a1 ++ a2)). cbn [includes].
  destruct (String.prefix t (String c (a1 ++ a2))); [discriminate | apply IH].
Qed.

Lemma emit_no_overlap a t u :
  a <> "" -> includes a "emit(" = false -> a ++ "emit(" ++ t = "emit(" ++ u -> False.
Proof.
  intros Hne Hinc H.
  destruct a as [|c1 [|c2 [|c3 [|c4 [|c5 a]]]]]; simpl in H;
    [congruence | inversion H .. | inversion H; subst; destruct a; simpl in Hinc; discriminate Hinc].
Qed.

Lemma no_match_before_emit line rest :
  includes line "emit(" = false ->
  forall a1 a2 prev', line = a1 ++ a2 -> a2 <> "" ->
    match_at re_emit prev' (a2 ++ "emit(" ++ rest) = None.
Proof.
  intros Hinc a1 a2 prev' -> Hne.
  destruct (match_at re_emit prev' _) as [[m g]|] eqn:E; [|reflexivity].
  apply match_at_emit in E. destruct E as [m' [rest' [-> [E _]]]].
  exfalso. apply (emit_no_overlap a2 rest (m' ++ rest') Hne).
  - eapply includes_suffix, Hinc.
  - rewrite E. apply app_assoc.
Qed.

(** A call of [emit] on one plain literal, with no [emit(] before it on
    its line, is one of the matches. *)
Lemma emit_call_matched before line q1 body q2 after :
  line_start before ->
  includes line "emit(" = false ->
  is_quote q1 = true -> is_quote q2 = true ->
  body <> "" -> every plain body = true ->
  In (emit_call q1 body q2)
     (String_match_g re_emit (before ++ line ++ emit_call q1 body q2 ++ after)).
Proof.
  intros Hbefore Hline Hq1 Hq2 Hne Hbody. unfold String_match_g.
  assert (Hhere : forall prev,
             In (emit_call q1 body q2)
                (scan re_emit prev (line ++ emit_call q1 body q2 ++ after) 0)).
  { intros prev. rewrite scan_no_match.
    - destruct (match_at_emit_call (last_char line prev) q1 body q2 after Hq1 Hq2 Hne Hbody)
        as [g Hg].
      eapply scan_head, Hg.
    - rewrite emit_call_app. apply no_match_before_emit, Hline. }
  destruct Hbefore as [->|[pre [nl [-> Hnl]]]]; [apply Hhere|].
  replace ((pre ++ String nl "") ++ line ++ emit_call q1 body q2 ++ after)
    with (pre ++ String nl (line ++ emit_call q1 body q2 ++ after))
    by (rewrite app_assoc; reflexivity).
  destruct (scan_reaches_line nl (line ++ emit_call q1 body q2 ++ after) Hnl pre None 0%nat
              eq_refl) as [ms ->].
  apply in_or_app. right. apply Hhere.
Qed.

End LogicFacts.

(** *** A line of calls *)

Module EmitFacts.
Import JS RegExp StringFacts RegExpFacts ExtractLogic LogicFacts.

(** A call of [emit] on one string literal, the closing quote followed at
    once by the closing parenthesis, after a text without [emit(] *)
Record emission : Type := {
  gap : string;
  open_quote : ascii;
  event : string;
  close_quote : ascii
}.

Definition call_text (e : emission) : string :=
  emit_call (open_quote e) (event e) (close_quote e).

(** The literal is not empty and has no quote and no line break. *)
Definition well_formed (e : emission) : Prop :=
  includes (gap e) "emit(" = false /\
  is_quote (open_quote e) = true /\ is_quote (close_quote e) = true /\
  event e <> "" /\ every plain (event e) = true.

Fixpoint render (es : list emission) : string :=
  match es with
  | [] => ""
  | e :: es' => gap e ++ call_text e ++ render es'
  end.

(** The search passes over a match it has found. *)
Lemma scan_skip r a rest : forall prev,
  scan r prev (a ++ rest) (String.length a) = scan r (last_char a prev) rest 0.
Proof.
  induction a as [|c a IH]; intros prev; [reflexivity|].
  change (String c a ++ rest) with (String c (a ++ rest)). simpl. apply IH.
Qed.

Lemma scan_match r prev m rest g :
  m <> "" -> match_at r prev (m ++ rest) = Some (m, g) ->
  scan r prev (m ++ rest) 0 = m :: scan r (last_char m prev) rest 0.
Proof.
  intros Hne H. destruct m as [|c m]; [congruence|].
  change (String c m ++ rest) with (String c (m ++ rest)) in *.
  cbn [scan]. rewrite H. f_equal.
  replace (String.length (String c m) - 1)%nat with (String.length m) by (simpl; lia).
  rewrite (scan_skip r m rest (Some c)). reflexivity.
Qed.

Lemma scan_emissions es :
  Forall well_formed es ->
  forall prev rest,
  exists prev',
    scan re_emit prev (render es ++ rest) 0
    = (map call_text es ++ scan re_emit prev' rest 0)%list.
Proof.
  induction 1 as [|e es [Hgap [Hq1 [Hq2 [Hne Hplain]]]] _ IH]; intros prev rest.
  - exists prev. reflexivity.
  - cbn [render map]. rewrite !app_assoc.
    rewrite scan_no_match
      by (unfold call_text; rewrite emit_call_app; apply no_match_before_emit, Hgap).
    destruct (match_at_emit_call (last_char (gap e) prev) (open_quote e) (event e)
                (close_quote e) (render es ++ rest) Hq1 Hq2 Hne Hplain) as [g Hg].
    fold (call_text e) in Hg. rewrite (scan_match _ _ _ _ g); [|discriminate|exact Hg].
    destruct (IH (last_char (call_text e) (last_char (gap e) prev)) rest) as [prev' ->].
    exists prev'. reflexivity.
Qed.

End EmitFacts.

(** X19: the calls of [emit] on one string literal are extracted. In a
    text, from the start of a line, a run of such calls, the closing quote
    of each followed at once by the closing parenthesis, the literal not
    empty and without quote or line break, and no other [emit(] between
    them, yields the contents of the literals, in their order and with
    their repetitions, one after the other in the extracted [emits]. *)
Theorem emit_literals_extracted (before : string) (es : list EmitFacts.emission)
    (after : string) :
  LogicFacts.line_start before ->
  Forall EmitFacts.well_formed es -> es <> [] ->
  exists pre post,
    ExtractLogic.emits
      (ExtractLogic.extractLogicFromFile (before ++ EmitFacts.render es ++ after))
    = Some (pre ++ map (fun e => Some (EmitFacts.event e)) es ++ post)%list.
Proof.
  intros Hbefore Hes Hne.
  assert (Hscan : exists ms post,
             RegExp.String_match_g ExtractLogic.re_emit
               (before ++ EmitFacts.render es ++ after)
             = (ms ++ map EmitFacts.call_text es ++ post)%list).
  { unfold RegExp.String_match_g.
    destruct Hbefore as [->|[pre [nl [-> Hnl]]]].
    - destruct (EmitFacts.scan_emissions es Hes None after) as [prev' H].
      exists [], (RegExp.scan ExtractLogic.re_emit prev' after 0). exact H.
    - replace ((pre ++ String nl "") ++ EmitFacts.render es ++ after)
        with (pre ++ String nl (EmitFacts.render es ++ after))
        by (rewrite StringFacts.app_assoc; reflexivity).
      destruct (LogicFacts.scan_reaches_line nl (EmitFacts.render es ++ after) Hnl pre None
                  0%nat eq_refl) as [ms ->].
      destruct (EmitFacts.scan_emissions es Hes (Some nl) after) as [prev' ->].
      exists ms, (RegExp.scan ExtractLogic.re_emit prev' after 0). reflexivity. }
  destruct Hscan as [ms [post Hscan]].
  unfold ExtractLogic.extractLogicFromFile. cbn [ExtractLogic.emits].
  destruct (RegExp.String_match_g ExtractLogic.re_emit _) as [|m0 ms0] eqn:E.
  - exfalso. destruct es as [|e es]; [congruence|].
    destruct ms; discriminate Hscan.
  - rewrite Hscan. rewrite !map_app, map_map. eexists. eexists. f_equal. f_equal. f_equal.
    apply map_ext_in. intros e He.
    destruct (proj1 (List.Forall_forall _ _) Hes e He) as [_ [Hq1 [Hq2 [Hn Hp]]]].
    unfold EmitFacts.call_text.
    rewrite LogicFacts.String_match_emit_call by assumption. reflexivity.
Qed.

Lemma emit_literals_extracted_witness :
  exists pre post,
    ExtractLogic.emits (ExtractLogic.extractLogicFromFile "emit('a'); emit('b')")
    = Some (pre ++ [Some "a"; Some "b"] ++ post)%list.
Proof.
  apply (emit_literals_extracted ""
           [{| EmitFacts.gap := ""; EmitFacts.open_quote := "'"; EmitFacts.event := "a";
               EmitFacts.close_quote := "'" |};
            {| EmitFacts.gap := "; "; EmitFacts.open_quote := "'"; EmitFacts.event := "b";
               EmitFacts.close_quote := "'" |}] "").
  - left. reflexivity.
  - repeat constructor; discriminate.
  - discriminate.
Defined.

(** X17: the three categories that go through a [Set] list their matches
    without repetition, in the order of first appearance. *)
Lemma set_categories_deduplicated (content : string) :
  (forall l, ExtractLogic.composables (ExtractLogic.extractLogicFromFile content) = Some l ->
             List.NoDup l /\
             l = ObjectFacts.first_occurrences
                   (RegExp.String_match_g ExtractLogic.re_composable content)) /\
  (forall l, ExtractLogic.vueImports (ExtractLogic.extractLogicFromFile content) = Some l ->
             List.NoDup l /\
             l = ObjectFacts.first_occurrences
                   (RegExp.String_match_g ExtractLogic.re_vueImport content)) /\
  (forall l, ExtractLogic.methods (ExtractLogic.extractLogicFromFile content) = Some l ->
             List.NoDup l).
Proof.
  unfold ExtractLogic.extractLogicFromFile. simpl.
  split; [|split]; intros l H; [split | split | ].
  - destruct (RegExp.String_match_g ExtractLogic.re_composable content); [discriminate|].
    injection H as <-. apply ObjectFacts.NoDup_new_Set.
  - destruct (RegExp.String_match_g ExtractLogic.re_composable content); [discriminate|].
    injection H as <-. apply ObjectFacts.new_Set_first_occurrences.
  - destruct (RegExp.String_match_g ExtractLogic.re_vueImport content); [discriminate|].
    injection H as <-. apply ObjectFacts.NoDup_new_Set.
  - destruct (RegExp.String_match_g ExtractLogic.re_vueImport content); [discriminate|].
    injection H as <-. apply ObjectFacts.new_Set_first_occurrences.
  - destruct (RegExp.String_match_g ExtractLogic.re_method content); [discriminate|].
    injection H as <-. apply ObjectFacts.NoDup_new_Set.
Qed.

(** C4 fails on the code for [emits]: the matches of the three other
    categories go through a [Set], those of [emits] do not, and an event
    emitted twice is listed twice. *)
Theorem emits_keeps_duplicates :
  ExtractLogic.extractLogicFromFile "emit('a'); emit('a')"
  = {| ExtractLogic.composables := None;
       ExtractLogic.vueImports := None;
       ExtractLogic.methods := None;
       ExtractLogic.emits := Some [Some "a"; Some "a"] |} /\
  ~ List.NoDup [Some "a"; Some "a"].
Proof.
  split; [reflexivity|].
  intros H. inversion H as [|x l Hx _]; subst. apply Hx. left. reflexivity.
Qed.

(** ** The examples of the specification *)

(** A request for [Button] and a request for [button] are answered with the
    same record when [button] alone is a key. *)
Example lookup_ignores_case :
  QueryAPI.get_component small_dataset "Button" None
  = QueryAPI.get_component small_dataset "button" None /\
  QueryAPI.get_component small_dataset "button" (Some "examples")
  = QueryAPI.Value (VArr [VStr "<Button />"]).
Proof. split; reflexivity. Qed.

Definition toggle_dataset : list (string * value) :=
  [("togglebutton", VObj [("description", VStr "Click to toggle");
                          ("props", VObj [("onClick", VStr "Function")])]);
   ("_tokens", VObj [("--p-toggle-click", VStr "dt('toggle.click')")])].

(** A search for [click] finds the component by its description and by its
    property, and the token by its key. *)
Example search_click :
  QueryAPI.compute_search toggle_dataset "click"
  = Some {| QueryAPI.query := "click";
            QueryAPI.search_count := 2;
            QueryAPI.results :=
              [QueryAPI.ComponentHit "togglebutton" None (Some (VStr "Click to toggle"))
                 ["description"; "prop:onClick"];
               QueryAPI.TokenHit "--p-toggle-click" (VStr "dt('toggle.click')")] |}.
Proof. reflexivity. Qed.

(** A call that appears twice, in either quoting, yields its key once. *)
Example token_extracted_once :
  ExtractTokens.extractTokensFromFile
    "a: dt('button.border.radius'), b: dt(`button.border.radius`)"
  = [("--p-button-border-radius", "dt('button.border.radius')")].
Proof. reflexivity. Qed.

(** The signals of a small component *)
Example logic_of_component :
  ExtractLogic.extractLogicFromFile
    "const t = useToast(); const n = ref(0); watch(n, f); onClick(e) { this.$emit('click'); }"
  = {| ExtractLogic.composables := Some ["useToast"];
       ExtractLogic.vueImports := Some ["ref"; "watch"];
       ExtractLogic.methods := Some ["onClick"];
       ExtractLogic.emits := Some [Some "click"] |}.
Proof. reflexivity. Qed.

(** * Further properties of the code *)

(** * Further properties of the servers *)

Module ListingFacts.
Import JS Dataset QueryAPI ObjectFacts.

Lemma prefix_empty s : String.prefix "" s = true.
Proof. destruct s; reflexivity. Qed.

Lemma includes_empty s : includes s "" = true.
Proof. destruct s; simpl; rewrite ?prefix_empty; reflexivity. Qed.

Lemma given_nonempty q : q <> "" -> given (Some q) = Some q.
Proof. destruct q; [congruence | reflexivity]. Qed.

Lemma filter_throwing_total {A : Type} (f : A -> option bool) (g : A -> bool) (l : list A) :
  (forall x, In x l -> f x = Some (g x)) -> filter_throwing f l = Some (List.filter g l).
Proof.
  induction l as [|x l IH]; simpl; intros H; [reflexivity|].
  rewrite (H x (or_introl eq_refl)), IH by auto. destruct (g x); reflexivity.
Qed.

Lemma filter_all {A : Type} (l : list A) : List.filter (fun _ => true) l = l.
Proof. induction l as [|x l IH]; simpl; congruence. Qed.

Lemma key_matches_empty data key : key_matches data "" key = Some true.
Proof. unfold key_matches. rewrite includes_empty. reflexivity. Qed.

(** A summary without its [sections]: what the tool server returns *)
Definition to_component (s : summary) : ToolServer.Component :=
  {| ToolServer.name := name s;
     ToolServer.title := title s;
     ToolServer.description := description s;
     ToolServer.hasProps := hasProps s;
     ToolServer.hasExamples := hasExamples s |}.

(** A title or a description that a filter can examine: absent, [null] or
    a string *)
Definition text_or_absent (v : option value) : Prop :=
  match v with
  | None | Some VNull | Some (VStr _) => True
  | Some _ => False
  end.

Definition texts_ok (data : list (string * value)) : Prop :=
  forall key v, obj_get key data = Some v ->
    text_or_absent (get_opt (Some v) "title") /\
    text_or_absent (get_opt (Some v) "description").

(** Whether a text contains the term *)
Definition text_matches (term : string) (v : option value) : bool :=
  match v with
  | Some (VStr s) => includes (toLowerCase s) term
  | _ => false
  end.

(** What the filter of the component lists tests, for texts that can be
    examined *)
Definition component_matches_term (data : list (string * value)) (term key : string) : bool :=
  includes (toLowerCase key) term
  || text_matches term (get_opt (obj_get key data) "title")
  || text_matches term (get_opt (obj_get key data) "description").

Lemma lower_includes_text term v :
  text_or_absent v -> lower_includes v term = Some (text_matches term v).
Proof. destruct v as [[| | | | | |]|]; simpl; intros H; try contradiction; reflexivity. Qed.

Lemma key_matches_texts data term key :
  texts_ok data -> In key (Object_keys data) ->
  key_matches data term key = Some (component_matches_term data term key).
Proof.
  intros Hok Hin. apply In_keys_obj_get in Hin. destruct Hin as [v Hv].
  destruct (Hok key v Hv) as [Ht Hd].
  unfold key_matches, component_matches_term. rewrite Hv.
  rewrite (lower_includes_text term _ Ht), (lower_includes_text term _ Hd).
  destruct (includes (toLowerCase key) term); [reflexivity|].
  destruct (text_matches term (get_opt (Some v) "title")); reflexivity.
Qed.

End ListingFacts.

(** X1: without a filter both servers list every key of the dataset except
    [_tokens], in the order of the dataset, and the listing cannot fail,
    whatever the records hold: [GET /mcp/components] without [q] or with an
    empty [q], the tool [search_components] without a query, and the tool
    [list_components]. *)
Theorem unfiltered_listing_complete (data : list (string * value)) :
  (forall q, QueryAPI.given q = None ->
     exists result,
       QueryAPI.compute_components data q = Some result /\
       map QueryAPI.name result = List.filter is_component_key (Object_keys data)) /\
  (exists result,
     ToolServer.search_components data None = Some result /\
     map ToolServer.name result = List.filter is_component_key (Object_keys data)) /\
  map (fun e => fst (fst e)) (ToolServer.listed (ToolServer.listComponents data))
  = List.filter is_component_key (Object_keys data) /\
  ToolServer.stats_components (ToolServer.listComponents data)
  = List.length (List.filter is_component_key (Object_keys data)).
Proof.
  split; [|split; [|split]].
  - intros q Hq. unfold QueryAPI.compute_components. rewrite Hq.
    eexists. split; [reflexivity|]. rewrite map_map. apply map_id.
  - unfold ToolServer.search_components, ToolServer.searchComponents.
    rewrite (ListingFacts.filter_throwing_total _ (fun _ => true)).
    + rewrite ListingFacts.filter_all. eexists. split; [reflexivity|].
      rewrite map_map. apply map_id.
    + intros key _. apply ListingFacts.key_matches_empty.
  - unfold ToolServer.listComponents. simpl. rewrite map_map. apply map_id.
  - reflexivity.
Qed.

(** X2: for a query that is not empty the two servers agree. The tool
    [search_components] returns the summaries of [GET /mcp/components]
    without their sections, or fails when it fails; the tool [search_tokens]
    returns the tokens and the count of [GET /mcp/tokens]; the tool
    [get_component] returns the record that [GET /mcp/component/:name]
    returns and throws when the latter answers 404. *)
Theorem servers_agree (data : list (string * value)) (q name : string) :
  q <> "" ->
  ToolServer.searchComponents data q
  = option_map (map ListingFacts.to_component) (QueryAPI.compute_components data (Some q)) /\
  QueryAPI.compute_tokens data (Some q)
  = Some {| QueryAPI.count := ToolServer.ts_count (ToolServer.searchTokens data q);
            QueryAPI.tokens := VObj (ToolServer.ts_tokens (ToolServer.searchTokens data q)) |} /\
  (forall v, ToolServer.getComponent data name = ToolServer.Returned v <->
             QueryAPI.get_component data name None = QueryAPI.Value v) /\
  ((exists message, ToolServer.getComponent data name = ToolServer.Thrown message) <->
   QueryAPI.status (QueryAPI.get_component data name None) = 404).
Proof.
  intros Hq. split; [|split; [|split]].
  - unfold ToolServer.searchComponents, QueryAPI.compute_components.
    rewrite (ListingFacts.given_nonempty q Hq).
    destruct (filter_throwing _ _) as [keys|]; [|reflexivity].
    simpl. rewrite map_map. reflexivity.
  - unfold QueryAPI.compute_tokens, ToolServer.searchTokens.
    rewrite (ListingFacts.given_nonempty q Hq). reflexivity.
  - intros v. unfold ToolServer.getComponent, QueryAPI.get_component.
    destruct (js_or _ _) as [comp|]; simpl.
    + destruct (truthy comp); simpl; split; intros H;
        try discriminate; injection H as <-; reflexivity.
    + split; discriminate.
  - unfold ToolServer.getComponent, QueryAPI.get_component.
    destruct (js_or _ _) as [comp|]; simpl.
    + destruct (truthy comp); simpl; split; intros H;
        try discriminate; try (destruct H; discriminate); eauto.
    + split; eauto.
Qed.

Lemma servers_agree_witness :
  ToolServer.searchComponents small_dataset "card"
  = option_map (map ListingFacts.to_component)
      (QueryAPI.compute_components small_dataset (Some "card")).
Proof. apply (servers_agree small_dataset "card" "card"). discriminate. Defined.

(** X3: over a dataset whose titles and descriptions are strings, [null]
    or absent, a filtered list of components cannot fail, and it holds the
    keys other than [_tokens], in the order of the dataset, whose
    identifier, title or description contains the lowercased query. *)
Theorem filtered_listing_exact (data : list (string * value)) (q : string) :
  ListingFacts.texts_ok data -> q <> "" ->
  exists result,
    QueryAPI.compute_components data (Some q) = Some result /\
    map QueryAPI.name result
    = List.filter (ListingFacts.component_matches_term data (toLowerCase q))
        (List.filter is_component_key (Object_keys data)).
Proof.
  intros Hok Hq. unfold QueryAPI.compute_components.
  rewrite (ListingFacts.given_nonempty q Hq).
  rewrite (ListingFacts.filter_throwing_total _
             (ListingFacts.component_matches_term data (toLowerCase q))).
  - eexists. split; [reflexivity|]. rewrite map_map. apply map_id.
  - intros key Hin. apply ListingFacts.key_matches_texts; [assumption|].
    apply filter_In in Hin. tauto.
Qed.

Lemma small_dataset_texts_ok : ListingFacts.texts_ok small_dataset.
Proof.
  intros key v. unfold small_dataset. cbn [obj_get].
  destruct (String.eqb "button" key); [|destruct (String.eqb "card" key);
                                        [|destruct (String.eqb "_tokens" key);
                                          [|discriminate]]];
    intros H; injection H as <-; split; exact I.
Qed.

Lemma filtered_listing_exact_witness :
  exists result,
    QueryAPI.compute_components small_dataset (Some "BUT") = Some result /\
    map QueryAPI.name result = ["button"].
Proof.
  apply (filtered_listing_exact small_dataset "BUT" small_dataset_texts_ok).
  discriminate.
Defined.

Module SearchFacts.
Import JS Dataset QueryAPI ObjectFacts.

(** A title or a description on which the filters throw: a value that is
    neither [null] nor a string *)
Definition not_a_text (v : option value) : Prop :=
  match v with
  | Some (VBool _) | Some (VNum _) | Some (VArr _) | Some (VObj _) => True
  | _ => False
  end.

Lemma lower_includes_throws v term : not_a_text v -> lower_includes v term = None.
Proof. destruct v as [[| | | | | |]|]; simpl; intros H; try contradiction; reflexivity. Qed.

Lemma component_hits_throws term key component (data : list (string * value)) :
  In (key, component) data -> key <> "_tokens" ->
  not_a_text (get_opt (Some component) "title") \/
  not_a_text (get_opt (Some component) "description") ->
  component_hits term data = None.
Proof.
  intros Hin Hkey Hbad. induction data as [|[k c] data IH]; [contradiction|].
  cbn [component_hits]. destruct Hin as [Heq|Hin].
  - injection Heq as Hk Hc. subst k c.
    destruct (String.eqb_spec key "_tokens"); [contradiction|].
    unfold component_matches. destruct Hbad as [H|H].
    + rewrite (lower_includes_throws _ term H). reflexivity.
    + rewrite (lower_includes_throws _ term H).
      destruct (lower_includes _ term); reflexivity.
  - specialize (IH Hin). rewrite IH.
    destruct (String.eqb k "_tokens"); [reflexivity|].
    destruct (component_matches term k c); reflexivity.
Qed.



End SearchFacts.

(** X4: a record whose title or description is neither a string nor
    [null] makes the global search fail for every query: each
    [GET /mcp/search] is answered with status 500, whatever was served
    before, and nothing is memoized for it. *)
Theorem search_fails_on_malformed_text (data : list (string * value))
    (key : string) (component : value) :
  In (key, component) data -> key <> "_tokens" ->
  SearchFacts.not_a_text (get_opt (Some component) "title") \/
  SearchFacts.not_a_text (get_opt (Some component) "description") ->
  (forall q, QueryAPI.compute_search data q = None) /\
  (forall rs,
     Forall2 (fun req out =>
                forall q, snd req = QueryAPI.GET_search q ->
                          out = QueryAPI.InternalError /\ QueryAPI.status out = 500)
       rs (snd (QueryAPI.serve data QueryAPI.empty_cache rs))) /\
  (forall rs, QueryAPI.search (fst (QueryAPI.serve data QueryAPI.empty_cache rs)) = ∅).
Proof.
  intros Hin Hkey Hbad.
  assert (Hnone : forall q, QueryAPI.compute_search data q = None).
  { intros q. unfold QueryAPI.compute_search.
    rewrite (SearchFacts.component_hits_throws _ key component data Hin Hkey Hbad).
    reflexivity. }
  split; [assumption|]. split.
  - intros rs.
    eapply List.Forall2_impl;
      [|apply (CacheFacts.serve_search_transparent data rs QueryAPI.empty_cache
                 (CacheFacts.search_sound_empty data))].
    intros req out H q Hq. rewrite (H q Hq). unfold CacheFacts.search_answer.
    rewrite Hnone. auto.
  - intros rs.
    assert (Hgen : forall c, QueryAPI.search c = ∅ ->
                             QueryAPI.search (fst (QueryAPI.serve data c rs)) = ∅).
    { induction rs as [|[now req] rs IH]; intros c Hc; simpl; [assumption|].
      assert (Hc' : QueryAPI.search (fst (QueryAPI.handle data now c req)) = ∅).
      { destruct req as [q|n s|q|q|]; simpl; try assumption.
        - unfold QueryAPI.get_components.
          destruct (QueryAPI.getCachedOrCompute _ _ _ _ _) as [[[r m] ts]|]; assumption.
        - unfold QueryAPI.get_tokens.
          destruct (QueryAPI.getCachedOrCompute _ _ _ _ _) as [[[r m] ts]|]; assumption.
        - unfold QueryAPI.get_search, QueryAPI.getCachedOrCompute.
          rewrite Hc, lookup_empty, Hnone. assumption.
        - reflexivity. }
      destruct (QueryAPI.handle data now c req) as [c' out]. simpl in *.
      specialize (IH c' Hc'). destruct (QueryAPI.serve data c' rs) as [c'' outs].
      assumption. }
    apply Hgen. reflexivity.
Qed.

Definition malformed_dataset : list (string * value) :=
  [("button", VObj [("title", VStr "Button")]);
   ("card", VObj [("title", VArr [VStr "Card"])])].

Lemma search_fails_on_malformed_text_witness :
  QueryAPI.compute_search malformed_dataset "button" = None.
Proof.
  apply (search_fails_on_malformed_text malformed_dataset "card"
           (VObj [("title", VArr [VStr "Card"])])).
  - right. left. reflexivity.
  - discriminate.
  - left. exact I.
Defined.



Module FilterFacts.
Import JS ObjectFacts.

Section Filter.
Context {V : Type}.
Implicit Types (o l : list (string * V)) (p : string * V -> bool).

Lemma fold_filter_assign p l : forall acc,
  fold_left (fun o kv => if p kv then obj_define (fst kv) (snd kv) o else o) l acc
  = Object_spread acc (List.filter p l).
Proof.
  unfold Object_spread. induction l as [|kv l IH]; simpl; intros acc; [reflexivity|].
  rewrite IH. destruct (p kv); reflexivity.
Qed.







End Filter.

End FilterFacts.



(** ** The memoization, for every endpoint *)

Module MemoFacts.
Import JS QueryAPI.

(** A function of the query is memoized soundly in a map when every entry
    under the key of a query other than [all] is the value of the function
    for that query. *)
Definition sound_for {T : Type} (key_of : option string -> string)
    (compute : option string -> option T) (m : gmap string T) : Prop :=
  forall q r, given q <> Some "all" -> m !! key_of q = Some r -> compute q = Some r.

Lemma components_key_inj q q0 :
  given q <> Some "all" -> given q0 <> Some "all" ->
  components_key q = components_key q0 -> given q = given q0.
Proof.
  unfold components_key. destruct (given q) as [a|], (given q0) as [b|];
    simpl; intros Ha Hb H; try injection H as H; subst; congruence.
Qed.

Lemma tokens_key_inj q q0 :
  given q <> Some "all" -> given q0 <> Some "all" ->
  tokens_key q = tokens_key q0 -> given q = given q0.
Proof.
  unfold tokens_key. destruct (given q) as [a|], (given q0) as [b|];
    simpl; intros Ha Hb H; try injection H as H; subst; congruence.
Qed.

Lemma compute_components_given data q q0 :
  given q = given q0 -> compute_components data q = compute_components data q0.
Proof. unfold compute_components. intros ->. reflexivity. Qed.

Lemma compute_tokens_given data q q0 :
  given q = given q0 -> compute_tokens data q = compute_tokens data q0.
Proof. unfold compute_tokens. intros ->. reflexivity. Qed.

Section Memo.
Context {T : Type}.
Variable key_of : option string -> string.
Variable compute : option string -> option T.
Hypothesis key_determines :
  forall q q0, given q <> Some "all" -> given q0 <> Some "all" ->
               key_of q = key_of q0 -> compute q = compute q0.

Lemma sound_insert m q0 r :
  sound_for key_of compute m -> given q0 <> Some "all" -> compute q0 = Some r ->
  sound_for key_of compute (<[key_of q0 := r]> m).
Proof.
  intros Hm Hq0 Hr q r' Hq.
  destruct (decide (key_of q0 = key_of q)) as [Heq|Hne].
  - rewrite Heq, lookup_insert_eq. intros H. injection H as <-.
    rewrite (key_determines q q0 Hq Hq0 (eq_sym Heq)). assumption.
  - rewrite lookup_insert_ne by assumption. apply Hm. assumption.
Qed.

(** Memoized or not, the result is the value of the function. *)
Lemma getCachedOrCompute_transparent m ts now q :
  sound_for key_of compute m -> given q <> Some "all" ->
  match getCachedOrCompute m ts now (key_of q) (compute q) with
  | Some (r, m', _) => compute q = Some r /\ sound_for key_of compute m'
  | None => compute q = None
  end.
Proof.
  intros Hm Hq. unfold getCachedOrCompute.
  destruct (m !! key_of q) as [cached|] eqn:E.
  - rewrite (Hm q cached Hq E). destruct (isCacheValid ts now (key_of q)).
    + auto.
    + split; [reflexivity|]. apply sound_insert; auto.
  - destruct (compute q) as [r|] eqn:Er; [|reflexivity].
    split; [reflexivity|]. apply sound_insert; auto.
Qed.
End Memo.

Definition sound (data : list (string * value)) (c : cache) : Prop :=
  sound_for components_key (compute_components data) (components c) /\
  sound_for tokens_key (compute_tokens data) (tokens_cache c) /\
  CacheFacts.search_sound data c.

(** A request that does not filter the components or the tokens by the
    word [all] *)
Definition no_all (r : request) : Prop :=
  match r with
  | GET_components q | GET_tokens q => given q <> Some "all"
  | _ => True
  end.

(** What a request is to be answered with: the value of its compute
    function, and status 500 when that throws. *)
Definition answer (data : list (string * value)) (r : request) : response :=
  match r with
  | GET_components q =>
      match compute_components data q with Some x => Components x | None => InternalError end
  | GET_component name section => get_component data name section
  | GET_tokens q =>
      match compute_tokens data q with Some x => Tokens x | None => InternalError end
  | GET_search q => CacheFacts.search_answer data q
  | POST_cache_clear => Cleared
  end.

Lemma sound_empty data : sound data empty_cache.
Proof.
  split; [|split].
  - intros q r _. simpl. rewrite lookup_empty. discriminate.
  - intros q r _. simpl. rewrite lookup_empty. discriminate.
  - apply CacheFacts.search_sound_empty.
Qed.

Lemma handle_transparent data now c r :
  sound data c -> no_all r ->
  snd (handle data now c r) = answer data r /\ sound data (fst (handle data now c r)).
Proof.
  intros [Hc [Ht Hs]] Hr.
  destruct r as [q|name section|q|q|]; cbn [handle answer no_all] in *.
  - unfold get_components.
    assert (H := getCachedOrCompute_transparent components_key (compute_components data)
                   (fun a b Ha Hb Hk => compute_components_given data a b
                                          (components_key_inj a b Ha Hb Hk))
                   (components c) (timestamps c) now q Hc Hr).
    destruct (getCachedOrCompute _ _ _ _ _) as [[[x m] ts]|]; cbn [fst snd].
    + destruct H as [-> H]. repeat split; assumption.
    + rewrite H. repeat split; assumption.
  - repeat split; assumption.
  - unfold get_tokens.
    assert (H := getCachedOrCompute_transparent tokens_key (compute_tokens data)
                   (fun a b Ha Hb Hk => compute_tokens_given data a b
                                          (tokens_key_inj a b Ha Hb Hk))
                   (tokens_cache c) (timestamps c) now q Ht Hr).
    destruct (getCachedOrCompute _ _ _ _ _) as [[[x m] ts]|]; cbn [fst snd].
    + destruct H as [-> H]. repeat split; assumption.
    + rewrite H. repeat split; assumption.
  - destruct (CacheFacts.get_search_transparent data now c q Hs) as [H1 H2].
    split; [assumption|]. split; [|split]; [| |assumption].
    + unfold get_search. destruct (getCachedOrCompute _ _ _ _ _) as [[[x m] ts]|]; assumption.
    + unfold get_search. destruct (getCachedOrCompute _ _ _ _ _) as [[[x m] ts]|]; assumption.
  - split; [reflexivity | apply sound_empty].
Qed.

Lemma serve_transparent data rs : forall c,
  sound data c -> Forall (fun req => no_all (snd req)) rs ->
  snd (serve data c rs) = map (fun req => answer data (snd req)) rs.
Proof.
  induction rs as [|[now r] rs IH]; intros c Hc Hrs; simpl; [reflexivity|].
  inversion Hrs as [|? ? Hr Hrs']; subst. simpl in Hr.
  destruct (handle_transparent data now c r Hc Hr) as [Hout Hc'].
  destruct (handle data now c r) as [c' out]. simpl in *.
  specialize (IH c' Hc' Hrs'). destruct (serve data c' rs) as [c'' outs]. simpl in *.
  congruence.
Qed.

(** *** The time stamps *)

(** A result that [getCachedOrCompute] returns is the entry of its key,
    and the time stamp of the entry is less than [ttl] before the time of
    the request. *)
Lemma getCachedOrCompute_fresh {T : Type} (m : gmap string T) ts now key f r m' ts' :
  getCachedOrCompute m ts now key f = Some (r, m', ts') ->
  m' !! key = Some r /\
  exists t, ts' !! key = Some t /\ (now - t < ttl)%Z.
Proof.
  unfold getCachedOrCompute, isCacheValid.
  assert (Hnew : forall x, (<[key := x]> m) !! key = Some x /\
                           exists t, (<[key := now]> ts) !! key = Some t /\ (now - t < ttl)%Z).
  { intros x. rewrite !lookup_insert_eq. split; [reflexivity|].
    exists now. split; [reflexivity|]. unfold ttl. lia. }
  destruct (m !! key) as [cached|] eqn:E.
  - destruct (ts !! key) as [t|] eqn:Et.
    + destruct (t =? 0)%Z.
      * destruct f as [x|]; [|discriminate]. intros H. injection H as <- <- <-. apply Hnew.
      * destruct (now - t <? ttl)%Z eqn:Hlt.
        -- intros H. injection H as <- <- <-. split; [assumption|].
           exists t. split; [assumption|]. apply Z.ltb_lt. assumption.
        -- destruct f as [x|]; [|discriminate]. intros H. injection H as <- <- <-. apply Hnew.
    + destruct f as [x|]; [|discriminate]. intros H. injection H as <- <- <-. apply Hnew.
  - destruct f as [x|]; [|discriminate]. intros H. injection H as <- <- <-. apply Hnew.
Qed.

(** *** Every entry has a time stamp *)

Definition stamped (c : cache) : Prop :=
  dom (timestamps c) = dom (components c) ∪ dom (tokens_cache c) ∪ dom (search c) /\
  (forall k, k ∈ dom (components c) -> exists q, k = components_key q) /\
  (forall k, k ∈ dom (tokens_cache c) -> exists q, k = tokens_key q) /\
  (forall k, k ∈ dom (search c) -> exists q, k = search_key q).

Lemma getCachedOrCompute_dom {T : Type} (m : gmap string T) ts now key f r m' ts' :
  getCachedOrCompute m ts now key f = Some (r, m', ts') ->
  (m' = m /\ ts' = ts) \/ (dom m' = {[key]} ∪ dom m /\ dom ts' = {[key]} ∪ dom ts).
Proof.
  unfold getCachedOrCompute.
  destruct (m !! key); [destruct (isCacheValid ts now key)|];
    try (intros H; injection H as <- <- <-; left; split; reflexivity);
    (destruct f as [x|]; [|discriminate]; intros H; injection H as <- <- <-;
     right; rewrite !dom_insert_L; split; reflexivity).
Qed.

Lemma stamped_empty : stamped empty_cache.
Proof.
  unfold stamped. simpl. rewrite !dom_empty_L.
  split; [apply set_eq; intros z; rewrite !elem_of_union; tauto|].
  repeat split; intros k Hk; apply elem_of_empty in Hk; contradiction.
Qed.

Lemma handle_stamped data now c r : stamped c -> stamped (fst (handle data now c r)).
Proof.
  intros [Hd [Hc [Ht Hs]]]. destruct r as [q|name section|q|q|]; simpl.
  - unfold get_components.
    destruct (getCachedOrCompute _ _ _ _ _) as [[[x m] ts]|] eqn:E; simpl;
      [|repeat split; assumption].
    apply getCachedOrCompute_dom in E. destruct E as [[-> ->]|[Hm Hts]];
      [repeat split; assumption|].
    unfold stamped. simpl. rewrite Hm, Hts, Hd. split; [apply set_eq; intros z; rewrite !elem_of_union; tauto|].
    split; [|split; assumption].
    intros k Hk. apply elem_of_union in Hk. destruct Hk as [Hk|Hk]; [|auto].
    apply elem_of_singleton in Hk. subst. eauto.
  - repeat split; assumption.
  - unfold get_tokens.
    destruct (getCachedOrCompute _ _ _ _ _) as [[[x m] ts]|] eqn:E; simpl;
      [|repeat split; assumption].
    apply getCachedOrCompute_dom in E. destruct E as [[-> ->]|[Hm Hts]];
      [repeat split; assumption|].
    unfold stamped. simpl. rewrite Hm, Hts, Hd. split; [apply set_eq; intros z; rewrite !elem_of_union; tauto|].
    split; [assumption|]. split; [|assumption].
    intros k Hk. apply elem_of_union in Hk. destruct Hk as [Hk|Hk]; [|auto].
    apply elem_of_singleton in Hk. subst. eauto.
  - unfold get_search.
    destruct (getCachedOrCompute _ _ _ _ _) as [[[x m] ts]|] eqn:E; simpl;
      [|repeat split; assumption].
    apply getCachedOrCompute_dom in E. destruct E as [[-> ->]|[Hm Hts]];
      [repeat split; assumption|].
    unfold stamped. simpl. rewrite Hm, Hts, Hd. split; [apply set_eq; intros z; rewrite !elem_of_union; tauto|].
    split; [assumption|]. split; [assumption|].
    intros k Hk. apply elem_of_union in Hk. destruct Hk as [Hk|Hk]; [|auto].
    apply elem_of_singleton in Hk. subst. eauto.
  - apply stamped_empty.
Qed.

Lemma serve_stamped data rs : forall c, stamped c -> stamped (fst (serve data c rs)).
Proof.
  induction rs as [|[now r] rs IH]; intros c Hc; simpl; [assumption|].
  assert (Hc' := handle_stamped data now c r Hc).
  destruct (handle data now c r) as [c' out]. simpl in *.
  specialize (IH c' Hc'). destruct (serve data c' rs) as [c'' outs]. assumption.
Qed.

Lemma keys_apart qc qt qs :
  components_key qc <> tokens_key qt /\ components_key qc <> search_key qs /\
  tokens_key qt <> search_key qs.
Proof.
  unfold components_key, tokens_key, search_key.
  destruct (given qc), (given qt); simpl; repeat split; discriminate.
Qed.

Lemma stamped_total c : stamped c -> totalEntries c = size (timestamps c).
Proof.
  intros [Hd [Hc [Ht Hs]]]. unfold totalEntries.
  rewrite <- !size_dom, Hd.
  rewrite !size_union; [reflexivity| |].
  - intros k Hk1 Hk2. destruct (Hc k Hk1) as [qc ->]. destruct (Ht _ Hk2) as [qt Heq].
    destruct (keys_apart qc qt "") as [H _]. contradiction.
  - intros k Hk1 Hk2. destruct (Hs k Hk2) as [qs ->].
    apply elem_of_union in Hk1. destruct Hk1 as [Hk1|Hk1].
    + destruct (Hc _ Hk1) as [qc Heq]. destruct (keys_apart qc None qs) as [_ [H _]]. congruence.
    + destruct (Ht _ Hk1) as [qt Heq]. destruct (keys_apart None qt qs) as [_ [_ H]]. congruence.
Qed.

End MemoFacts.

(** X7: the memoization is transparent as long as no request filters the
    components or the tokens by the word [all]: whatever the times of the
    requests, every response is the value of the compute function of its
    endpoint for its own query (status 500 when that throws), be it
    computed, taken from the cache, or recomputed after expiry or after
    [POST /cache/clear]. *)
Theorem memoization_transparent_without_all (data : list (string * value))
    (rs : list (Z * QueryAPI.request)) :
  Forall (fun req => MemoFacts.no_all (snd req)) rs ->
  snd (QueryAPI.serve data QueryAPI.empty_cache rs)
  = map (fun req => MemoFacts.answer data (snd req)) rs.
Proof. apply MemoFacts.serve_transparent, MemoFacts.sound_empty. Qed.

Lemma memoization_transparent_without_all_witness :
  snd (QueryAPI.serve small_dataset QueryAPI.empty_cache
         [(1000%Z, QueryAPI.GET_components (Some "card"));
          (2000%Z, QueryAPI.GET_components (Some "card"));
          (2500%Z, QueryAPI.POST_cache_clear);
          (400000%Z, QueryAPI.GET_tokens None)])
  = map (fun req => MemoFacts.answer small_dataset (snd req))
      [(1000%Z, QueryAPI.GET_components (Some "card"));
       (2000%Z, QueryAPI.GET_components (Some "card"));
       (2500%Z, QueryAPI.POST_cache_clear);
       (400000%Z, QueryAPI.GET_tokens None)].
Proof.
  apply memoization_transparent_without_all.
  repeat constructor; simpl; discriminate.
Defined.

(** X8: every memoized entry has a time stamp and every time stamp
    belongs to a memoized entry, whatever requests were served; the keys of
    the three maps never coincide, so the [totalEntries] of
    [GET /cache/stats] is the number of time stamps. *)
Theorem cache_entries_stamped (data : list (string * value))
    (rs : list (Z * QueryAPI.request)) :
  let c := fst (QueryAPI.serve data QueryAPI.empty_cache rs) in
  dom (QueryAPI.timestamps c)
  = dom (QueryAPI.components c) ∪ dom (QueryAPI.tokens_cache c) ∪ dom (QueryAPI.search c) /\
  QueryAPI.totalEntries c = size (QueryAPI.timestamps c).
Proof.
  intros c.
  assert (H : MemoFacts.stamped c)
    by (apply MemoFacts.serve_stamped, MemoFacts.stamped_empty).
  split; [apply H | apply MemoFacts.stamped_total, H].
Qed.

(** X9: a memoized endpoint never answers from an entry older than five
    minutes: when it answers, the cache holds the result under the key of
    the request, with a time stamp less than [ttl] before the time of the
    request. *)
Theorem served_entries_fresh (data : list (string * value)) (now : Z)
    (c : QueryAPI.cache) :
  (forall q c' r,
     QueryAPI.handle data now c (QueryAPI.GET_components q) = (c', QueryAPI.Components r) ->
     QueryAPI.components c' !! QueryAPI.components_key q = Some r /\
     exists t, QueryAPI.timestamps c' !! QueryAPI.components_key q = Some t /\
               (now - t < 300000)%Z) /\
  (forall q c' r,
     QueryAPI.handle data now c (QueryAPI.GET_tokens q) = (c', QueryAPI.Tokens r) ->
     QueryAPI.tokens_cache c' !! QueryAPI.tokens_key q = Some r /\
     exists t, QueryAPI.timestamps c' !! QueryAPI.tokens_key q = Some t /\
               (now - t < 300000)%Z) /\
  (forall q c' r,
     QueryAPI.handle data now c (QueryAPI.GET_search q) = (c', QueryAPI.Search r) ->
     QueryAPI.search c' !! QueryAPI.search_key q = Some r /\
     exists t, QueryAPI.timestamps c' !! QueryAPI.search_key q = Some t /\
               (now - t < 300000)%Z).
Proof.
  change 300000%Z with QueryAPI.ttl.
  split; [|split]; intros q c' r; simpl.
  - unfold QueryAPI.get_components.
    destruct (QueryAPI.getCachedOrCompute _ _ _ _ _) as [[[x m] ts]|] eqn:E; [|discriminate].
    intros H. injection H as <- <-. simpl. eapply MemoFacts.getCachedOrCompute_fresh, E.
  - unfold QueryAPI.get_tokens.
    destruct (QueryAPI.getCachedOrCompute _ _ _ _ _) as [[[x m] ts]|] eqn:E; [|discriminate].
    intros H. injection H as <- <-. simpl. eapply MemoFacts.getCachedOrCompute_fresh, E.
  - unfold QueryAPI.get_search.
    destruct (QueryAPI.getCachedOrCompute _ _ _ _ _) as [[[x m] ts]|] eqn:E; [|discriminate].
    intros H. injection H as <- <-. simpl. eapply MemoFacts.getCachedOrCompute_fresh, E.
Qed.

Lemma served_entries_fresh_witness :
  exists t, QueryAPI.timestamps
              (fst (QueryAPI.handle small_dataset 1000 QueryAPI.empty_cache
                      (QueryAPI.GET_search "card")))
            !! QueryAPI.search_key "card" = Some t /\ (1000 - t < 300000)%Z.
Proof.
  destruct (QueryAPI.handle small_dataset 1000 QueryAPI.empty_cache
              (QueryAPI.GET_search "card")) as [c' out] eqn:E.
  destruct out as [| | |r| | | |]; try (vm_compute in E; discriminate E).
  apply (proj2 (proj2 (served_entries_fresh small_dataset 1000 QueryAPI.empty_cache))
           "card" c' r E).
Defined.

(** ** From a listing to the record *)

Module FetchFacts.
Import JS Dataset.

Lemma prefix_app (a b : string) : String.prefix a (a ++ b) = true.
Proof.
  induction a as [|c a IH]; simpl; [destruct b; reflexivity|].
  destruct (ascii_dec c c); [assumption | congruence].
Qed.

Lemma drop_app (a b : string) : ToolServer.drop (String.length a) (a ++ b) = b.
Proof. induction a as [|c a IH]; simpl; [destruct b; reflexivity | assumption]. Qed.

Lemma remove_first_app (a b : string) : ToolServer.remove_first a (a ++ b) = b.
Proof.
  assert (H : forall s, String.prefix a s = true ->
                        ToolServer.remove_first a s = ToolServer.drop (String.length a) s).
  { intros s Hs. destruct s; cbn [ToolServer.remove_first]; rewrite Hs; reflexivity. }
  rewrite H by apply prefix_app. apply drop_app.
Qed.

(** The record that a lookup by name yields: the one under the lowercased
    name when it is truthy, else the one under the name as given. *)
Definition looked_up (data : list (string * value)) (name : string) : option value :=
  js_or (obj_read (toLowerCase name) data) (obj_read name data).

(** The name is in lower case, or the read under the lowercased name finds
    nothing truthy, neither a key nor a property of [Object.prototype]. *)
Definition read_as_given (data : list (string * value)) (name : string) : Prop :=
  toLowerCase name = name \/
  (truthy_opt (obj_get (toLowerCase name) data) = false /\
   ~ In (toLowerCase name) Object_prototype).

Lemma looked_up_truthy data name v :
  obj_get name data = Some v -> truthy v = true ->
  exists comp, looked_up data name = Some comp /\ truthy comp = true /\
               (read_as_given data name -> comp = v).
Proof.
  intros Hv Ht. unfold looked_up, js_or, read_as_given.
  rewrite (ObjectFacts.obj_read_get _ _ _ Hv).
  destruct (obj_read (toLowerCase name) data) as [low|] eqn:El; simpl.
  - destruct (truthy low) eqn:Hl.
    + exists low. split; [reflexivity|]. split; [assumption|].
      intros [H|[H Hp]].
      * rewrite H, (ObjectFacts.obj_read_get _ _ _ Hv) in El. congruence.
      * rewrite (ObjectFacts.obj_read_own _ data (ObjectFacts.inherited_false _ Hp)) in El.
        rewrite El in H. simpl in H. congruence.
    + exists v. auto.
  - exists v. auto.
Qed.

Lemma read_component data name :
  ToolServer.ReadResource data (ToolServer.component_uri ++ name) =
  match looked_up data name with
  | Some comp =>
      if truthy comp then ToolServer.Returned comp
      else ToolServer.Thrown ("Component '" ++ name ++ "' not found")
  | None => ToolServer.Thrown ("Component '" ++ name ++ "' not found")
  end.
Proof.
  unfold ToolServer.ReadResource.
  replace (String.eqb (ToolServer.component_uri ++ name) ToolServer.tokens_uri) with false
    by reflexivity.
  rewrite prefix_app, remove_first_app. reflexivity.
Qed.

Lemma section_of_truthy (comp : value) (k : string) :
  In k (Object_keys (entries (or_empty (Some comp)))) ->
  is_object (get_opt (Some comp) k) = true ->
  truthy comp = true /\ In k (Object_keys (entries comp)) /\
  exists part, get_prop comp k = Some part /\ truthy part = true /\
               is_object (get_prop comp k) = true.
Proof.
  unfold or_empty. destruct (truthy comp) eqn:Ht; [|contradiction].
  intros Hin Hobj. split; [reflexivity|]. split; [assumption|].
  destruct comp; try discriminate; simpl in Hobj |- *;
    match type of Hobj with
    | is_object ?x = true =>
        destruct x as [[]|] eqn:E; try discriminate; eexists; repeat split;
        first [reflexivity | exact Hobj]
    end.
Qed.

(** An own property is what a read through the prototype chain finds. *)
Lemma get_member_own (comp : value) (k : string) (part : value) :
  In k (Object_keys (entries comp)) -> get_prop comp k = Some part ->
  get_member comp k = Found part.
Proof.
  destruct comp; simpl; try contradiction; intros _ H.
  - rewrite H. reflexivity.
  - rewrite H. reflexivity.
  - unfold obj_read. rewrite H. reflexivity.
Qed.

End FetchFacts.

(** X10: every resource that [ListResources] lists can be read when the
    records of the dataset are truthy. The resource of the tokens reads as
    the token map, the empty object when there is none; the resource of a
    component reads as what the tool [get_component] and
    [GET /mcp/component/:name] return for its name: the record of the
    component itself when its name is in lower case, or when the read
    under the lowercased name finds nothing truthy, neither a key nor a
    property of [Object.prototype]. *)
Theorem listed_resources_readable (Number_toString : spec_float -> string)
    (data : list (string * value)) (r : ToolServer.resource) :
  (forall key v, obj_get key data = Some v -> truthy v = true) ->
  In r (ToolServer.ListResources Number_toString data) ->
  (ToolServer.uri r = ToolServer.tokens_uri /\
   ToolServer.ReadResource data (ToolServer.uri r)
   = ToolServer.Returned (or_empty (obj_get "_tokens" data))) \/
  exists name own comp,
    ToolServer.uri r = ToolServer.component_uri ++ name /\
    name <> "_tokens" /\ obj_get name data = Some own /\
    truthy comp = true /\
    ToolServer.ReadResource data (ToolServer.uri r) = ToolServer.Returned comp /\
    ToolServer.getComponent data name = ToolServer.Returned comp /\
    QueryAPI.get_component data name None = QueryAPI.Value comp /\
    (toLowerCase name = name \/
     (truthy_opt (obj_get (toLowerCase name) data) = false /\
      ~ In (toLowerCase name) Object_prototype) ->
     comp = own).
Proof.
  intros Hdata Hin. unfold ToolServer.ListResources in Hin.
  apply in_app_or in Hin. destruct Hin as [Hin|[<-|[]]].
  - right. apply in_map_iff in Hin. destruct Hin as [name [<- Hname]].
    apply QueryFacts.In_component_keys in Hname. destruct Hname as [Hkey Hne].
    apply ObjectFacts.In_keys_obj_get in Hkey. destruct Hkey as [own Hown].
    destruct (FetchFacts.looked_up_truthy data name own Hown (Hdata _ _ Hown))
      as [comp [Hc [Ht Heq]]].
    exists name, own, comp. cbn [ToolServer.uri].
    rewrite FetchFacts.read_component.
    unfold ToolServer.getComponent, QueryAPI.get_component.
    fold (FetchFacts.looked_up data name). rewrite Hc, Ht. simpl.
    repeat split; auto.
  - left. split; reflexivity.
Qed.

Definition constructor_dataset : list (string * value) :=
  [("Constructor", VObj [("title", VStr "Constructor")]);
   ("card", VObj [("examples", VArr [])])].

Lemma listed_resources_readable_witness :
  ToolServer.ReadResource constructor_dataset "primevue://component/card"
  = ToolServer.Returned (VObj [("examples", VArr [])]).
Proof.
  assert (Hdata : forall key v, obj_get key constructor_dataset = Some v -> truthy v = true).
  { intros key v. unfold constructor_dataset. cbn [obj_get].
    repeat match goal with
           | |- context [String.eqb ?a key] => destruct (String.eqb a key)
           end; intros H; try discriminate H; injection H as <-; reflexivity. }
  destruct (listed_resources_readable (fun _ => "0") constructor_dataset
              {| ToolServer.uri := "primevue://component/card";
                 ToolServer.resource_name := "PrimeVue card";
                 ToolServer.resource_description := VStr "PrimeVue card component";
                 ToolServer.mimeType := "application/json" |} Hdata)
    as [[Huri _]|[name [own [comp [Huri [_ [Hown [_ [Hread [_ [_ Heq]]]]]]]]]]].
  - right. left. reflexivity.
  - discriminate Huri.
  - cbn [ToolServer.uri] in Huri, Hread. injection Huri as <-.
    rewrite Hread. rewrite (Heq (or_introl eq_refl)).
    injection Hown as <-. reflexivity.
Defined.

(** The component [Constructor] is listed, and its resource does not read
    as its record: the read under the lowercased name finds the
    constructor that every object inherits. *)
Example inherited_name_shadows :
  ToolServer.ReadResource constructor_dataset "primevue://component/Constructor"
  = ToolServer.Returned (VNative "constructor").
Proof. reflexivity. Qed.

(** X11: a section that the summary of a component lists is served by
    [GET /mcp/component/:name?section=] when its name is in lower case.
    The request lowercases the name of the section: a listed section whose
    lowercased name is no property of the record, neither its own nor one
    of [Object.prototype], is answered with status 404, in a response that
    lists the section among the available ones. The component is one whose
    record the dataset yields for its key: the key is in lower case, or the
    read under the lowercased key finds nothing truthy. *)
Theorem listed_sections_served (data : list (string * value)) (key section : string) :
  In section (QueryAPI.sections (QueryAPI.summarize data key)) ->
  section <> "" ->
  toLowerCase key = key \/
  (truthy_opt (obj_get (toLowerCase key) data) = false /\
   ~ In (toLowerCase key) Object_prototype) ->
  exists comp part,
    obj_get key data = Some comp /\ get_prop comp section = Some part /\
    (toLowerCase section = section ->
     QueryAPI.get_component data key (Some section) = QueryAPI.Value part) /\
    (get_member comp (toLowerCase section) = Undefined ->
     exists error available,
       QueryAPI.get_component data key (Some section) = QueryAPI.NotFound error available /\
       In section available).
Proof.
  intros Hin Hne Hkey. unfold QueryAPI.summarize in Hin. cbn [QueryAPI.sections] in Hin.
  apply filter_In in Hin. destruct Hin as [Hk Hobj].
  apply andb_prop in Hobj. destruct Hobj as [_ Hobj].
  destruct (obj_get key data) as [comp|] eqn:Ec; [|contradiction].
  destruct (FetchFacts.section_of_truthy comp section Hk Hobj)
    as [Ht [Hk' [part [Hpart [Htp Hop]]]]].
  destruct (FetchFacts.looked_up_truthy data key comp Ec Ht) as [comp' [Hc [_ Heq]]].
  rewrite (Heq Hkey) in Hc. clear comp' Heq.
  exists comp, part. split; [reflexivity|]. split; [assumption|].
  unfold QueryAPI.get_component. fold (FetchFacts.looked_up data key). rewrite Hc, Ht.
  assert (Hg : QueryAPI.given (Some section) = Some section)
    by (destruct section; [congruence | reflexivity]).
  rewrite Hg. split.
  - intros ->. rewrite (FetchFacts.get_member_own comp section part Hk' Hpart), Htp.
    reflexivity.
  - intros ->. unfold QueryAPI.section_not_found. eexists. eexists.
    split; [reflexivity|]. apply filter_In. auto.
Qed.

Definition sections_dataset : list (string * value) :=
  [("tabs", VObj [("title", VStr "Tabs");
                  ("slots", VObj [("default", VStr "content")]);
                  ("emitsOptions", VArr [VStr "change"])])].

Lemma listed_sections_served_witness :
  QueryAPI.get_component sections_dataset "tabs" (Some "slots")
  = QueryAPI.Value (VObj [("default", VStr "content")]) /\
  exists error available,
    QueryAPI.get_component sections_dataset "tabs" (Some "emitsOptions")
    = QueryAPI.NotFound error available /\ In "emitsOptions" available.
Proof.
  split.
  - destruct (listed_sections_served sections_dataset "tabs" "slots")
      as [comp [part [Hc [Hp [H _]]]]].
    + simpl. auto.
    + discriminate.
    + left. reflexivity.
    + rewrite (H eq_refl). injection Hc as <-. injection Hp as <-. reflexivity.
  - destruct (listed_sections_served sections_dataset "tabs" "emitsOptions")
      as [comp [part [Hc [Hp [_ H]]]]].
    + simpl. auto.
    + discriminate.
    + left. reflexivity.
    + apply H. injection Hc as <-. reflexivity.
Defined.

(** ** The shape of the extracted signals *)

Module SignalFacts.
Import JS RegExp StringFacts RegExpFacts ExtractLogic.

Definition vue_features : list string :=
  ["ref"; "reactive"; "computed"; "watch"; "onMounted"; "onUnmounted"].

(** [use], an upper-case letter, and one word character or more *)
Definition composable_name (m : string) : Prop :=
  exists c w, m = "use" ++ String c w /\ is_upper c = true /\ w <> "" /\
              every is_word w = true.

(** A word that is not reserved *)
Definition method_name (m : string) : Prop :=
  m <> "" /\ every is_word m = true /\ m <> "setup" /\ m <> "render".

(** The content of a string literal: not empty, no line break *)
Definition event_name (e : option string) : Prop :=
  exists body, e = Some body /\ body <> "" /\ every is_dot body = true.

Lemma word_no_space c : is_word c = true -> is_space c = false.
Proof.
  destruct c as [[] [] [] [] [] [] [] []]; intros H; try reflexivity; discriminate H.
Qed.

Lemma word_no_paren c : is_word c = true -> Ascii.eqb c "(" = false.
Proof.
  destruct c as [[] [] [] [] [] [] [] []]; intros H; try reflexivity; discriminate H.
Qed.

Lemma space_no_paren c : is_space c = true -> Ascii.eqb c "(" = false.
Proof.
  destruct c as [[] [] [] [] [] [] [] []]; intros H; try reflexivity; discriminate H.
Qed.

Lemma trimEnd_spaces sp : every is_space sp = true -> trimEnd sp = "".
Proof.
  induction sp as [|c sp IH]; simpl; [reflexivity|].
  intros H. apply andb_prop in H. destruct H as [Hc H]. rewrite (IH H), Hc. reflexivity.
Qed.

Lemma trimEnd_word w sp :
  every is_word w = true -> every is_space sp = true -> trimEnd (w ++ sp) = w.
Proof.
  intros Hw Hsp. induction w as [|c w IH]; [apply trimEnd_spaces, Hsp|].
  simpl in Hw. apply andb_prop in Hw. destruct Hw as [Hc Hw].
  change (String c w ++ sp) with (String c (w ++ sp)). cbn [trimEnd].
  rewrite (IH Hw). destruct w; [rewrite (word_no_space c Hc)|]; reflexivity.
Qed.

Lemma trim_word c w sp :
  every is_word (String c w) = true -> every is_space sp = true ->
  trim (String c w ++ sp) = String c w.
Proof.
  intros Hw Hsp. unfold trim.
  assert (Hc : is_space c = false)
    by (simpl in Hw; apply andb_prop in Hw; apply word_no_space; tauto).
  change (String c w ++ sp) with (String c (w ++ sp)). cbn [trimStart]. rewrite Hc.
  apply (trimEnd_word (String c w) sp Hw Hsp).
Qed.

Lemma split_head_app sep a rest :
  every (fun c => negb (Ascii.eqb c sep)) a = true ->
  split_head sep (a ++ String sep rest) = a.
Proof.
  induction a as [|c a IH]; simpl; intros H.
  - rewrite Ascii.eqb_refl. reflexivity.
  - apply andb_prop in H. destruct H as [Hc H].
    destruct (Ascii.eqb c sep); [discriminate|]. rewrite (IH H). reflexivity.
Qed.

Lemma every_impl (p q : ascii -> bool) s :
  (forall c, p c = true -> q c = true) -> every p s = true -> every q s = true.
Proof.
  intros Hpq. induction s as [|c s IH]; simpl; [reflexivity|].
  intros H. apply andb_prop in H. destruct H as [Hc H]. rewrite (Hpq c Hc), (IH H). reflexivity.
Qed.

(** *** The matches of the four patterns *)

Lemma match_at_composable prev s m g :
  match_at re_composable prev s = Some (m, g) -> composable_name m.
Proof.
  unfold match_at, re_composable. cbn [sequence exec].
  destruct (lit "use" prev s) as [[p1 s1]|] eqn:E; [|discriminate].
  apply lit_inv in E. subst s.
  destruct s1 as [|c s2]; [discriminate|].
  destruct (is_upper c) eqn:Hc; [|discriminate].
  destruct s2 as [|b s3]; [discriminate|].
  destruct (is_word b) eqn:Hb; [|discriminate].
  destruct (greedy _ _ _ _) as [[s5 g']|] eqn:G; [|discriminate].
  intros H. injection H as <- <-.
  apply greedy_sound in G. destruct G as [a [tail [prev' [-> [Ha G]]]]].
  injection G as <- _.
  exists c, (String b a). split; [|split; [assumption|split; [discriminate|]]].
  - transitivity (consumed (("use" ++ String c (String b a)) ++ tail) tail);
      [simpl; reflexivity | apply consumed_app].
  - simpl. rewrite Hb, Ha. reflexivity.
Qed.

Lemma match_at_vueImport prev s m g :
  match_at re_vueImport prev s = Some (m, g) -> In m vue_features.
Proof.
  unfold match_at, re_vueImport. cbn [sequence choice exec].
  destruct (xorb (word_at prev) (word_at (first_char s))); [|discriminate].
  assert (Hlit : forall l p' s', lit l prev s = Some (p', s') -> consumed s s' = l).
  { intros l p' s' H. apply lit_inv in H. subst s. apply consumed_app. }
  unfold vue_features.
  repeat match goal with
         | |- context [lit ?l prev s] =>
             let E := fresh "E" in
             destruct (lit l prev s) as [[? ?]|] eqn:E;
             [apply Hlit in E;
              match goal with
              | |- context [xorb ?a ?b] => destruct (xorb a b)
              end|]
         end;
    intros H; try discriminate H; injection H as <- <-;
    repeat match goal with E : consumed _ _ = _ |- _ => rewrite E; clear E end;
    simpl; tauto.
Qed.

Lemma match_at_method prev s m g :
  match_at re_method prev s = Some (m, g) ->
  exists c w sp rest,
    every is_word (String c w) = true /\ every is_space sp = true /\
    m = (String c w ++ sp) ++ String "(" rest.
Proof.
  unfold match_at, re_method. cbn [sequence exec].
  destruct (xorb (word_at prev) (word_at (first_char s))); [|discriminate].
  destruct s as [|c s1]; [discriminate|].
  destruct (is_word c) eqn:Hc; [|discriminate].
  destruct (greedy _ _ _ _) as [[s' g']|] eqn:G; [|discriminate].
  intros H. injection H as <- <-.
  apply greedy_sound in G. destruct G as [w [t1 [p1 [-> [Hw G]]]]].
  apply greedy_sound in G. destruct G as [sp [t2 [p2 [-> [Hsp G]]]]].
  destruct (lit "(" p2 t2) as [[p3 t3]|] eqn:E; [|discriminate].
  apply lit_inv in E. subst t2.
  apply greedy_sound in G. destruct G as [args [t4 [p4 [-> [_ G]]]]].
  destruct (lit ")" p4 t4) as [[p5 t5]|] eqn:E; [|discriminate].
  apply lit_inv in E. subst t4.
  apply greedy_sound in G. destruct G as [sp2 [t6 [p6 [-> [_ G]]]]].
  destruct (lit "{" p6 t6) as [[p7 t7]|] eqn:E; [|discriminate].
  apply lit_inv in E. subst t6.
  apply greedy_sound in G. destruct G as [body [t8 [p8 [-> [_ G]]]]].
  destruct (lit "}" p8 t8) as [[p9 t9]|] eqn:E; [|discriminate].
  apply lit_inv in E. subst t8. injection G as <- _.
  exists c, w, sp, (args ++ ")" ++ sp2 ++ "{" ++ body ++ "}").
  split; [simpl; rewrite Hc, Hw; reflexivity|]. split; [assumption|].
  transitivity (consumed (((String c w ++ sp) ++ String "(" (args ++ ")" ++ sp2 ++ "{" ++ body ++ "}"))
                          ++ t9) t9); [|apply consumed_app].
  f_equal. simpl. f_equal. rewrite !app_assoc. simpl. f_equal. f_equal.
  rewrite !app_assoc. simpl. f_equal. f_equal. rewrite !app_assoc. simpl.
  f_equal. f_equal. rewrite !app_assoc. reflexivity.
Qed.

Lemma method_of_match c w sp rest :
  every is_word (String c w) = true -> every is_space sp = true ->
  trim (split_head "(" ((String c w ++ sp) ++ String "(" rest)) = String c w.
Proof.
  intros Hw Hsp. rewrite split_head_app.
  - apply trim_word; assumption.
  - rewrite every_app. apply andb_true_intro. split.
    + eapply every_impl; [|exact Hw]. intros a Ha. rewrite (word_no_paren a Ha). reflexivity.
    + eapply every_impl; [|exact Hsp]. intros a Ha. rewrite (space_no_paren a Ha). reflexivity.
Qed.

Lemma match_at_emit_shape prev s m g :
  match_at re_emit prev s = Some (m, g) ->
  exists q1 body q2,
    LogicFacts.is_quote q1 = true /\ LogicFacts.is_quote q2 = true /\
    body <> "" /\ every is_dot body = true /\ m = LogicFacts.emit_call q1 body q2.
Proof.
  unfold match_at, re_emit. cbn [sequence exec]. fold LogicFacts.is_quote.
  destruct (lit "emit(" prev s) as [[p1 s1]|] eqn:E; [|discriminate].
  apply lit_inv in E. subst s.
  destruct s1 as [|q1 s2]; [discriminate|].
  destruct (LogicFacts.is_quote q1) eqn:Hq1; [|discriminate].
  destruct s2 as [|b s3]; [discriminate|].
  destruct (is_dot b) eqn:Hb; [|discriminate].
  destruct (reluctant _ _ _ _) as [[s5 g']|] eqn:G; [|discriminate].
  intros H. injection H as <- <-.
  apply reluctant_sound in G. destruct G as [a [tail [prev' [-> [Ha G]]]]].
  destruct tail as [|q2 s4]; [discriminate|].
  destruct (LogicFacts.is_quote q2) eqn:Hq2; [|discriminate].
  destruct (lit ")" (Some q2) s4) as [[p5 s5']|] eqn:E; [|discriminate].
  apply lit_inv in E. subst s4. injection G as <- _.
  exists q1, (String b a), q2.
  repeat split; try assumption; try discriminate.
  - simpl. rewrite Hb, Ha. reflexivity.
  - transitivity (consumed (LogicFacts.emit_call q1 (String b a) q2 ++ s5') s5');
      [rewrite LogicFacts.emit_call_app; reflexivity | apply consumed_app].
Qed.

Lemma match_at_quoted_shape prev s m g :
  match_at re_quoted prev s = Some (m, g) -> event_name g.
Proof.
  unfold match_at, re_quoted. cbn [sequence exec]. fold LogicFacts.is_quote.
  destruct s as [|q1 s2]; [discriminate|].
  destruct (LogicFacts.is_quote q1) eqn:Hq1; [|discriminate].
  destruct s2 as [|b s3]; [discriminate|].
  destruct (is_dot b) eqn:Hb; [|discriminate].
  destruct (reluctant _ _ _ _) as [[s5 g']|] eqn:G; [|discriminate].
  intros H. injection H as <- <-.
  apply reluctant_sound in G. destruct G as [a [tail [prev' [-> [Ha G]]]]].
  destruct tail as [|q2 s4]; [discriminate|].
  destruct (LogicFacts.is_quote q2); [|discriminate].
  injection G as _ <-.
  exists (String b a). split; [|split; [discriminate | simpl; rewrite Hb, Ha; reflexivity]].
  f_equal. apply (consumed_app (String b a) (String q2 s4)).
Qed.

Lemma reluctant_complete p k a b r : forall prev,
  every p a = true -> k (last_char a prev) b = Some r ->
  exists r', reluctant p prev (a ++ b) k = Some r'.
Proof.
  induction a as [|c a IH]; intros prev Ha Hr.
  - simpl in *. exists r. destruct b; simpl; rewrite Hr; reflexivity.
  - simpl in Ha. apply andb_prop in Ha. destruct Ha as [Hc Ha].
    change (String c a ++ b) with (String c (a ++ b)). cbn [reluctant].
    destruct (k prev (String c (a ++ b))) as [r0|]; [eauto|].
    rewrite Hc. apply IH; assumption.
Qed.

Lemma search_match_at r m : forall s prev,
  search r prev s = Some m -> exists prev' s', match_at r prev' s' = Some m.
Proof.
  induction s as [|c s IH]; intros prev; cbn [search];
    destruct (match_at r prev _) eqn:E; intros H; try discriminate;
    try (injection H as <-; eauto); eauto.
Qed.

(** The second pattern finds the literal in every match of the first. *)
Lemma quoted_of_emit q1 body q2 :
  LogicFacts.is_quote q1 = true -> LogicFacts.is_quote q2 = true ->
  body <> "" -> every is_dot body = true ->
  exists m g, String_match re_quoted (LogicFacts.emit_call q1 body q2) = Some (m, g).
Proof.
  intros Hq1 Hq2 Hne Hbody. unfold String_match, LogicFacts.emit_call. simpl append.
  do 5 (rewrite LogicFacts.search_skip by (apply LogicFacts.match_at_quoted_none; reflexivity)).
  destruct body as [|b body]; [congruence|].
  simpl in Hbody. apply andb_prop in Hbody. destruct Hbody as [Hb Hbody].
  assert (H : exists m, match_at re_quoted (Some "("%char)
                          (String q1 (String b body ++ String q2 ")")) = Some m).
  { unfold match_at, re_quoted. cbn [sequence exec]. fold LogicFacts.is_quote. rewrite Hq1.
    change (String b body ++ String q2 ")") with (String b (body ++ String q2 ")")).
    cbv iota. rewrite Hb.
    match goal with
    | |- context [reluctant is_dot ?prev (body ++ ?b) ?k] =>
        assert (Hr : exists r', reluctant is_dot prev (body ++ b) k = Some r')
          by (eapply reluctant_complete; [exact Hbody | cbv beta; rewrite Hq2; reflexivity])
    end.
    destruct Hr as [[s' g'] ->]. eauto. }
  destruct H as [[m g] H]. exists m, g. apply search_head, H.
Qed.

End SignalFacts.

(** *** Where the pattern of the events cannot match *)

Module CloseFacts.
Import JS RegExp StringFacts RegExpFacts ExtractLogic.

(** Somewhere in the text a quote is followed at once by a closing
    parenthesis. *)
Fixpoint closes (s : string) : bool :=
  match s with
  | EmptyString => false
  | String c s' =>
      (LogicFacts.is_quote c &&
       match s' with String d _ => Ascii.eqb d ")" | EmptyString => false end)
      || closes s'
  end.

Lemma closes_app a b : closes b = true -> closes (a ++ b) = true.
Proof.
  intros H. induction a as [|c a IH]; [assumption|].
  change (String c a ++ b) with (String c (a ++ b)). cbn [closes].
  rewrite IH. apply orb_true_r.
Qed.

Lemma closes_call q1 body q2 rest :
  LogicFacts.is_quote q2 = true -> closes (LogicFacts.emit_call q1 body q2 ++ rest) = true.
Proof.
  intros Hq2. rewrite LogicFacts.emit_call_app.
  apply (closes_app "emit("). apply (closes_app (String q1 body)).
  cbn [closes append]. rewrite Hq2. reflexivity.
Qed.

(** Every match of a global search is a match at a position of the
    subject. *)
Lemma scan_matches_at r m : forall s prev skip,
  In m (scan r prev s skip) ->
  exists pre prev' s' g, s = pre ++ s' /\ match_at r prev' s' = Some (m, g).
Proof.
  induction s as [|c s IH]; simpl; intros prev skip H.
  - destruct skip; [|contradiction].
    destruct (match_at r prev "") as [[m' g]|] eqn:E; [|contradiction].
    destruct H as [<-|[]]. exists "", prev, "", g. auto.
  - assert (Hrest : forall prev0 skip0, In m (scan r prev0 s skip0) ->
               exists pre prev' s' g,
                 String c s = pre ++ s' /\ match_at r prev' s' = Some (m, g)).
    { intros prev0 skip0 H0. destruct (IH _ _ H0) as [pre [prev' [s' [g [-> Hm]]]]].
      exists (String c pre), prev', s', g. auto. }
    destruct skip as [|n]; [|eauto].
    destruct (match_at r prev (String c s)) as [[m' g]|] eqn:E; [|eauto].
    destruct H as [<-|H]; [|eauto].
    exists "", prev, (String c s), g. auto.
Qed.

Lemma match_at_emit_closes prev s m g :
  match_at re_emit prev s = Some (m, g) -> closes s = true.
Proof.
  intros H. destruct (LogicFacts.match_at_emit _ _ _ _ H) as [m' [rest [_ [-> _]]]].
  destruct (SignalFacts.match_at_emit_shape _ _ _ _ H)
    as [q1 [body [q2 [_ [Hq2 [_ [_ ->]]]]]]].
  apply closes_call, Hq2.
Qed.

End CloseFacts.

(** C5 fails on the code for the calls with further arguments. The pattern
    asks for the closing parenthesis right after the closing quote of the
    literal: a text in which no quote is followed at once by a closing
    parenthesis yields no [emits] at all, whatever calls of [emit] on a
    string literal it holds. *)
Theorem emit_with_arguments_not_extracted (content : string) :
  CloseFacts.closes content = false ->
  ExtractLogic.emits (ExtractLogic.extractLogicFromFile content) = None.
Proof.
  intros Hclose. unfold ExtractLogic.extractLogicFromFile. cbn [ExtractLogic.emits].
  destruct (RegExp.String_match_g ExtractLogic.re_emit content) as [|m ms] eqn:E;
    [reflexivity|].
  exfalso. assert (Hin : In m (RegExp.String_match_g ExtractLogic.re_emit content))
    by (rewrite E; left; reflexivity).
  apply CloseFacts.scan_matches_at in Hin.
  destruct Hin as [pre [prev' [s' [g [Hs Hm]]]]].
  apply CloseFacts.match_at_emit_closes in Hm.
  rewrite Hs, (CloseFacts.closes_app pre s' Hm) in Hclose. discriminate.
Qed.

Lemma emit_with_arguments_not_extracted_witness :
  ExtractLogic.emits (ExtractLogic.extractLogicFromFile "emit('update:modelValue', value)")
  = None.
Proof. apply (emit_with_arguments_not_extracted "emit('update:modelValue', value)"). reflexivity. Defined.

(** X12: what the four categories of [extractLogicFromFile] hold. A
    composable is [use], an upper-case letter and one word character or
    more; a Vue feature is one of the six names of the pattern; a method is
    a word, and neither [setup] nor [render]; an event is the content of a
    string literal, not empty and on one line, and never [undefined].
    A category that is present is not empty, except [methods]. *)
Theorem logic_entries_well_formed (content : string) :
  (forall l, ExtractLogic.composables (ExtractLogic.extractLogicFromFile content) = Some l ->
             l <> [] /\ Forall SignalFacts.composable_name l) /\
  (forall l, ExtractLogic.vueImports (ExtractLogic.extractLogicFromFile content) = Some l ->
             l <> [] /\ Forall (fun m => In m SignalFacts.vue_features) l) /\
  (forall l, ExtractLogic.methods (ExtractLogic.extractLogicFromFile content) = Some l ->
             Forall SignalFacts.method_name l) /\
  (forall l, ExtractLogic.emits (ExtractLogic.extractLogicFromFile content) = Some l ->
             l <> [] /\ Forall SignalFacts.event_name l).
Proof.
  assert (Hset : forall x xs, new_Set (x :: xs) <> []).
  { intros x xs H. assert (Hin : In x (new_Set (x :: xs)))
      by (apply ObjectFacts.In_new_Set; left; reflexivity).
    rewrite H in Hin. contradiction. }
  unfold ExtractLogic.extractLogicFromFile.
  cbn [ExtractLogic.composables ExtractLogic.vueImports ExtractLogic.methods ExtractLogic.emits].
  split; [|split; [|split]]; intros l H.
  - destruct (RegExp.String_match_g ExtractLogic.re_composable content) as [|m ms] eqn:E;
      [discriminate|]. injection H as <-. split; [apply Hset|].
    apply List.Forall_forall. intros x Hx. apply (proj1 (ObjectFacts.In_new_Set _ _)) in Hx.
    rewrite <- E in Hx. apply RegExpFacts.scan_matches in Hx.
    destruct Hx as [prev [s [g Hx]]]. eapply SignalFacts.match_at_composable, Hx.
  - destruct (RegExp.String_match_g ExtractLogic.re_vueImport content) as [|m ms] eqn:E;
      [discriminate|]. injection H as <-. split; [apply Hset|].
    apply List.Forall_forall. intros x Hx. apply (proj1 (ObjectFacts.In_new_Set _ _)) in Hx.
    rewrite <- E in Hx. apply RegExpFacts.scan_matches in Hx.
    destruct Hx as [prev [s [g Hx]]]. eapply SignalFacts.match_at_vueImport, Hx.
  - destruct (RegExp.String_match_g ExtractLogic.re_method content) as [|m ms] eqn:E;
      [discriminate|]. rewrite <- E in H. clear E. injection H as <-.
    apply List.Forall_forall. intros x Hx.
    apply (proj1 (ObjectFacts.In_new_Set _ _)) in Hx.
    apply filter_In in Hx. destruct Hx as [Hx Hres].
    apply in_map_iff in Hx. destruct Hx as [m0 [<- Hm0]].
    apply RegExpFacts.scan_matches in Hm0.
    destruct Hm0 as [prev [s [g Hm0]]].
    apply SignalFacts.match_at_method in Hm0.
    destruct Hm0 as [c [w [sp [rest [Hw [Hsp ->]]]]]].
    rewrite (SignalFacts.method_of_match c w sp rest Hw Hsp) in *.
    split; [discriminate|]. split; [assumption|].
    unfold ExtractLogic.reserved_methods in Hres. cbn [existsb] in Hres.
    split; intros Heq; rewrite Heq in Hres; discriminate Hres.
  - destruct (RegExp.String_match_g ExtractLogic.re_emit content) as [|m ms] eqn:E;
      [discriminate|]. rewrite <- E in H. injection H as <-.
    split; [rewrite E; discriminate|]. clear E.
    apply List.Forall_forall. intros x Hx.
    apply in_map_iff in Hx. destruct Hx as [m0 [<- Hm0]].
    apply RegExpFacts.scan_matches in Hm0.
    destruct Hm0 as [prev [s [g Hm0]]].
    apply SignalFacts.match_at_emit_shape in Hm0.
    destruct Hm0 as [q1 [body [q2 [Hq1 [Hq2 [Hne [Hbody ->]]]]]]].
    destruct (SignalFacts.quoted_of_emit q1 body q2 Hq1 Hq2 Hne Hbody) as [m' [g' Hm']].
    rewrite Hm'. apply SignalFacts.search_match_at in Hm'.
    destruct Hm' as [prev' [s' Hm']]. eapply SignalFacts.match_at_quoted_shape, Hm'.
Qed.

(** ** The loop of [extractLogic] *)

Module LoopFacts.
Import JS ExtractLogic ObjectFacts.








End LoopFacts.




(** ** From the merger to the servers *)

Module PipelineFacts.
Import JS Merge Dataset ObjectFacts.

Lemma merged_record_at api docs logic tokens key :
  In key (Object_keys api ++ Object_keys docs ++ Object_keys logic) ->
  key <> "_tokens" -> key <> "__proto__" ->
  exists fields, obj_get key (merge_objects api docs logic (VObj tokens)) = Some (VObj fields).
Proof.
  intros Hin Hne Hproto. unfold merge_objects. cbv zeta.
  assert (Hex : existsb (String.eqb key)
                  (new_Set (Object_keys api ++ Object_keys docs ++ Object_keys logic)) = true)
    by (apply existsb_eqb_In, In_new_Set, Hin).
  assert (Hp : String.eqb key "__proto__" = false)
    by (destruct (String.eqb_spec key "__proto__"); [contradiction | reflexivity]).
  eexists.
  destruct (0 <? List.length (Object_keys (entries (VObj tokens))))%nat;
    [rewrite obj_get_obj_set_ne by assumption|];
    rewrite MergeFacts.merged_loop_lookup, Hex, Hp; reflexivity.
Qed.

Lemma merged_tokens api docs logic tokens :
  tokens <> [] ->
  obj_get "_tokens" (merge_objects api docs logic (VObj tokens)) = Some (VObj tokens).
Proof.
  intros Hne. unfold merge_objects. cbv zeta.
  destruct tokens as [|t tokens]; [congruence|].
  cbn [entries Object_keys map List.length Nat.ltb Nat.leb].
  apply obj_get_obj_set_eq. discriminate.
Qed.

End PipelineFacts.

(** X14: the servers over the object that the merger returns, for
    documents that are objects and hold no key that is a property name of
    [Object.prototype]. The components that [GET /mcp/components] lists
    are the keys of the [api], [docs] and [logic] documents other than
    [_tokens]; each of them whose key is in lower case is answered by
    [GET /mcp/component/:name] and by the tool [get_component] with a
    record; and a token document that is not empty is what
    [GET /mcp/tokens] returns, its size the count of the response and the
    token count of the tool [list_components]. *)
Theorem merged_dataset_served (api docs logic tokens : list (string * value)) :
  (forall k, In k (Object_keys api ++ Object_keys docs ++ Object_keys logic) ->
             ~ In k Object_prototype) ->
  exists data,
    Merge.mergeDatasets (VObj api) (VObj docs) (VObj logic) (VObj tokens) = Returns data /\
    (exists result,
       QueryAPI.compute_components data None = Some result /\
       forall key,
         In key (map QueryAPI.name result) <->
         In key (Object_keys api ++ Object_keys docs ++ Object_keys logic) /\
         key <> "_tokens") /\
    (forall key,
       In key (Object_keys api ++ Object_keys docs ++ Object_keys logic) ->
       key <> "_tokens" -> toLowerCase key = key ->
       exists fields,
         QueryAPI.get_component data key None = QueryAPI.Value (VObj fields) /\
         ToolServer.getComponent data key = ToolServer.Returned (VObj fields)) /\
    (tokens <> [] ->
     QueryAPI.compute_tokens data None
     = Some {| QueryAPI.count := List.length tokens; QueryAPI.tokens := VObj tokens |} /\
     ToolServer.stats_tokens (ToolServer.listComponents data) = List.length tokens).
Proof.
  intros Hkeys.
  assert (Hproto : forall k, In k (Object_keys api ++ Object_keys docs ++ Object_keys logic) ->
                             k <> "__proto__").
  { intros k Hk ->. apply (Hkeys _ Hk). simpl. tauto. }
  exists (Merge.merge_objects api docs logic (VObj tokens)).
  split; [reflexivity|]. split; [|split].
  - eexists. split; [reflexivity|]. intros key.
    rewrite map_map. cbn [QueryAPI.summarize QueryAPI.name]. rewrite map_id.
    rewrite QueryFacts.In_component_keys, mergeDatasets_keys.
    split; [|intros [H1 H2]; split; [left; split; [assumption | apply Hproto, H1]|assumption]].
    intros [[[H _]|[H _]] Hne]; [tauto | contradiction].
  - intros key Hin Hne Hlow.
    destruct (PipelineFacts.merged_record_at api docs logic tokens key Hin Hne (Hproto _ Hin))
      as [fields Hf].
    exists fields. unfold QueryAPI.get_component, ToolServer.getComponent, Dataset.js_or.
    rewrite Hlow, (ObjectFacts.obj_read_get _ _ _ Hf). split; reflexivity.
  - intros Hne. assert (Ht := PipelineFacts.merged_tokens api docs logic tokens Hne).
    unfold QueryAPI.compute_tokens, ToolServer.listComponents.
    cbn [ToolServer.stats_tokens QueryAPI.given]. rewrite Ht.
    cbn [or_empty truthy entries]. unfold Object_keys. rewrite length_map. split; reflexivity.
Qed.

Lemma merged_dataset_served_witness :
  exists data result,
    Merge.mergeDatasets (VObj button_api) (VObj button_docs) (VObj button_logic)
      (VObj reserved_key_tokens) = Returns data /\
    QueryAPI.compute_components data None = Some result /\
    map QueryAPI.name result = ["button"].
Proof.
  destruct (merged_dataset_served button_api button_docs button_logic reserved_key_tokens)
    as [data [Hrun [[result [Hr _]] _]]].
  - intros k [<-|[<-|[<-|[]]]]; simpl; intuition discriminate.
  - exists data, result. split; [assumption|]. split; [assumption|].
    vm_compute in Hrun. injection Hrun as <-.
    vm_compute in Hr. injection Hr as <-. reflexivity.
Defined.

(** X15: the order of the keys of the merged dataset. When no key of the
    three documents is an array index, [_tokens] or [__proto__], the keys
    of the output are those of [api], then those of [docs], then those of
    [logic], each at its first occurrence, and [_tokens] last when the
    token document is not empty. *)
Theorem mergeDatasets_key_order (api docs logic tokens : list (string * value)) :
  (forall k, In k (Object_keys api ++ Object_keys docs ++ Object_keys logic) ->
             array_index k = None /\ k <> "_tokens" /\ k <> "__proto__") ->
  exists merged,
    Merge.mergeDatasets (VObj api) (VObj docs) (VObj logic) (VObj tokens) = Returns merged /\
    Object_keys merged
    = (ObjectFacts.first_occurrences
         (Object_keys api ++ Object_keys docs ++ Object_keys logic)
       ++ match tokens with [] => [] | _ => ["_tokens"] end)%list.
Proof.
  intros Hkeys. eexists. split; [reflexivity|]. apply merge_objects_key_order, Hkeys.
Qed.

Lemma mergeDatasets_key_order_witness :
  exists merged,
    Merge.mergeDatasets (VObj button_api) (VObj button_docs)
      (VObj [("card", VObj []); ("constructor", VObj []); ("button", VObj [])])
      (VObj reserved_key_tokens) = Returns merged /\
    Object_keys merged = ["button"; "card"; "constructor"; "_tokens"].
Proof.
  apply (mergeDatasets_key_order button_api button_docs
           [("card", VObj []); ("constructor", VObj []); ("button", VObj [])]
           reserved_key_tokens).
  intros k [<-|[<-|[<-|[<-|[<-|[]]]]]]; repeat split; (reflexivity || discriminate).
Defined.

(** ** The interpreter line *)

(** X16: the script that adds the interpreter line can be run again
    without effect. After a run the built server, when it exists, starts
    with the interpreter line, followed by the text it had unless the line
    was there already; a second run changes neither a text nor a mode, and
    no other file is ever touched. *)
Theorem add_shebang_idempotent (d : Shebang.disk) (p : string) :
  Shebang.content (Shebang.add_shebang (Shebang.add_shebang d)) p
  = Shebang.content (Shebang.add_shebang d) p /\
  Shebang.mode (Shebang.add_shebang (Shebang.add_shebang d)) p
  = Shebang.mode (Shebang.add_shebang d) p /\
  (forall text,
     Shebang.content d Shebang.file = Some text ->
     exists text',
       Shebang.content (Shebang.add_shebang d) Shebang.file = Some text' /\
       String.prefix Shebang.shebang text' = true /\
       (text' = text \/ text' = Shebang.shebang ++ text)) /\
  (p <> Shebang.file ->
   Shebang.content (Shebang.add_shebang d) p = Shebang.content d p /\
   Shebang.mode (Shebang.add_shebang d) p = Shebang.mode d p).
Proof.
  assert (Hrun : Shebang.add_shebang (Shebang.add_shebang d) = Shebang.add_shebang d).
  { unfold Shebang.add_shebang.
    destruct (Shebang.content d Shebang.file) as [text|] eqn:E.
    - destruct (String.prefix Shebang.shebang text) eqn:Hp.
      + rewrite E, Hp. reflexivity.
      + cbn [Shebang.content]. rewrite String.eqb_refl, FetchFacts.prefix_app. reflexivity.
    - rewrite E. reflexivity. }
  rewrite Hrun. split; [reflexivity|]. split; [reflexivity|]. split.
  - intros text E. unfold Shebang.add_shebang. rewrite E.
    destruct (String.prefix Shebang.shebang text) eqn:Hp.
    + exists text. auto.
    + exists (Shebang.shebang ++ text). cbn [Shebang.content]. rewrite String.eqb_refl.
      split; [reflexivity|]. split; [apply FetchFacts.prefix_app | auto].
  - intros Hne. unfold Shebang.add_shebang.
    destruct (Shebang.content d Shebang.file) as [text|]; [|auto].
    destruct (String.prefix Shebang.shebang text); [auto|].
    cbn [Shebang.content Shebang.mode].
    destruct (String.eqb_spec p Shebang.file); [contradiction | auto].
Qed.

(** ** The case of the query *)

Module CaseFacts.
Import JS.

Lemma lower_ascii_idem c : lower_ascii (lower_ascii c) = lower_ascii c.
Proof. destruct c as [[] [] [] [] [] [] [] []]; vm_compute; reflexivity. Qed.

Lemma toLowerCase_idem s : toLowerCase (toLowerCase s) = toLowerCase s.
Proof.
  induction s as [|c s IH]; simpl; [reflexivity|].
  rewrite lower_ascii_idem, IH. reflexivity.
Qed.

Lemma toLowerCase_nonempty s : s <> "" -> toLowerCase s <> "".
Proof. destruct s; [congruence | discriminate]. Qed.

End CaseFacts.

(** X18: the filters do not see the case of the query. Two queries that
    are not empty and differ by case only get the same list of components,
    the same tokens and the same search results, from the query API and
    from the tools alike; a query and its lowercased form are two such. *)
Theorem query_case_ignored (data : list (string * value)) (q q' : string) :
  q <> "" -> q' <> "" -> toLowerCase q = toLowerCase q' ->
  QueryAPI.compute_components data (Some q) = QueryAPI.compute_components data (Some q') /\
  QueryAPI.compute_tokens data (Some q) = QueryAPI.compute_tokens data (Some q') /\
  option_map QueryAPI.results (QueryAPI.compute_search data q)
  = option_map QueryAPI.results (QueryAPI.compute_search data q') /\
  ToolServer.searchComponents data q = ToolServer.searchComponents data q' /\
  ToolServer.ts_tokens (ToolServer.searchTokens data q)
  = ToolServer.ts_tokens (ToolServer.searchTokens data q') /\
  toLowerCase (toLowerCase q) = toLowerCase q.
Proof.
  intros Hq Hq' Heq.
  unfold QueryAPI.compute_components, QueryAPI.compute_tokens, QueryAPI.compute_search,
    ToolServer.searchComponents, ToolServer.searchTokens.
  rewrite (ListingFacts.given_nonempty q Hq), (ListingFacts.given_nonempty q' Hq'), Heq.
  repeat split.
  - destruct (QueryAPI.component_hits (toLowerCase q') data); reflexivity.
  - rewrite <- Heq. apply CaseFacts.toLowerCase_idem.
Qed.

Lemma query_case_ignored_witness :
  QueryAPI.compute_components small_dataset (Some "BUTTON")
  = QueryAPI.compute_components small_dataset (Some "button").
Proof.
  apply (query_case_ignored small_dataset "BUTTON" "button");
    [discriminate | discriminate | reflexivity].
Defined.
